(** * post_analyze: the content post-processing pipeline

    A shallow embedding of the rate limiter, the markdown response parser,
    the content formatter, the SEO scorer and the prompt-history store of
    the application, with the properties stated about them.

    JavaScript strings are sequences of UTF-16 code units and are modelled
    as [list Z]; objects used as dictionaries are [gmap]s; [Date.now()] and
    the generated identifiers are inputs of the operation that reads them. *)

From Stdlib Require Import ZArith List Bool Lia String Ascii Uint63 Floats DecimalString.
From stdpp Require Import base option list gmap.
Import ListNotations.

Set Warnings "-inexact-float".
Local Open Scope Z_scope.

(** ** JavaScript strings *)

Module JS.

(** A string value: its UTF-16 code units. *)
Abbreviation jsstring := (list Z).

(** Decoding of the UTF-8 bytes of a literal into code points. *)
Fixpoint utf8_points (bs : list Z) : list Z :=
  match bs with
  | [] => []
  | b0 :: t0 =>
    if b0 <? 128 then b0 :: utf8_points t0
    else match t0 with
      | [] => []
      | b1 :: t1 =>
        if b0 <? 224 then ((b0 mod 32) * 64 + b1 mod 64) :: utf8_points t1
        else match t1 with
          | [] => []
          | b2 :: t2 =>
            if b0 <? 240
            then ((b0 mod 16) * 4096 + (b1 mod 64) * 64 + b2 mod 64) :: utf8_points t2
            else match t2 with
              | [] => []
              | b3 :: t3 =>
                ((b0 mod 8) * 262144 + (b1 mod 64) * 4096 + (b2 mod 64) * 64 + b3 mod 64)
                  :: utf8_points t3
              end
          end
      end
  end.

(** Code points to UTF-16 code units (surrogate pairs above the BMP). *)
Definition utf16_units (cp : Z) : list Z :=
  if cp <? 65536 then [cp]
  else [55296 + (cp - 65536) / 1024; 56320 + (cp - 65536) mod 1024].

Definition bytes_of (s : string) : list Z :=
  map (fun b => Z.of_N (Byte.to_N b)) (list_byte_of_string s).

(** The string value denoted by a literal of the source text. *)
Definition str (s : string) : jsstring :=
  flat_map utf16_units (utf8_points (bytes_of s)).

Definition streq (a b : jsstring) : bool := bool_decide (a = b).

(** WhiteSpace and LineTerminator code units: what [trim] strips and what
    the regular-expression class [\s] matches. *)
Definition isWhiteSpace (c : Z) : bool :=
  (9 <=? c) && (c <=? 13) || (c =? 32) || (c =? 160) || (c =? 5760)
  || (8192 <=? c) && (c <=? 8202) || (c =? 8232) || (c =? 8233)
  || (c =? 8239) || (c =? 8287) || (c =? 12288) || (c =? 65279).

(** LineTerminator code units: what [.] does not match and where the
    multiline [^] and [$] anchor. *)
Definition isLineTerminator (c : Z) : bool :=
  (c =? 10) || (c =? 13) || (c =? 8232) || (c =? 8233).

(** [\w]: ASCII letters, digits and underscore. *)
Definition isWordChar (c : Z) : bool :=
  (97 <=? c) && (c <=? 122) || (65 <=? c) && (c <=? 90)
  || (48 <=? c) && (c <=? 57) || (c =? 95).

(** [\d] *)
Definition isDigit (c : Z) : bool := (48 <=? c) && (c <=? 57).

Fixpoint trimStart (s : jsstring) : jsstring :=
  match s with
  | c :: t => if isWhiteSpace c then trimStart t else s
  | [] => []
  end.

Definition trimEnd (s : jsstring) : jsstring := rev (trimStart (rev s)).

(** [String.prototype.trim] *)
Definition trim (s : jsstring) : jsstring := trimEnd (trimStart s).

(** [String.prototype.substring(start, end)]: negative arguments count as
    0, arguments beyond the length as the length, and the two are swapped
    when [start > end]. *)
Definition clampIndex (s : jsstring) (i : Z) : nat :=
  Z.to_nat (Z.min (Z.max i 0) (Z.of_nat (length s))).

Definition substring (s : jsstring) (start : Z) (fin : option Z) : jsstring :=
  let a := clampIndex s start in
  let b := match fin with Some e => clampIndex s e | None => length s end in
  let lo := Nat.min a b in
  let hi := Nat.max a b in
  firstn (hi - lo) (skipn lo s).

(** [Array.prototype.join] on strings. *)
Fixpoint join (sep : jsstring) (l : list jsstring) : jsstring :=
  match l with
  | [] => []
  | [x] => x
  | x :: t => x ++ sep ++ join sep t
  end.

Fixpoint startsWith (p s : jsstring) : bool :=
  match p, s with
  | [], _ => true
  | a :: p', b :: s' => (a =? b) && startsWith p' s'
  | _ :: _, [] => false
  end.

(** [s.includes(sub)] *)
Fixpoint includes (s sub : jsstring) : bool :=
  startsWith sub s || match s with [] => false | _ :: t => includes t sub end.

(** Truthiness of a string: exactly the non-empty ones. *)
Definition truthy (s : jsstring) : bool :=
  match s with [] => false | _ => true end.

End JS.

Import JS.

(** ** Numbers

    Counts, lengths and scores are integers and are kept in [Z]; where the
    source divides or multiplies by a fraction the value is a binary64
    number, with the arithmetic of the primitive floats. *)

Module Num.

(** The number with the value of a count (counts are far below the
    63 bits of the conversion). *)
Definition ofZ (z : Z) : float :=
  if z <? 0 then PrimFloat.opp (PrimFloat.of_uint63 (Uint63.of_Z (- z)))
  else PrimFloat.of_uint63 (Uint63.of_Z z).

(** [Math.round]: the nearest integer, a tie going towards positive
    infinity; integers, infinities and NaN are returned as they are, and
    the sign of a result of zero is that of the argument. *)
Definition mathRound (x : float) : float :=
  match Prim2SF x with
  | S754_finite s m e =>
      if 0 <=? e then x
      else
        let n := if s then Z.neg m else Z.pos m in
        let r := (2 * n + 2 ^ (- e)) / 2 ^ (1 - e) in
        if r =? 0 then (if s then PrimFloat.opp 0 else 0%float) else ofZ r
  | _ => x
  end.

(** The integer nearest to zero from a finite number (its value when it
    is an integer). *)
Definition truncate (x : float) : Z :=
  match Prim2SF x with
  | S754_finite s m e =>
      let v := if 0 <=? e then Z.pos m * 2 ^ e else Z.pos m / 2 ^ (- e) in
      if s then - v else v
  | _ => 0
  end.

(** [x] is the number of the integer [n]. *)
Definition isInteger (x : float) (n : Z) : bool := PrimFloat.Leibniz.eqb x (ofZ n).

(** [a >= b] and [a <= b] on numbers. *)
Definition geb (a b : float) : bool := PrimFloat.leb b a.
Definition leb (a b : float) : bool := PrimFloat.leb a b.
Definition gtb (a b : float) : bool := PrimFloat.ltb b a.

End Num.

(** ** Regular expressions

    The backtracking matcher of the language standard, restricted to the
    constructs the source uses: a pattern is tried alternative by
    alternative in priority order against a continuation, a greedy
    quantifier tries one more iteration before stopping and a lazy one
    stops first, and an iteration that consumes nothing is rejected. *)

Module Regex.

Inductive regex :=
| Empty
| Char (p : Z -> bool)
| Seq (r1 r2 : regex)
| Alt (r1 r2 : regex)
| Star (greedy : bool) (r : regex)
| Group (n : nat) (r : regex)
| Bol (multiline : bool)
| Eol (multiline : bool)
| WordBoundary.

(** A position in the input, with the captures made so far: [before] holds
    the code units to the left of the position, nearest first. *)
Record mstate := {
  before : list Z;
  after : list Z;
  caps : list (nat * jsstring)
}.

Definition advance (c : Z) (rest : list Z) (st : mstate) : mstate :=
  {| before := c :: before st; after := rest; caps := caps st |}.

(** The input between two positions [st] and a later [st']. *)
Definition consumed (st st' : mstate) : jsstring :=
  firstn (length (after st) - length (after st')) (after st).

Definition capture (n : nat) (st st' : mstate) : mstate :=
  {| before := before st'; after := after st';
     caps := (n, consumed st st') :: caps st' |}.

Definition atBol (multiline : bool) (st : mstate) : bool :=
  match before st with
  | [] => true
  | c :: _ => multiline && isLineTerminator c
  end.

Definition atEol (multiline : bool) (st : mstate) : bool :=
  match after st with
  | [] => true
  | c :: _ => multiline && isLineTerminator c
  end.

Definition atWordBoundary (st : mstate) : bool :=
  let a := match before st with c :: _ => isWordChar c | [] => false end in
  let b := match after st with c :: _ => isWordChar c | [] => false end in
  xorb a b.

Definition orElse {A} (x : option A) (y : unit -> option A) : option A :=
  match x with Some _ => x | None => y tt end.

(** A matcher tries to match at a position and hands the position it
    reaches to its continuation. *)
Definition matcher := mstate -> (mstate -> option mstate) -> option mstate.

(** The iterations of a quantified pattern whose body is matched by [m].
    Every iteration consumes input, so the fuel, the length of the rest of
    the input plus one, is never used up. *)
Fixpoint starLoop (greedy : bool) (m : matcher) (k : mstate -> option mstate)
    (fuel : nat) (st : mstate) {struct fuel} : option mstate :=
  match fuel with
  | O => None
  | S fuel' =>
      let more := fun _ : unit =>
        m st (fun st' =>
          if Nat.ltb (length (after st')) (length (after st))
          then starLoop greedy m k fuel' st' else None) in
      if greedy then orElse (more tt) (fun _ => k st)
      else orElse (k st) more
  end.

(** [run r st k]: the first way, in priority order, of matching [r] at
    [st] such that the continuation [k] succeeds on the position reached. *)
Fixpoint run (r : regex) {struct r} : matcher :=
  match r with
  | Empty => fun st k => k st
  | Char p => fun st k =>
      match after st with
      | c :: rest => if p c then k (advance c rest st) else None
      | [] => None
      end
  | Seq r1 r2 => fun st k => run r1 st (fun st1 => run r2 st1 k)
  | Alt r1 r2 => fun st k => orElse (run r1 st k) (fun _ => run r2 st k)
  | Star greedy r1 => fun st k =>
      starLoop greedy (run r1) k (S (length (after st))) st
  | Group n r1 => fun st k => run r1 st (fun st' => k (capture n st st'))
  | Bol m => fun st k => if atBol m st then k st else None
  | Eol m => fun st k => if atEol m st then k st else None
  | WordBoundary => fun st k => if atWordBoundary st then k st else None
  end.

(** The matches of a pattern between two positions, without regard to
    priority. *)
Inductive matches : regex -> mstate -> mstate -> Prop :=
| matches_Empty st : matches Empty st st
| matches_Char p c rest st :
    after st = c :: rest -> p c = true -> matches (Char p) st (advance c rest st)
| matches_Seq r1 r2 st st1 st2 :
    matches r1 st st1 -> matches r2 st1 st2 -> matches (Seq r1 r2) st st2
| matches_Alt_l r1 r2 st st' : matches r1 st st' -> matches (Alt r1 r2) st st'
| matches_Alt_r r1 r2 st st' : matches r2 st st' -> matches (Alt r1 r2) st st'
| matches_Star_stop g r st : matches (Star g r) st st
| matches_Star_more g r st st1 st2 :
    matches r st st1 -> (length (after st1) < length (after st))%nat ->
    matches (Star g r) st1 st2 -> matches (Star g r) st st2
| matches_Group n r st st' : matches r st st' -> matches (Group n r) st (capture n st st')
| matches_Bol m st : atBol m st = true -> matches (Bol m) st st
| matches_Eol m st : atEol m st = true -> matches (Eol m) st st
| matches_WordBoundary st : atWordBoundary st = true -> matches WordBoundary st st.

(** [st'] is reached from [st] by reading the code units [w]. *)
Definition spans (st : mstate) (w : list Z) (st' : mstate) : Prop :=
  after st = w ++ after st' /\ before st' = rev w ++ before st.

(** Patterns without capture groups. *)
Fixpoint noGroups (r : regex) : bool :=
  match r with
  | Seq r1 r2 | Alt r1 r2 => noGroups r1 && noGroups r2
  | Star _ r1 => noGroups r1
  | Group _ _ => false
  | _ => true
  end.

(** A successful match: where it starts and where it ends. *)
Record result := { start : mstate; stop : mstate }.

Definition matched (m : result) : jsstring := consumed (start m) (stop m).

(** [m[n]]: the text of capture group [n], when it took part. *)
Definition group (m : result) (n : nat) : option jsstring :=
  snd <$> List.find (fun c => Nat.eqb (fst c) n) (caps (stop m)).

(** One attempt at exactly this position. *)
Definition matchAt (r : regex) (bef aft : list Z) : option result :=
  let st := {| before := bef; after := aft; caps := [] |} in
  (fun st' => {| start := st; stop := st' |}) <$> run r st Some.

(** The leftmost match at or to the right of a position. *)
Fixpoint execFrom (r : regex) (bef aft : list Z) : option result :=
  match matchAt r bef aft with
  | Some m => Some m
  | None =>
      match aft with
      | c :: rest => execFrom r (c :: bef) rest
      | [] => None
      end
  end.

(** [s.match(r)] and [r.exec(s)] for a pattern without the [g] flag. *)
Definition exec (r : regex) (s : jsstring) : option result := execFrom r [] s.

(** [r.test(s)] *)
Definition test (r : regex) (s : jsstring) : bool :=
  match exec r s with Some _ => true | None => false end.

(** [s.match(r)] for a pattern with the [g] flag: every match from left to
    right, the search resuming where the last match ended, or one code
    unit further after an empty match. The source reads [null] as no
    match, which is the empty list here. *)
Fixpoint matchAllFrom (fuel : nat) (r : regex) (bef aft : list Z) : list jsstring :=
  match fuel with
  | O => []
  | S fuel' =>
      match execFrom r bef aft with
      | None => []
      | Some m =>
          matched m ::
          match matched m, after (stop m) with
          | [], c :: rest => matchAllFrom fuel' r (c :: before (stop m)) rest
          | [], [] => []
          | _ :: _, _ => matchAllFrom fuel' r (before (stop m)) (after (stop m))
          end
      end
  end.

Definition matchAll (r : regex) (s : jsstring) : list jsstring :=
  matchAllFrom (S (length s)) r [] s.

(** [s.replace(r, repl)] for a pattern with the [g] flag and a replacement
    text without [$] patterns. *)
Fixpoint replaceFrom (fuel : nat) (r : regex) (repl : jsstring)
    (bef aft : list Z) : jsstring :=
  match fuel with
  | O => aft
  | S fuel' =>
      match execFrom r bef aft with
      | None => aft
      | Some m =>
          firstn (length aft - length (after (start m))) aft ++ repl ++
          match matched m, after (stop m) with
          | [], c :: rest => c :: replaceFrom fuel' r repl (c :: before (stop m)) rest
          | [], [] => []
          | _ :: _, _ => replaceFrom fuel' r repl (before (stop m)) (after (stop m))
          end
      end
  end.

Definition replaceAll (r : regex) (repl : jsstring) (s : jsstring) : jsstring :=
  replaceFrom (S (length s)) r repl [] s.

(** [s.split(r)] for a pattern without capture groups: the search position
    [q] walks to the right of the last cut [p]; [seg] holds the code
    units between the two, nearest first. A match that ends at [p] is
    skipped. *)
Fixpoint splitFrom (fuel : nat) (r : regex) (seg bef aft : list Z) : list jsstring :=
  match fuel with
  | O => [rev seg ++ aft]
  | S fuel' =>
      match aft with
      | [] => [rev seg]
      | c :: rest =>
          match matchAt r bef aft with
          | Some m =>
              if Nat.eqb (length (after (stop m))) (length aft) && negb (truthy seg)
              then splitFrom fuel' r (c :: seg) (c :: bef) rest
              else rev seg :: splitFrom fuel' r [] (before (stop m)) (after (stop m))
          | None => splitFrom fuel' r (c :: seg) (c :: bef) rest
          end
      end
  end.

Definition split (r : regex) (s : jsstring) : list jsstring :=
  match s with
  | [] => match matchAt r [] [] with Some _ => [] | None => [[]] end
  | _ => splitFrom (2 * length s + 2) r [] [] s
  end.

(** Pattern syntax. *)
Definition chr (c : Z) : regex := Char (Z.eqb c).
Definition oneOf (cs : jsstring) : regex := Char (fun c => existsb (Z.eqb c) cs).
Definition noneOf (cs : jsstring) : regex := Char (fun c => negb (existsb (Z.eqb c) cs)).
Definition dot : regex := Char (fun c => negb (isLineTerminator c)).
Definition space : regex := Char isWhiteSpace.
Definition word : regex := Char isWordChar.
Definition digit : regex := Char isDigit.

Fixpoint lit (s : jsstring) : regex :=
  match s with
  | [] => Empty
  | c :: t => Seq (chr c) (lit t)
  end.

Fixpoint alts (rs : list regex) : regex :=
  match rs with
  | [] => Char (fun _ => false)
  | [r] => r
  | r :: t => Alt r (alts t)
  end.

Definition plus (greedy : bool) (r : regex) : regex := Seq r (Star greedy r).

Fixpoint times (n : nat) (r : regex) : regex :=
  match n with
  | O => Empty
  | S n' => Seq r (times n' r)
  end.

Fixpoint upTo (n : nat) (r : regex) : regex :=
  match n with
  | O => Empty
  | S n' => Alt (Seq r (upTo n' r)) Empty
  end.

(** [r{lo,hi}] and [r{lo,}], greedy. *)
Definition between (lo hi : nat) (r : regex) : regex :=
  Seq (times lo r) (upTo (hi - lo) r).
Definition atLeast (lo : nat) (r : regex) : regex :=
  Seq (times lo r) (Star true r).

End Regex.

(** ** RateLimiter *)

Module RateLimiter.

Record limits := { rpm : Z; tpm : Z }.

(** [RATE_LIMITS] *)
Definition RATE_LIMITS (model : jsstring) : option limits :=
  if streq model (str "gemini-2.5-pro") then Some {| rpm := 2; tpm := 32000 |}
  else if streq model (str "gemini-2.5-flash") then Some {| rpm := 15; tpm := 1000000 |}
  else None.

(** The two private fields of the class: per model, the times of the
    recorded requests and the recorded token counts. The objects are read
    as maps from model names; the names that a plain object inherits from
    its prototype are not model names. *)
Record t := {
  requests : gmap jsstring (list Z);
  tokens : gmap jsstring (list Z)
}.

(** [new RateLimiter()] *)
Definition create : t := {| requests := ∅; tokens := ∅ |}.

Definition oneMinute : Z := 60 * 1000.

(** [arr.filter(time => now - time < oneMinute)] *)
Definition withinMinute (now : Z) (arr : list Z) : list Z :=
  List.filter (fun time => now - time <? oneMinute) arr.

(** [arr.reduce((sum, tokens) => sum + tokens, 0)] *)
Definition sumTokens (arr : list Z) : Z :=
  fold_left (fun sum tokens => sum + tokens) arr 0.

(** [canMakeRequest(model, estimatedTokens = 1000)] at clock reading [now]:
    the answer and the limiter afterwards. Both arrays of the model are
    created when absent and filtered with the same predicate before the
    limits are looked up. *)
Definition canMakeRequest (now : Z) (model : jsstring)
    (estimatedTokens : option Z) (rl : t) : bool * t :=
  let estimatedTokens := default 1000 estimatedTokens in
  let reqs := withinMinute now (default [] (requests rl !! model)) in
  let toks := withinMinute now (default [] (tokens rl !! model)) in
  let rl' := {| requests := <[model := reqs]> (requests rl);
                tokens := <[model := toks]> (tokens rl) |} in
  match RATE_LIMITS model with
  | None => (false, rl')
  | Some lim =>
      ((Z.of_nat (length reqs) <? rpm lim)
         && (sumTokens toks + estimatedTokens <? tpm lim), rl')
  end.

(** [recordRequest(model, tokens)] at clock reading [now]. *)
Definition recordRequest (now : Z) (model : jsstring) (toks : Z) (rl : t) : t :=
  {| requests := <[model := default [] (requests rl !! model) ++ [now]]> (requests rl);
     tokens := <[model := default [] (tokens rl !! model) ++ [toks]]> (tokens rl) |}.

(** The request times and token samples held for a model. *)
Definition requestsOf (rl : t) (model : jsstring) : list Z :=
  default [] (requests rl !! model).
Definition tokensOf (rl : t) (model : jsstring) : list Z :=
  default [] (tokens rl !! model).

(** The contract in the words of the specification, over the log of
    recorded samples [(time, tokens)] of one model: the samples of the
    trailing minute are counted and their tokens summed. *)
Definition inWindow (now : Z) (sample : Z * Z) : bool :=
  now - fst sample <? oneMinute.

Definition contract_admits (now : Z) (model : jsstring) (estimatedTokens : Z)
    (log : list (Z * Z)) : bool :=
  match RATE_LIMITS model with
  | None => false
  | Some lim =>
      let recent := List.filter (inWindow now) log in
      (Z.of_nat (length recent) <? rpm lim)
        && (sumTokens (map snd recent) + estimatedTokens <? tpm lim)
  end.

(** The request samples held for a model are all within the window at
    [now]. *)
Definition noStaleRequests (now : Z) (model : jsstring) (rl : t) : Prop :=
  forall time, In time (requestsOf rl model) -> now - time < oneMinute.

End RateLimiter.

Import Regex.

(** ** ResponseParser: [parseMarkdownArticle] *)

Module Parser.

Record heading := {
  level : Z;
  text : jsstring;
  description : jsstring
}.

Record taxonomy := {
  existing : list Z;
  new : list jsstring
}.

Record article := {
  introduction : jsstring;
  mainContent : jsstring;
  conclusion : jsstring
}.

Record outline := {
  headings : list heading
}.

(** [AISuggestion]; the optional [content] and [fullArticle] are [None]
    when absent. *)
Record AISuggestion := {
  titles : list jsstring;
  categories : taxonomy;
  tags : taxonomy;
  structure : outline;
  metaDescriptions : list jsstring;
  content : option jsstring;
  fullArticle : option article
}.

(** [/^#\s+(.+)$/m] *)
Definition titleRe : regex :=
  Seq (Bol true) (Seq (chr 35) (Seq (plus true space)
    (Seq (Group 1 (plus true dot)) (Eol true)))).

(** [/\*\*LABEL\*\*\s*(.+?)(?:\n|$)/], the label being the bold text of the
    meta-description, category or tag line. *)
Definition labelledRe (label : jsstring) : regex :=
  Seq (lit (str "**")) (Seq (lit label) (Seq (lit (str "**"))
    (Seq (Star true space) (Seq (Group 1 (plus false dot))
      (Alt (chr 10) (Eol false)))))).

Definition metaRe : regex := labelledRe (str "メタディスクリプション:").
Definition categoryRe : regex := labelledRe (str "推奨カテゴリー:").
Definition tagRe : regex := labelledRe (str "推奨タグ:").

(** [/---\s*\n(G)/] where the group [G] is [[\s\S]*]. *)
Definition contentRe : regex :=
  Seq (lit (str "---")) (Seq (Star true space) (Seq (chr 10)
    (Group 1 (Star true (Char (fun c => isWhiteSpace c || negb (isWhiteSpace c))))))).

(** [/^(#{2,6})\s+(.+)$/], with the [m] flag when [multiline]. *)
Definition headingRe (multiline : bool) : regex :=
  Seq (Bol multiline) (Seq (Group 1 (between 2 6 (chr 35)))
    (Seq (plus true space) (Seq (Group 2 (plus true dot)) (Eol multiline)))).

(** [/^#{2,6}\s+/m] *)
Definition sectionRe : regex :=
  Seq (Bol true) (Seq (between 2 6 (chr 35)) (plus true space)).

(** [/[\[\]]/g] *)
Definition bracketRe : regex := oneOf [91; 93].

(** [s.split(',')] and the like: the separator is one code unit. *)
Fixpoint splitOn (sep : Z) (s : jsstring) : list jsstring :=
  match s with
  | [] => [[]]
  | c :: t =>
      if c =? sep then [] :: splitOn sep t
      else match splitOn sep t with
           | x :: xs => (c :: x) :: xs
           | [] => [[c]]
           end
  end.

(** [m[1].split(',').map(c => c.trim().replace(/[\[\]]/g, ''))] *)
Definition listItems (s : jsstring) : list jsstring :=
  map (fun c => replaceAll bracketRe [] (trim c)) (splitOn 44 s).

Definition nonEmpty (name : jsstring) : bool := Nat.ltb 0 (length name).

(** The steps of the [try] block. [None] stands for a thrown exception:
    the only operations of the block that can throw are the method calls
    on [m[n]], which is [undefined] when group [n] took no part. *)
Definition headingOf (m : jsstring) : option (list heading) :=
  match exec (headingRe false) m with
  | None => Some []
  | Some levelMatch =>
      g1 ← group levelMatch 1;
      g2 ← group levelMatch 2;
      let text := trim g2 in
      Some [ {| level := Z.of_nat (length g1);
                text := text;
                description := text ++ str "に関する詳細な解説" |} ]
  end.

Definition titleOf (text : jsstring) : option jsstring :=
  match exec titleRe text with
  | Some titleMatch => trim <$> group titleMatch 1
  | None => Some (str "生成された記事")
  end.

Definition metaDescriptionOf (text : jsstring) : option jsstring :=
  match exec metaRe text with
  | Some metaMatch => trim <$> group metaMatch 1
  | None => Some []
  end.

(** The names of the category line or of the tag line. *)
Definition namesOf (re : regex) (text : jsstring) : option (list jsstring) :=
  match exec re text with
  | Some m => listItems <$> group m 1
  | None => Some []
  end.

Definition fullContentOf (text : jsstring) : option jsstring :=
  match exec contentRe text with
  | Some contentMatch => trim <$> group contentMatch 1
  | None => Some text
  end.

Definition headingsOf (fullContent : jsstring) : option (list heading) :=
  @concat heading <$> mapM headingOf (matchAll (headingRe true) fullContent).

(** [sections[0] ? sections[0].trim().substring(0, 300) : ''] *)
Definition introductionOf (sections : list jsstring) : jsstring :=
  match sections with
  | s0 :: _ => if truthy s0 then substring (trim s0) 0 (Some 300) else []
  | [] => []
  end.

(** [sections.length > 1 ? sections[sections.length - 1].trim().substring(-200) : ''] *)
Definition conclusionOf (sections : list jsstring) : jsstring :=
  if Nat.ltb 1 (length sections)
  then substring (trim (List.last sections [])) (-200) None
  else [].

Definition extract (text : jsstring) : option AISuggestion :=
  title ← titleOf text;
  metaDescription ← metaDescriptionOf text;
  categoryNames ← namesOf categoryRe text;
  tagNames ← namesOf tagRe text;
  fullContent ← fullContentOf text;
  headings ← headingsOf fullContent;
  let sections := split sectionRe fullContent in
  let introduction := introductionOf sections in
  let mainContent := fullContent in
  let conclusion := conclusionOf sections in
  Some {| titles := [title];
          categories := {| existing := []; new := List.filter nonEmpty categoryNames |};
          tags := {| existing := []; new := List.filter nonEmpty tagNames |};
          structure := {| headings := headings |};
          metaDescriptions := if truthy metaDescription then [metaDescription] else [];
          content := None;
          fullArticle := Some {| introduction := introduction;
                                 mainContent := mainContent;
                                 conclusion := conclusion |} |}.

(** The value returned from the [catch] block. *)
Definition fallback (text : jsstring) : AISuggestion :=
  {| titles := [str "エラー: 記事の解析に失敗しました"];
     categories := {| existing := []; new := [] |};
     tags := {| existing := []; new := [] |};
     structure := {| headings := [] |};
     metaDescriptions := [str "記事の解析に失敗しました。"];
     content := None;
     fullArticle := Some {| introduction := [];
                            mainContent := text;
                            conclusion := [] |} |}.

Definition parseMarkdownArticle (text : jsstring) : AISuggestion :=
  match extract text with
  | Some suggestion => suggestion
  | None => fallback text
  end.

(** The body text in the sense of the parser: what follows the first
    delimiter, trimmed, or the whole input. *)
Definition bodyOf (text : jsstring) : jsstring :=
  match exec contentRe text with
  | Some contentMatch => trim (default [] (group contentMatch 1))
  | None => text
  end.

(** An input holds a horizontal-rule delimiter when, anywhere in it,
    three hyphens are followed, after optional white space, by a line
    feed. *)
Definition hasDelimiter (text : jsstring) : Prop :=
  exists pre ws post,
    text = pre ++ str "---" ++ ws ++ 10 :: post /\ forallb isWhiteSpace ws = true.

(** What every consumer of a suggestion relies on: a primary title, an
    article, and headings of level 2 to 6 with a description. *)
Definition validHeading (h : heading) : Prop :=
  2 <= level h <= 6 /\ description h <> [].


(** The worked example of the specification; the meta description is a
    text of 150 code units. *)
Definition exampleMeta : jsstring := concat (replicate 15 (str "検索上位を狙う基本。")).

Definition exampleInput : jsstring :=
  str "# 初心者向けSEOガイド" ++ [10; 10] ++
  str "**メタディスクリプション:** " ++ exampleMeta ++ [10; 10] ++
  str "**推奨カテゴリー:** SEO, マーケティング" ++ [10] ++
  str "**推奨タグ:** SEO, 初心者, ガイド" ++ [10; 10] ++
  str "---" ++ [10; 10] ++
  str "## SEOとは" ++ [10] ++ str "説明文" ++ [10; 10] ++
  str "## 実践方法" ++ [10] ++ str "手順の説明".

End Parser.

(** ** ContentReconstructor: [contentFormatter.ts] *)

Module Formatter.
Import Parser.

(** The text of a number in a template literal; levels are integers. *)
Definition numberText (n : Z) : jsstring :=
  str (DecimalString.NilZero.string_of_int (Z.to_int n)).

(** [/\n\s*\n/] *)
Definition blankLineRe : regex := Seq (chr 10) (Seq (Star true space) (chr 10)).

(** [/\n/g] *)
Definition newlineRe : regex := chr 10.

(** [text.split(/\n\s*\n/).map(p => p.trim()).filter(p => p.length > 0)] *)
Definition paragraphsOf (text : jsstring) : list jsstring :=
  List.filter nonEmpty (map trim (split blankLineRe text)).

Definition wrapParagraph (paragraph : jsstring) : jsstring :=
  str "<p>" ++ replaceAll newlineRe (str "<br>") paragraph ++ str "</p>".

Definition formatTextToParagraphs (text : jsstring) : jsstring :=
  if truthy text
  then join [10; 10] (map wrapParagraph (paragraphsOf text))
  else [].

(** [arr.slice(start, end)] for indices that are not negative. *)
Definition slice {A} (l : list A) (s e : nat) : list A :=
  firstn (e - s) (skipn s l).

(** [Math.ceil(a / b)] for a count [a] and a positive count [b]; the
    quotient of two array lengths is far from the precision limit. *)
Definition ceilDiv (a b : nat) : nat := Nat.div (a + b - 1) b.

(** The group of paragraphs of section [i]. *)
Definition sectionParagraphs (paragraphs : list jsstring)
    (paragraphsPerSection i : nat) : list jsstring :=
  let startIndex := (i * paragraphsPerSection)%nat in
  let endIndex := Nat.min (startIndex + paragraphsPerSection) (length paragraphs) in
  slice paragraphs startIndex endIndex.

Definition splitContentByHeadings (mainContent : jsstring)
    (headings : list heading) : list jsstring :=
  let paragraphs := paragraphsOf mainContent in
  match paragraphs with
  | [] => []
  | _ =>
      let sectionsCount := length headings in
      let paragraphsPerSection := ceilDiv (length paragraphs) sectionsCount in
      map (fun i => join [10; 10] (sectionParagraphs paragraphs paragraphsPerSection i))
          (seq 0 sectionsCount)
  end.

(** The opening tag [<div class="NAME">]. *)
Definition divOpen (name : jsstring) : jsstring :=
  str "<div class=" ++ [34] ++ name ++ [34] ++ str ">".

Definition headingTag (h : heading) : jsstring :=
  str "<h" ++ numberText (level h) ++ str ">" ++ text h ++
  str "</h" ++ numberText (level h) ++ str ">" ++ [10].

(** The body of the [forEach] of [formatFullArticleToHTML] for the heading
    at [index]. *)
Definition sectionBody (contentSections : list jsstring) (index : nat)
    (h : heading) : jsstring :=
  match contentSections !! index with
  | Some section =>
      if truthy section then formatTextToParagraphs section
      else formatTextToParagraphs (description h)
  | None => formatTextToParagraphs (description h)
  end.

Definition sectionBlock (contentSections : list jsstring) (index : nat)
    (h : heading) : jsstring :=
  headingTag h ++ sectionBody contentSections index h ++ [10; 10].

Definition structuredMain (mainContent : jsstring) (hs : list heading) : jsstring :=
  let contentSections := splitContentByHeadings mainContent hs in
  divOpen (str "main-content") ++ [10] ++
  concat (imap (sectionBlock contentSections) hs) ++
  str "</div>" ++ [10; 10].

Definition introductionBlock (a : article) : jsstring :=
  if truthy (introduction a)
  then divOpen (str "introduction") ++ [10] ++
       formatTextToParagraphs (introduction a) ++ [10] ++ str "</div>" ++ [10; 10]
  else [].

Definition mainBlock (a : article) (hs : list heading) : jsstring :=
  if truthy (mainContent a)
  then match hs with
       | _ :: _ => structuredMain (mainContent a) hs
       | [] =>
           divOpen (str "main-content") ++ [10] ++
           formatTextToParagraphs (mainContent a) ++ [10] ++ str "</div>" ++ [10; 10]
       end
  else [].

Definition conclusionBlock (a : article) : jsstring :=
  if truthy (conclusion a)
  then divOpen (str "conclusion") ++ [10] ++
       formatTextToParagraphs (conclusion a) ++ [10] ++ str "</div>"
  else [].

Definition formatFullArticleToHTML (suggestion : AISuggestion) : jsstring :=
  match fullArticle suggestion with
  | None => []
  | Some a =>
      trim (introductionBlock a
            ++ mainBlock a (headings (structure suggestion))
            ++ conclusionBlock a)
  end.



(** A suggestion with four headings over three paragraphs. *)
Definition sampleHeading (name : string) : heading :=
  {| level := 2; text := str name; description := str name ++ str "に関する詳細な解説" |}.

Definition sampleArticle : article :=
  {| introduction := [];
     mainContent := str "one" ++ [10; 10] ++ str "two" ++ [10; 10] ++ str "three";
     conclusion := [] |}.


End Formatter.

(** ** SeoScorer: [seoMetrics.ts] *)

Module Seo.

Record headingCount := {
  h1 : Z; h2 : Z; h3 : Z; h4 : Z; h5 : Z; h6 : Z
}.

Record keyword := {
  term : jsstring;
  frequency : Z;
  density : float
}.

Record SEOAnalysisInput := {
  title : jsstring;
  content : jsstring;
  metaDescription : jsstring;
  keywords : option (list jsstring)
}.

(** The computed fields of [SEOMetrics]; [id] and [calculatedAt] are
    fresh values of the clock and the random generator. *)
Record SEOMetrics := {
  articleId : jsstring;
  titleLength : Z;
  metaDescriptionLength : Z;
  wordCount : Z;
  headingCountOf : headingCount;
  keywordsOf : list keyword;
  overallScore : float;
  titleScore : Z;
  metaDescriptionScore : Z;
  contentStructureScore : Z;
  keywordOptimizationScore : Z;
  recommendations : list jsstring
}.

Definition len (s : jsstring) : Z := Z.of_nat (length s).

(** [Math.min(Math.max(score, 0), 100)] *)
Definition clamp (score : Z) : Z := Z.min (Z.max score 0) 100.

(** [/<[^>]*>/g] and [/\s+/g] *)
Definition tagRe : regex := Seq (chr 60) (Seq (Star true (noneOf [62])) (chr 62)).
Definition spacesRe : regex := plus true space.

Definition extractPlainText (html : jsstring) : jsstring :=
  if truthy html
  then trim (replaceAll spacesRe [32] (replaceAll tagRe [32] html))
  else [].

(** [new RegExp(`<h${i}[^>]*>.*?</h${i}>`, 'gi')]: under the [i] flag the
    letter matches in either case. *)
Definition headingTagRe (i : Z) : regex :=
  Seq (chr 60) (Seq (oneOf [104; 72]) (Seq (lit (Formatter.numberText i))
    (Seq (Star true (noneOf [62])) (Seq (chr 62) (Seq (Star false dot)
      (Seq (lit (str "</")) (Seq (oneOf [104; 72])
        (Seq (lit (Formatter.numberText i)) (chr 62))))))))).

Definition countTag (html : jsstring) (i : Z) : Z :=
  Z.of_nat (length (matchAll (headingTagRe i) html)).

Definition countHeadings (html : jsstring) : headingCount :=
  if truthy html
  then {| h1 := countTag html 1; h2 := countTag html 2; h3 := countTag html 3;
          h4 := countTag html 4; h5 := countTag html 5; h6 := countTag html 6 |}
  else {| h1 := 0; h2 := 0; h3 := 0; h4 := 0; h5 := 0; h6 := 0 |}.

(** [Object.values(headingCount).reduce((sum, count) => sum + count, 0)] *)
Definition totalHeadings (hc : headingCount) : Z :=
  0 + h1 hc + h2 hc + h3 hc + h4 hc + h5 hc + h6 hc.

(** *** Keyword analysis *)

(** [/\b\w{2,}\b/g] *)
Definition wordRe : regex := Seq WordBoundary (Seq (atLeast 2 word) WordBoundary).

(** [wordCounts[word] = (wordCounts[word] || 0) + 1] on the table of
    counts, kept in the order in which the keys were created. The table
    is read as a map from words; the two words that name an inherited
    property of a plain object, [constructor] and [__proto__], are longer
    than two code units and are outside what is stated about the table. *)
Fixpoint bump (word : jsstring) (wordCounts : list (jsstring * Z)) : list (jsstring * Z) :=
  match wordCounts with
  | [] => [(word, 0 + 1)]
  | (w, n) :: rest =>
      if streq w word then (w, n + 1) :: rest else (w, n) :: bump word rest
  end.

Definition countWord (wordCounts : list (jsstring * Z)) (word : jsstring) : list (jsstring * Z) :=
  if Nat.leb 3 (length word) then bump word wordCounts else wordCounts.

(** [wordCounts[key]] *)
Definition lookupCount (wordCounts : list (jsstring * Z)) (key : jsstring) : option Z :=
  snd <$> List.find (fun e => streq (fst e) key) wordCounts.

(** The value of a key that is a canonical array index: such keys are
    enumerated first, in ascending order. *)
Definition decimalValue (k : jsstring) : Z :=
  fold_left (fun acc c => 10 * acc + (c - 48)) k 0.

Definition arrayIndex (k : jsstring) : option Z :=
  match k with
  | [] => None
  | c :: t =>
      if forallb isDigit k
           && ((c =? 48) && negb (truthy t) || negb (c =? 48))
           && (decimalValue k <? 4294967295)
      then Some (decimalValue k) else None
  end.

Fixpoint insertAscending (e : jsstring * Z) (v : Z) (l : list (jsstring * Z)) : list (jsstring * Z) :=
  match l with
  | [] => [e]
  | x :: rest =>
      if v <? default 0 (arrayIndex (fst x)) then e :: l
      else x :: insertAscending e v rest
  end.

(** [Object.entries(wordCounts)] *)
Definition entries (wordCounts : list (jsstring * Z)) : list (jsstring * Z) :=
  fold_right (fun e acc =>
      match arrayIndex (fst e) with Some v => insertAscending e v acc | None => acc end)
    [] wordCounts
  ++ List.filter (fun e => negb (bool_decide (is_Some (arrayIndex (fst e))))) wordCounts.

(** [.sort(([, a], [, b]) => b - a)]: the sort is stable. *)
Fixpoint insertByCount (e : jsstring * Z) (l : list (jsstring * Z)) : list (jsstring * Z) :=
  match l with
  | [] => [e]
  | x :: rest =>
      if snd e <? snd x then x :: insertByCount e rest else e :: l
  end.

Definition sortByCount (l : list (jsstring * Z)) : list (jsstring * Z) :=
  fold_right insertByCount [] l.

(** The density of a frequency among [totalWords] words:
    [totalWords > 0 ? (frequency / totalWords) * 100 : 0], then
    [Math.round(density * 100) / 100]. *)
Definition densityOf (frequency : Z) (totalWords : float) : float :=
  let density :=
    (if Num.gtb totalWords 0 then (Num.ofZ frequency / totalWords) * 100 else 0)%float in
  (Num.mathRound (density * 100) / 100)%float.

Section CaseMapping.

(** [String.prototype.toLowerCase], the case mapping of the platform. *)
Variable toLowerCase : jsstring -> jsstring.

Definition wordCountsOf (words : list jsstring) : list (jsstring * Z) :=
  fold_left countWord words [].

Definition targetEntry (wordCounts : list (jsstring * Z)) (totalWords : float)
    (kw : jsstring) : keyword :=
  let normalizedKeyword := toLowerCase kw in
  let frequency := default 0 (lookupCount wordCounts normalizedKeyword) in
  {| term := kw; frequency := frequency; density := densityOf frequency totalWords |}.

Definition topEntry (totalWords : float) (e : jsstring * Z) : keyword :=
  {| term := fst e; frequency := snd e; density := densityOf (snd e) totalWords |}.

Definition isTarget (targetKeywords : option (list jsstring)) (w : jsstring) : bool :=
  match targetKeywords with
  | Some tks => existsb (fun tk => streq (toLowerCase tk) w) tks
  | None => false
  end.

Definition analyzeKeywords (text : jsstring) (targetKeywords : option (list jsstring))
    : list keyword :=
  if truthy text then
    let plainText := toLowerCase text in
    let words := matchAll wordRe plainText in
    let totalWords := Num.ofZ (Z.of_nat (length words)) in
    let wordCounts := wordCountsOf words in
    let targets := map (targetEntry wordCounts totalWords) (default [] targetKeywords) in
    let topWords :=
      List.filter (fun e => negb (isTarget targetKeywords (fst e)))
        (firstn 10 (sortByCount (entries wordCounts))) in
    firstn 15 (targets ++ map (topEntry totalWords) topWords)
  else [].

End CaseMapping.

(** *** Scores *)

Definition testAny (words : list jsstring) (s : jsstring) : bool :=
  test (Group 1 (alts (map lit words))) s.

Definition calculateTitleScore (title : jsstring) : Z :=
  if truthy title then
    let length := len title in
    let score := 0 in
    let score :=
      if (30 <=? length) && (length <=? 60) then score + 40
      else if (20 <=? length) && (length <=? 80) then score + 25
      else score + 10 in
    let score := if test (plus true digit) title then score + 15 else score in
    let score := if testAny [str "方法"; str "やり方"; str "手順"; str "コツ"; str "秘訣"] title then score + 10 else score in
    let score := if testAny [str "まとめ"; str "一覧"; str "比較"; str "ランキング"] title then score + 10 else score in
    let score := if testAny [str "無料"; str "簡単"; str "効果的"; str "最新"; str "おすすめ"] title then score + 10 else score in
    let score := if testAny [str "？"; str "?"] title then score + 10 else score in
    let score := if testAny [str "！"; str "!"] title then score + 5 else score in
    let score := if 100 <? length then score - 20 else score in
    let score :=
      if includes title (str "...") || includes title (str "。。。") then score - 10 else score in
    clamp score
  else 0.

Definition calculateMetaDescriptionScore (metaDescription : jsstring) : Z :=
  if truthy metaDescription then
    let length := len metaDescription in
    let score := 0 in
    let score :=
      if (120 <=? length) && (length <=? 160) then score + 50
      else if (100 <=? length) && (length <=? 180) then score + 35
      else if (80 <=? length) && (length <=? 200) then score + 20
      else score + 5 in
    let score := if testAny [str "方法"; str "やり方"; str "解説"; str "紹介"; str "ポイント"] metaDescription then score + 15 else score in
    let score := if testAny [str "詳しく"; str "わかりやすく"; str "簡単に"; str "効果的"] metaDescription then score + 10 else score in
    let score := if testAny [str "無料"; str "おすすめ"; str "最新"; str "人気"] metaDescription then score + 10 else score in
    let score :=
      if includes metaDescription (str "。")
         && (2 <=? Z.of_nat (Datatypes.length (Parser.splitOn 12290 metaDescription)))
      then score + 10 else score in
    clamp score
  else 0.

(** [plainText.split(/\s+/).length] *)
Definition wordsIn (plainText : jsstring) : Z :=
  Z.of_nat (length (split spacesRe plainText)).

(** [content.split(/<\/p>/).length - 1] *)
Definition closedParagraphs (content : jsstring) : Z :=
  Z.of_nat (length (split (lit (str "</p>")) content)) - 1.

Definition calculateContentStructureScore (content : jsstring) (hc : headingCount) : Z :=
  if truthy content then
    let score := 0 in
    let plainText := extractPlainText content in
    let wordCount := wordsIn plainText in
    let score :=
      if (1000 <=? wordCount) && (wordCount <=? 3000) then score + 30
      else if (500 <=? wordCount) && (wordCount <=? 5000) then score + 20
      else if 300 <=? wordCount then score + 10
      else score in
    let totalHeadings := totalHeadings hc in
    let score :=
      if (3 <=? totalHeadings) && (totalHeadings <=? 10) then score + 25
      else if (1 <=? totalHeadings) && (totalHeadings <=? 15) then score + 15
      else score in
    let score :=
      if h1 hc =? 1 then score + 15
      else if h1 hc =? 0 then score + 5
      else score in
    let score :=
      if (2 <=? h2 hc) && (h2 hc <=? 8) then score + 15
      else if 1 <=? h2 hc then score + 10
      else score in
    let paragraphs := closedParagraphs content in
    let score :=
      if (3 <=? paragraphs) && (paragraphs <=? 20) then score + 15
      else if 1 <=? paragraphs then score + 10
      else score in
    clamp score
  else 0.

(** The points of one of the first five keywords. *)
Definition densityPoints (index : nat) (kw : keyword) : Z :=
  let idealDensity := match index with O => 2%float | _ => 1%float end in
  if Num.geb (density kw) (idealDensity * 0.5)%float
     && Num.leb (density kw) (idealDensity * 2)%float
  then 15
  else if Num.geb (density kw) (idealDensity * 0.2)%float
          && Num.leb (density kw) (idealDensity * 3)%float
  then 10
  else if Num.gtb (density kw) 0 then 5
  else 0.

Definition calculateKeywordOptimizationScore (keywords : list keyword) : Z :=
  match keywords with
  | [] => 0
  | _ =>
      let mainKeywords := firstn 5 keywords in
      let score := fold_left Z.add (imap densityPoints mainKeywords) 0 in
      let n := Z.of_nat (length keywords) in
      let score :=
        if 8 <=? n then score + 20
        else if 5 <=? n then score + 15
        else if 3 <=? n then score + 10
        else score in
      clamp score
  end.

Definition calculateOverallScore (titleScore metaDescriptionScore
    contentStructureScore keywordOptimizationScore : Z) : float :=
  let weightedScore :=
    (Num.ofZ titleScore * 0.25 +
     Num.ofZ metaDescriptionScore * 0.2 +
     Num.ofZ contentStructureScore * 0.35 +
     Num.ofZ keywordOptimizationScore * 0.2)%float in
  Num.mathRound weightedScore.

Record scores := {
  s_titleScore : Z;
  s_metaDescriptionScore : Z;
  s_contentStructureScore : Z;
  s_keywordOptimizationScore : Z
}.

Definition pushIf (cond : bool) (msg : string) (recs : list jsstring) : list jsstring :=
  if cond then recs ++ [str msg] else recs.

Definition generateRecommendations (input : SEOAnalysisInput) (sc : scores)
    : list jsstring :=
  let recs := [] in
  let recs :=
    if s_titleScore sc <? 50 then
      let recs := pushIf (len (title input) <? 30)
        "タイトルをもう少し詳しく（30文字以上）してください" recs in
      let recs := pushIf (80 <? len (title input))
        "タイトルを80文字以内に短縮してください" recs in
      pushIf (negb (test (plus true digit) (title input)))
        "タイトルに具体的な数字を含めることを検討してください" recs
    else recs in
  let recs :=
    if s_metaDescriptionScore sc <? 50 then
      let recs := pushIf (len (metaDescription input) <? 120)
        "メタディスクリプションをより詳しく（120文字以上）してください" recs in
      let recs := pushIf (180 <? len (metaDescription input))
        "メタディスクリプションを180文字以内に短縮してください" recs in
      pushIf (negb (truthy (metaDescription input)))
        "メタディスクリプションを設定してください" recs
    else recs in
  let recs :=
    if s_contentStructureScore sc <? 50 then
      let plainText := extractPlainText (content input) in
      let wordCount := wordsIn plainText in
      let recs := pushIf (wordCount <? 500)
        "記事の文字数を増やしてください（500文字以上推奨）" recs in
      let hc := countHeadings (content input) in
      let recs := pushIf (totalHeadings hc <? 3)
        "見出し（H2、H3タグ）を追加して記事を構造化してください" recs in
      pushIf (h1 hc =? 0)
        "メインタイトル（H1タグ）を設定してください" recs
    else recs in
  if s_keywordOptimizationScore sc <? 50 then
    let recs := pushIf true "重要なキーワードを適切な頻度で使用してください" recs in
    pushIf true "関連キーワードを記事に含めてキーワードの多様性を高めてください" recs
  else recs.

Section Analysis.

Variable toLowerCase : jsstring -> jsstring.

Definition analyzeSEO (articleId : jsstring) (input : SEOAnalysisInput) : SEOMetrics :=
  let plainText := extractPlainText (content input) in
  let headingCount := countHeadings (content input) in
  let keywords := analyzeKeywords toLowerCase plainText (keywords input) in
  let titleScore := calculateTitleScore (title input) in
  let metaDescriptionScore := calculateMetaDescriptionScore (metaDescription input) in
  let contentStructureScore := calculateContentStructureScore (content input) headingCount in
  let keywordOptimizationScore := calculateKeywordOptimizationScore keywords in
  let overallScore :=
    calculateOverallScore titleScore metaDescriptionScore
      contentStructureScore keywordOptimizationScore in
  let recommendations :=
    generateRecommendations input
      {| s_titleScore := titleScore;
         s_metaDescriptionScore := metaDescriptionScore;
         s_contentStructureScore := contentStructureScore;
         s_keywordOptimizationScore := keywordOptimizationScore |} in
  {| articleId := articleId;
     titleLength := len (title input);
     metaDescriptionLength := len (metaDescription input);
     wordCount := wordsIn plainText;
     headingCountOf := headingCount;
     keywordsOf := keywords;
     overallScore := overallScore;
     titleScore := titleScore;
     metaDescriptionScore := metaDescriptionScore;
     contentStructureScore := contentStructureScore;
     keywordOptimizationScore := keywordOptimizationScore;
     recommendations := recommendations |}.

End Analysis.

(** Every key of the table of counts has three code units or more. *)
Definition longKeys (wordCounts : list (jsstring * Z)) : Prop :=
  Forall (fun e => (3 <= length (fst e))%nat) wordCounts.

(** The values a sub-score can take: the multiples of 5 from 0 to 100. *)
Definition scoreValue (z : Z) : Prop := 0 <= z <= 100 /\ z mod 5 = 0.

Definition scoreValues : list Z := map (fun i => 5 * Z.of_nat i) (seq 0 21).

(** The overall score of four sub-scores is the number of an integer from
    0 to 100: the test, and the test on every combination of values. *)
Definition overallInRange (t m c k : Z) : bool :=
  let r := calculateOverallScore t m c k in
  let n := Num.truncate r in
  (0 <=? n) && (n <=? 100) && Num.isInteger r n.

Definition forall4 (P : Z -> Z -> Z -> Z -> bool) (l : list Z) : bool :=
  forallb (fun t => forallb (fun m => forallb (fun c => forallb (fun k =>
    P t m c k) l) l) l) l.

(** The case mapping on the letters A to Z, where every case mapping
    agrees. *)
Definition asciiLower (s : jsstring) : jsstring :=
  map (fun c => if (65 <=? c) && (c <=? 90) then c + 32 else c) s.

End Seo.

(** ** HistoryStore: [promptHistory.ts] *)

Module History.

Inductive articleStatus := draft | ready_to_publish | published.

Record resultingArticle := {
  articleId : jsstring;
  title : jsstring;
  status : articleStatus;
  createdAt : jsstring
}.

Record fileInfoT := {
  filename : jsstring;
  fileSize : Z;
  f_wordCount : Z
}.

(** The argument of [addPromptHistory]. *)
Record promptData := {
  d_originalPrompt : jsstring;
  d_userInput : jsstring;
  d_fileInfo : option fileInfoT;
  d_modelUsed : jsstring;
  d_temperature : option float;
  d_maxTokens : option Z;
  d_suggestion : Parser.AISuggestion;
  d_processingTime : option Z;
  d_tokensUsed : Z;
  d_estimatedCost : float;
  d_siteId : jsstring;
  d_userId : option jsstring
}.

(** A stored record. [generatedAt] is written as the ISO text of an
    instant and read back as that instant, in milliseconds. *)
Record PromptHistory := {
  id : jsstring;
  originalPrompt : jsstring;
  userInput : jsstring;
  fileInfo : option fileInfoT;
  modelUsed : jsstring;
  temperature : option float;
  maxTokens : option Z;
  suggestion : Parser.AISuggestion;
  generatedAt : Z;
  processingTime : option Z;
  resultingArticles : list resultingArticle;
  seoMetrics : option Seo.SEOMetrics;
  userRating : option Z;
  userNotes : option jsstring;
  tokensUsed : Z;
  estimatedCost : float;
  siteId : jsstring;
  userId : option jsstring
}.

(** The state of the module: the stored item of [localStorage] (absent,
    or the list it parses to) and the two variables of the duplicate
    cache. Writing the item succeeds: a storage that refuses the write
    is outside the model. *)
Record store := {
  stored : option (list PromptHistory);
  lastPromptHistoryId : option jsstring;
  lastPromptTimestamp : Z
}.

(** The module as loaded, over a given storage. *)
Definition load (stored : option (list PromptHistory)) : store :=
  {| stored := stored; lastPromptHistoryId := None; lastPromptTimestamp := 0 |}.

Definition getPromptHistory (st : store) : list PromptHistory :=
  default [] (stored st).

Definition savePromptHistory (history : list PromptHistory) (st : store) : store :=
  {| stored := Some history;
     lastPromptHistoryId := lastPromptHistoryId st;
     lastPromptTimestamp := lastPromptTimestamp st |}.

Definition remember (i : jsstring) (now : Z) (st : store) : store :=
  {| stored := stored st;
     lastPromptHistoryId := Some i;
     lastPromptTimestamp := now |}.

(** The predicate of the second search of [addPromptHistory]. *)
Definition sameRecent (now : Z) (data : promptData) (item : PromptHistory) : bool :=
  streq (originalPrompt item) (d_originalPrompt data)
  && streq (siteId item) (d_siteId data)
  && streq (modelUsed item) (d_modelUsed data)
  && (now - generatedAt item <? 30000).

Definition newRecord (newId : jsstring) (createdNow : Z) (data : promptData) : PromptHistory :=
  {| id := newId;
     originalPrompt := d_originalPrompt data;
     userInput := d_userInput data;
     fileInfo := d_fileInfo data;
     modelUsed := d_modelUsed data;
     temperature := d_temperature data;
     maxTokens := d_maxTokens data;
     suggestion := d_suggestion data;
     generatedAt := createdNow;
     processingTime := d_processingTime data;
     resultingArticles := [];
     seoMetrics := None;
     userRating := None;
     userNotes := None;
     tokensUsed := d_tokensUsed data;
     estimatedCost := d_estimatedCost data;
     siteId := d_siteId data;
     userId := d_userId data |}.

(** The record served from the cache of the last addition, if any. *)
Definition cachedRecord (now : Z) (st : store) : option PromptHistory :=
  let isDuplicate :=
    (0 <? lastPromptTimestamp st) && (now - lastPromptTimestamp st <? 5000) in
  match lastPromptHistoryId st with
  | Some lastId =>
      if isDuplicate && truthy lastId
      then List.find (fun item => streq (id item) lastId) (getPromptHistory st)
      else None
  | None => None
  end.

(** [addPromptHistory(data)]. [now] is the reading of the clock at entry;
    [newId] is the identifier generated for a new record and
    [createdNow] the later reading of the clock written into it. *)
Definition addPromptHistory (now : Z) (newId : jsstring) (createdNow : Z)
    (data : promptData) (st : store) : PromptHistory * store :=
  match cachedRecord now st with
  | Some existing => (existing, st)
  | None =>
      let history := getPromptHistory st in
      match List.find (sameRecent now data) history with
      | Some recentDuplicate =>
          (recentDuplicate, remember (id recentDuplicate) now st)
      | None =>
          let newHistory := newRecord newId createdNow data in
          let st := savePromptHistory (newHistory :: history) st in
          (newHistory, remember (id newHistory) now st)
      end
  end.

(** [history.findIndex(item => item.id === promptId)] *)
Fixpoint findIndex (promptId : jsstring) (history : list PromptHistory) : option nat :=
  match history with
  | [] => None
  | item :: rest =>
      if streq (id item) promptId then Some O
      else S <$> findIndex promptId rest
  end.

Definition hasArticle (item : PromptHistory) (article : resultingArticle) : bool :=
  existsb (fun existing => streq (articleId existing) (articleId article))
    (resultingArticles item).

(** [item.resultingArticles.push(article)] *)
Definition pushArticle (article : resultingArticle) (item : PromptHistory) : PromptHistory :=
  {| id := id item;
     originalPrompt := originalPrompt item;
     userInput := userInput item;
     fileInfo := fileInfo item;
     modelUsed := modelUsed item;
     temperature := temperature item;
     maxTokens := maxTokens item;
     suggestion := suggestion item;
     generatedAt := generatedAt item;
     processingTime := processingTime item;
     resultingArticles := resultingArticles item ++ [article];
     seoMetrics := seoMetrics item;
     userRating := userRating item;
     userNotes := userNotes item;
     tokensUsed := tokensUsed item;
     estimatedCost := estimatedCost item;
     siteId := siteId item;
     userId := userId item |}.

(** [addResultingArticle(promptId, article)] *)
Definition addResultingArticle (promptId : jsstring) (article : resultingArticle)
    (st : store) : bool * store :=
  let history := getPromptHistory st in
  match findIndex promptId history with
  | None => (false, st)
  | Some index =>
      match history !! index with
      | Some item =>
          if hasArticle item article then (true, st)
          else (true, savePromptHistory (<[index := pushArticle article item]> history) st)
      | None => (false, st)
      end
  end.

(** A sequence of calls of [addResultingArticle]. *)
Definition linkAll (calls : list (jsstring * resultingArticle)) (st : store) : store :=
  fold_left (fun st call => snd (addResultingArticle (fst call) (snd call) st)) calls st.

(** No record lists an article identifier twice. *)
Definition articleIds (item : PromptHistory) : list jsstring :=
  map articleId (resultingArticles item).

Definition articlesDistinct (st : store) : Prop :=
  Forall (fun item => NoDup (articleIds item)) (getPromptHistory st).

(** One call on the store, for sequences of calls. *)
Inductive op :=
| Add (now : Z) (newId : jsstring) (createdNow : Z) (data : promptData)
| Link (promptId : jsstring) (article : resultingArticle).

Definition step (st : store) (o : op) : store :=
  match o with
  | Add now newId createdNow data => snd (addPromptHistory now newId createdNow data st)
  | Link promptId article => snd (addResultingArticle promptId article st)
  end.

Definition runOps (ops : list op) (st : store) : store := fold_left step ops st.


Definition size (st : store) : nat := length (getPromptHistory st).

(** Sample data: a request with a given prompt, and an article link. *)
Definition emptySuggestion : Parser.AISuggestion :=
  Parser.parseMarkdownArticle [].

Definition sampleData (prompt : jsstring) : promptData :=
  {| d_originalPrompt := prompt;
     d_userInput := prompt;
     d_fileInfo := None;
     d_modelUsed := str "gemini-2.5-pro";
     d_temperature := None;
     d_maxTokens := None;
     d_suggestion := emptySuggestion;
     d_processingTime := None;
     d_tokensUsed := 1200;
     d_estimatedCost := 0%float;
     d_siteId := str "site-1";
     d_userId := None |}.

Definition sampleArticle (i : jsstring) : resultingArticle :=
  {| articleId := i; title := str "draft"; status := draft;
     createdAt := str "2023-11-14T22:13:20.000Z" |}.

End History.

(** ** HistoryStore: updates, removal and queries *)

Module HistoryOps.
Import History.

(** [Partial<PromptHistory>]: the keys an update carries, [None] for a key
    it does not carry. For an optional field the value carried may be
    [undefined], which leaves the record without the field once it is
    written. *)
Record updates := {
  u_id : option jsstring;
  u_originalPrompt : option jsstring;
  u_userInput : option jsstring;
  u_fileInfo : option (option fileInfoT);
  u_modelUsed : option jsstring;
  u_temperature : option (option float);
  u_maxTokens : option (option Z);
  u_suggestion : option Parser.AISuggestion;
  u_generatedAt : option Z;
  u_processingTime : option (option Z);
  u_resultingArticles : option (list resultingArticle);
  u_seoMetrics : option (option Seo.SEOMetrics);
  u_userRating : option (option Z);
  u_userNotes : option (option jsstring);
  u_tokensUsed : option Z;
  u_estimatedCost : option float;
  u_siteId : option jsstring;
  u_userId : option (option jsstring)
}.

(** [{ ...item, ...updates }] *)
Definition merge (item : PromptHistory) (u : updates) : PromptHistory :=
  {| id := default (id item) (u_id u);
     originalPrompt := default (originalPrompt item) (u_originalPrompt u);
     userInput := default (userInput item) (u_userInput u);
     fileInfo := default (fileInfo item) (u_fileInfo u);
     modelUsed := default (modelUsed item) (u_modelUsed u);
     temperature := default (temperature item) (u_temperature u);
     maxTokens := default (maxTokens item) (u_maxTokens u);
     suggestion := default (suggestion item) (u_suggestion u);
     generatedAt := default (generatedAt item) (u_generatedAt u);
     processingTime := default (processingTime item) (u_processingTime u);
     resultingArticles := default (resultingArticles item) (u_resultingArticles u);
     seoMetrics := default (seoMetrics item) (u_seoMetrics u);
     userRating := default (userRating item) (u_userRating u);
     userNotes := default (userNotes item) (u_userNotes u);
     tokensUsed := default (tokensUsed item) (u_tokensUsed u);
     estimatedCost := default (estimatedCost item) (u_estimatedCost u);
     siteId := default (siteId item) (u_siteId u);
     userId := default (userId item) (u_userId u) |}.

(** [history.find(item => item.id === promptId)] *)
Definition findById (promptId : jsstring) (history : list PromptHistory)
    : option PromptHistory :=
  List.find (fun item => streq (id item) promptId) history.

(** [updatePromptHistory(id, updates)] *)
Definition updatePromptHistory (i : jsstring) (u : updates) (st : store) : bool * store :=
  let history := getPromptHistory st in
  match findIndex i history with
  | None => (false, st)
  | Some index =>
      match history !! index with
      | Some item => (true, savePromptHistory (<[index := merge item u]> history) st)
      | None => (false, st)
      end
  end.

(** [deletePromptHistory(id)] *)
Definition deletePromptHistory (i : jsstring) (st : store) : bool * store :=
  let history := getPromptHistory st in
  let filtered := List.filter (fun item => negb (streq (id item) i)) history in
  if Nat.eqb (length filtered) (length history) then (false, st)
  else (true, savePromptHistory filtered st).

(** The object literal [{ seoMetrics }]. *)
Definition seoMetricsUpdate (m : Seo.SEOMetrics) : updates :=
  {| u_id := None; u_originalPrompt := None; u_userInput := None;
     u_fileInfo := None; u_modelUsed := None; u_temperature := None;
     u_maxTokens := None; u_suggestion := None; u_generatedAt := None;
     u_processingTime := None; u_resultingArticles := None;
     u_seoMetrics := Some (Some m);
     u_userRating := None; u_userNotes := None; u_tokensUsed := None;
     u_estimatedCost := None; u_siteId := None; u_userId := None |}.

(** The object literal [{ userRating: rating, userNotes: notes }]; the key
    [userNotes] is carried also when [notes] is omitted. *)
Definition ratingUpdate (rating : Z) (notes : option jsstring) : updates :=
  {| u_id := None; u_originalPrompt := None; u_userInput := None;
     u_fileInfo := None; u_modelUsed := None; u_temperature := None;
     u_maxTokens := None; u_suggestion := None; u_generatedAt := None;
     u_processingTime := None; u_resultingArticles := None;
     u_seoMetrics := None;
     u_userRating := Some (Some rating); u_userNotes := Some notes;
     u_tokensUsed := None;
     u_estimatedCost := None; u_siteId := None; u_userId := None |}.

Definition addSEOMetricsToHistory (promptId : jsstring) (m : Seo.SEOMetrics)
    (st : store) : bool * store :=
  updatePromptHistory promptId (seoMetricsUpdate m) st.

Definition addUserRating (promptId : jsstring) (rating : Z) (notes : option jsstring)
    (st : store) : bool * store :=
  updatePromptHistory promptId (ratingUpdate rating notes) st.

(** *** [filterPromptHistory] *)

(** The two ends of a date range, as the instants their texts denote;
    [None] for a text that denotes no date. *)
Record dateRangeT := {
  from : option Z;
  to : option Z
}.

Record PromptHistoryFilter := {
  f_dateRange : option dateRangeT;
  f_siteId : option jsstring;
  f_modelUsed : option jsstring;
  f_minSeoScore : option float;
  f_maxSeoScore : option float;
  f_hasArticles : option bool;
  f_userRating : option Z
}.

(** The default argument [{}]. *)
Definition noFilter : PromptHistoryFilter :=
  {| f_dateRange := None; f_siteId := None; f_modelUsed := None;
     f_minSeoScore := None; f_maxSeoScore := None;
     f_hasArticles := None; f_userRating := None |}.

(** Truthiness of an optional string. *)
Definition given (s : option jsstring) : bool :=
  match s with Some s => truthy s | None => false end.

(** [itemDate >= fromDate && itemDate <= toDate]; a comparison with an
    invalid date is false. *)
Definition inDateRange (r : dateRangeT) (item : PromptHistory) : bool :=
  match from r, to r with
  | Some fromDate, Some toDate =>
      (fromDate <=? generatedAt item) && (generatedAt item <=? toDate)
  | _, _ => false
  end.

Definition inScoreRange (lo hi : option float) (item : PromptHistory) : bool :=
  match seoMetrics item with
  | None => false
  | Some m =>
      let score := Seo.overallScore m in
      let valid := true in
      let valid := match lo with Some lo => valid && Num.geb score lo | None => valid end in
      let valid := match hi with Some hi => valid && Num.leb score hi | None => valid end in
      valid
  end.

Definition articlesMatch (wanted : bool) (item : PromptHistory) : bool :=
  let hasArticles := Nat.ltb 0 (length (resultingArticles item)) in
  if wanted then hasArticles else negb hasArticles.

Definition onSite (s : jsstring) (item : PromptHistory) : bool := streq (siteId item) s.
Definition byModel (m : jsstring) (item : PromptHistory) : bool := streq (modelUsed item) m.
Definition ratedAs (r : Z) (item : PromptHistory) : bool :=
  bool_decide (userRating item = Some r).

Definition filterPromptHistory (filter : PromptHistoryFilter) (st : store)
    : list PromptHistory :=
  let history := getPromptHistory st in
  let history :=
    match f_dateRange filter with
    | Some r => List.filter (inDateRange r) history
    | None => history
    end in
  let history :=
    if given (f_siteId filter)
    then List.filter (onSite (default [] (f_siteId filter))) history
    else history in
  let history :=
    if given (f_modelUsed filter)
    then List.filter (byModel (default [] (f_modelUsed filter))) history
    else history in
  let history :=
    if bool_decide (is_Some (f_minSeoScore filter))
       || bool_decide (is_Some (f_maxSeoScore filter))
    then List.filter (inScoreRange (f_minSeoScore filter) (f_maxSeoScore filter)) history
    else history in
  let history :=
    match f_hasArticles filter with
    | Some wanted => List.filter (articlesMatch wanted) history
    | None => history
    end in
  let history :=
    match f_userRating filter with
    | Some r => List.filter (ratedAs r) history
    | None => history
    end in
  history.

(** The tests of a filter on one record, together. *)
Definition accepts (filter : PromptHistoryFilter) (item : PromptHistory) : bool :=
  match f_dateRange filter with Some r => inDateRange r item | None => true end
  && (if given (f_siteId filter) then onSite (default [] (f_siteId filter)) item else true)
  && (if given (f_modelUsed filter) then byModel (default [] (f_modelUsed filter)) item else true)
  && (if bool_decide (is_Some (f_minSeoScore filter))
         || bool_decide (is_Some (f_maxSeoScore filter))
      then inScoreRange (f_minSeoScore filter) (f_maxSeoScore filter) item else true)
  && match f_hasArticles filter with Some wanted => articlesMatch wanted item | None => true end
  && match f_userRating filter with Some r => ratedAs r item | None => true end.

Definition getPromptHistoryByDateRange (startDate endDate : option Z)
    (siteId : option jsstring) (st : store) : list PromptHistory :=
  filterPromptHistory
    {| f_dateRange := Some {| from := startDate; to := endDate |};
       f_siteId := siteId; f_modelUsed := None;
       f_minSeoScore := None; f_maxSeoScore := None;
       f_hasArticles := None; f_userRating := None |} st.

(** The filter of a site, when given, for the records with or without
    articles. *)
Definition withArticles (siteId : option jsstring) (wanted : bool) : PromptHistoryFilter :=
  {| f_dateRange := None; f_siteId := siteId; f_modelUsed := None;
     f_minSeoScore := None; f_maxSeoScore := None;
     f_hasArticles := Some wanted; f_userRating := None |}.

(** *** Rankings *)

(** Earlier entries have keys at least as large as later ones. *)
Definition descending {A} (key : A -> Z) (l : list A) : Prop :=
  forall i j a b, (i < j)%nat -> l !! i = Some a -> l !! j = Some b -> key b <= key a.

(** [arr.sort((a, b) => key(b) - key(a))]: the sort is stable. *)
Fixpoint insertDesc {A} (key : A -> Z) (e : A) (l : list A) : list A :=
  match l with
  | [] => [e]
  | x :: rest => if key e <? key x then x :: insertDesc key e rest else e :: l
  end.

Definition sortDesc {A} (key : A -> Z) (l : list A) : list A :=
  fold_right (insertDesc key) [] l.

(** [arr.slice(0, limit)] for an integer [limit]: a negative one counts
    from the end. *)
Definition sliceTo {A} (l : list A) (limit : Z) : list A :=
  if limit <? 0 then firstn (Z.to_nat (Z.of_nat (length l) + limit)) l
  else firstn (Z.to_nat limit) l.

(** The history of a site, or the whole history without a site. *)
Definition historyOf (siteId : option jsstring) (st : store) : list PromptHistory :=
  if given siteId
  then List.filter (onSite (default [] siteId)) (getPromptHistory st)
  else getPromptHistory st.

(** [b.userRating || 0] *)
Definition ratingKey (item : PromptHistory) : Z := default 0 (userRating item).

Definition articleCount (item : PromptHistory) : Z :=
  Z.of_nat (length (resultingArticles item)).

Definition isRated (item : PromptHistory) : bool :=
  bool_decide (is_Some (userRating item)).

Definition getTopRatedPromptHistory (limit : option Z) (siteId : option jsstring)
    (st : store) : list PromptHistory :=
  let limit := default 10 limit in
  sliceTo (sortDesc ratingKey (List.filter isRated (historyOf siteId st))) limit.

Definition getMostSuccessfulPromptHistory (limit : option Z) (siteId : option jsstring)
    (st : store) : list PromptHistory :=
  let limit := default 10 limit in
  sliceTo (sortDesc articleCount (historyOf siteId st)) limit.

(** *** [calculatePromptHistoryStats] *)

(** [table[key] = f(table[key] || init)] on a table of records, kept in
    the order in which the keys were created. As for the table of word
    counts, the names a plain object inherits are not keys. *)
Fixpoint upsert {A} (key : jsstring) (init : A) (f : A -> A)
    (table : list (jsstring * A)) : list (jsstring * A) :=
  match table with
  | [] => [(key, f init)]
  | (k, v) :: rest =>
      if streq k key then (k, f v) :: rest else (k, v) :: upsert key init f rest
  end.

(** The table a [forEach] builds from the records: each record updates
    the entry of its key. *)
Definition tableOf {A X} (init : A) (key : X -> jsstring) (f : X -> A -> A)
    (l : list X) : list (jsstring * A) :=
  fold_left (fun table x => upsert (key x) init (f x) table) l [].

(** The records of one key, folded in order from [init]. *)
Definition valueOf {A X} (init : A) (key : X -> jsstring) (f : X -> A -> A)
    (k : jsstring) (l : list X) : A :=
  fold_left (fun acc x => f x acc) (List.filter (fun x => streq (key x) k) l) init.

(** The running sums kept per model; the integer sums are far below the
    precision limit of a number. *)
Record modelSums := {
  s_usage : Z;
  s_totalProcessingTime : Z;
  s_totalCost : float;
  s_totalSeoScore : float;
  s_seoCount : Z
}.

Definition noSums : modelSums :=
  {| s_usage := 0; s_totalProcessingTime := 0; s_totalCost := 0%float;
     s_totalSeoScore := 0%float; s_seoCount := 0 |}.

(** The body of the first [forEach]; a processing time of zero is
    skipped like a missing one. *)
Definition addToModel (item : PromptHistory) (s : modelSums) : modelSums :=
  {| s_usage := s_usage s + 1;
     s_totalProcessingTime :=
       match processingTime item with
       | Some t => if t =? 0 then s_totalProcessingTime s else s_totalProcessingTime s + t
       | None => s_totalProcessingTime s
       end;
     s_totalCost := (s_totalCost s + estimatedCost item)%float;
     s_totalSeoScore :=
       match seoMetrics item with
       | Some m => (s_totalSeoScore s + Seo.overallScore m)%float
       | None => s_totalSeoScore s
       end;
     s_seoCount :=
       match seoMetrics item with
       | Some _ => s_seoCount s + 1
       | None => s_seoCount s
       end |}.

Record modelStat := {
  usage : Z;
  averageProcessingTime : float;
  averageCost : float;
  averageSeoScore : float
}.

(** The body of the second [forEach]. *)
Definition averages (s : modelSums) : modelStat :=
  {| usage := s_usage s;
     averageProcessingTime :=
       if 0 <? s_usage s
       then (Num.ofZ (s_totalProcessingTime s) / Num.ofZ (s_usage s))%float else 0%float;
     averageCost :=
       if 0 <? s_usage s then (s_totalCost s / Num.ofZ (s_usage s))%float else 0%float;
     averageSeoScore :=
       if 0 <? s_seoCount s
       then (s_totalSeoScore s / Num.ofZ (s_seoCount s))%float else 0%float |}.

Record monthStat := {
  promptCount : Z;
  articlesCreated : Z;
  m_tokensUsed : Z;
  cost : float
}.

Definition noMonth : monthStat :=
  {| promptCount := 0; articlesCreated := 0; m_tokensUsed := 0; cost := 0%float |}.

Definition addToMonth (item : PromptHistory) (s : monthStat) : monthStat :=
  {| promptCount := promptCount s + 1;
     articlesCreated := articlesCreated s + articleCount item;
     m_tokensUsed := m_tokensUsed s + tokensUsed item;
     cost := (cost s + estimatedCost item)%float |}.

Record PromptHistoryStats := {
  totalPrompts : Z;
  successfulPrompts : Z;
  st_averageSeoScore : float;
  averageWordCount : float;
  totalArticlesCreated : Z;
  totalTokensUsed : Z;
  totalCost : float;
  modelStats : list (jsstring * modelStat);
  monthlyStats : list (jsstring * monthStat)
}.

Definition hasArticles (item : PromptHistory) : bool :=
  Nat.ltb 0 (length (resultingArticles item)).

Definition hasSeo (item : PromptHistory) : bool :=
  bool_decide (is_Some (seoMetrics item)).

(** The length of the text of the three parts joined by single spaces;
    a record without an article adds nothing. *)
Definition fullTextLength (item : PromptHistory) : Z :=
  match Parser.fullArticle (suggestion item) with
  | None => 0
  | Some content0 =>
      Seo.len (Parser.introduction content0 ++ [32] ++
               Parser.mainContent content0 ++ [32] ++
               Parser.conclusion content0)
  end.

Section Stats.

(** The key of the month of an instant, [YYYY-MM] in the time zone of the
    platform. *)
Variable monthKey : Z -> jsstring.

Definition calculatePromptHistoryStats (siteId : option jsstring) (st : store)
    : PromptHistoryStats :=
  let history := historyOf siteId st in
  let totalPrompts := Z.of_nat (length history) in
  let successfulPrompts := Z.of_nat (length (List.filter hasArticles history)) in
  let historyWithSEO := List.filter hasSeo history in
  let averageSeoScore :=
    if Nat.ltb 0 (length historyWithSEO)
    then (fold_left (fun sum item =>
            match seoMetrics item with
            | Some m => (sum + Seo.overallScore m)%float
            | None => sum
            end) historyWithSEO 0%float
          / Num.ofZ (Z.of_nat (length historyWithSEO)))%float
    else 0%float in
  let totalLength := fold_left (fun sum item => sum + fullTextLength item) history 0 in
  let averageWordCount :=
    if Nat.ltb 0 (length history)
    then (Num.ofZ totalLength / Num.ofZ (Z.of_nat (length history)))%float
    else 0%float in
  let totalArticlesCreated :=
    fold_left (fun sum item => sum + articleCount item) history 0 in
  let totalTokensUsed := fold_left (fun sum item => sum + tokensUsed item) history 0 in
  let totalCost :=
    fold_left (fun sum item => (sum + estimatedCost item)%float) history 0%float in
  let modelSumsOf := tableOf noSums modelUsed addToModel history in
  let modelStats := map (fun e => (fst e, averages (snd e))) modelSumsOf in
  let monthlyStats :=
    tableOf noMonth (fun item => monthKey (generatedAt item)) addToMonth history in
  {| totalPrompts := totalPrompts;
     successfulPrompts := successfulPrompts;
     st_averageSeoScore := Num.mathRound averageSeoScore;
     averageWordCount := Num.mathRound averageWordCount;
     totalArticlesCreated := totalArticlesCreated;
     totalTokensUsed := totalTokensUsed;
     totalCost := totalCost;
     modelStats := modelStats;
     monthlyStats := monthlyStats |}.

End Stats.

(** *** [linkArticleToPromptHistory] *)

Inductive draftStatus := is_draft | is_ready_to_publish.

Definition statusOf (s : draftStatus) : articleStatus :=
  match s with is_draft => draft | is_ready_to_publish => ready_to_publish end.

(** The fields of [DraftArticle] the store reads. *)
Record DraftArticle := {
  dr_id : jsstring;
  dr_title : jsstring;
  dr_metaDescription : jsstring;
  dr_createdAt : jsstring;
  dr_status : draftStatus;
  dr_aiSuggestionId : option jsstring;
  dr_wordCount : option Z;
  dr_seoScore : option float;
  dr_keywords : option (list jsstring)
}.

(** Truthiness of a number: neither zero nor NaN. *)
Definition truthyNumber (x : float) : bool :=
  negb (PrimFloat.eqb x 0) && negb (PrimFloat.is_nan x).

(** The metrics built from a draft; [id] and [calculatedAt] are fresh
    values, as for [analyzeSEO]. *)
Definition draftMetrics (d : DraftArticle) (score : float) (kws : list jsstring)
    : Seo.SEOMetrics :=
  {| Seo.articleId := dr_id d;
     Seo.titleLength := Seo.len (dr_title d);
     Seo.metaDescriptionLength := Seo.len (dr_metaDescription d);
     Seo.wordCount := default 0 (dr_wordCount d);
     Seo.headingCountOf :=
       {| Seo.h1 := 0; Seo.h2 := 0; Seo.h3 := 0; Seo.h4 := 0; Seo.h5 := 0; Seo.h6 := 0 |};
     Seo.keywordsOf :=
       map (fun term => {| Seo.term := term; Seo.frequency := 1; Seo.density := 0.1%float |}) kws;
     Seo.overallScore := score;
     Seo.titleScore := 0;
     Seo.metaDescriptionScore := 0;
     Seo.contentStructureScore := 0;
     Seo.keywordOptimizationScore := 0;
     Seo.recommendations := [] |}.

Definition draftArticle (d : DraftArticle) : resultingArticle :=
  {| articleId := dr_id d; title := dr_title d;
     status := statusOf (dr_status d); createdAt := dr_createdAt d |}.

(** The record the article is linked to: [promptId] when given, else the
    first record whose identifier is the draft's [aiSuggestionId]. The
    second disjunct of the search compares the suggestion, an object, with
    a string, and is false. *)
Definition targetOf (d : DraftArticle) (promptId : option jsstring) (st : store)
    : option jsstring :=
  if negb (given promptId) && given (dr_aiSuggestionId d)
  then
    match List.find (fun item => streq (id item) (default [] (dr_aiSuggestionId d)) || false)
            (getPromptHistory st) with
    | Some foundHistory => Some (id foundHistory)
    | None => promptId
    end
  else promptId.

Definition linkArticleToPromptHistory (d : DraftArticle) (promptId : option jsstring)
    (st : store) : store :=
  let targetPromptId := targetOf d promptId st in
  if given targetPromptId then
    let target := default [] targetPromptId in
    let st := snd (addResultingArticle target (draftArticle d) st) in
    match dr_seoScore d, dr_keywords d with
    | Some score, Some kws =>
        if truthyNumber score
        then snd (addSEOMetricsToHistory target (draftMetrics d score kws) st)
        else st
    | _, _ => st
    end
  else st.

(** One call of a function that writes the store, for sequences of
    calls. *)
Inductive call :=
| AddPrompt (now : Z) (newId : jsstring) (createdNow : Z) (data : promptData)
| LinkArticle (promptId : jsstring) (article : resultingArticle)
| Rate (promptId : jsstring) (rating : Z) (notes : option jsstring)
| Metrics (promptId : jsstring) (m : Seo.SEOMetrics)
| Delete (promptId : jsstring)
| LinkDraft (d : DraftArticle) (promptId : option jsstring).

Definition perform (st : store) (c : call) : store :=
  match c with
  | AddPrompt now newId createdNow data => snd (addPromptHistory now newId createdNow data st)
  | LinkArticle promptId article => snd (addResultingArticle promptId article st)
  | Rate promptId rating notes => snd (addUserRating promptId rating notes st)
  | Metrics promptId m => snd (addSEOMetricsToHistory promptId m st)
  | Delete promptId => snd (deletePromptHistory promptId st)
  | LinkDraft d promptId => linkArticleToPromptHistory d promptId st
  end.

Definition performAll (calls : list call) (st : store) : store :=
  fold_left perform calls st.

(** Sample data: a store with the records R, then S added at its head,
    and a draft. *)
Definition sampleStore : store :=
  let st := load None in
  let st := snd (addPromptHistory 1700000000000 (str "prompt_R") 1700000000000
                   (sampleData (str "a")) st) in
  snd (addPromptHistory 1700000100000 (str "prompt_S") 1700000100000
         (sampleData (str "b")) st).

Definition sampleDraft : DraftArticle :=
  {| dr_id := str "draft_1"; dr_title := str "title"; dr_metaDescription := str "meta";
     dr_createdAt := str "2023-11-14T22:13:20.000Z"; dr_status := is_draft;
     dr_aiSuggestionId := Some (str "prompt_R"); dr_wordCount := Some 1200;
     dr_seoScore := Some 72%float; dr_keywords := Some [str "seo"] |}.

End HistoryOps.

(** ** RateLimiter: sequences of recorded requests *)

Module RateLimiterRuns.
Import RateLimiter.

(** The calls [recordRequest(model, tokens)] made at the given clock
    readings, in order. *)
Definition recordAll (model : jsstring) (samples : list (Z * Z)) (rl : t) : t :=
  fold_left (fun rl sample => recordRequest (fst sample) model (snd sample) rl) samples rl.

End RateLimiterRuns.

(** ** ContentReconstructor: the text of a paragraph *)

Module FormatterText.

(** The text of a paragraph between its tags: each line feed has become
    a break. *)
Definition withBreaks (paragraph : jsstring) : jsstring :=
  flat_map (fun c => if c =? 10 then str "<br>" else [c]) paragraph.

(** A suggestion with two headings whose main content is blank. *)
Definition blankArticle : Parser.article :=
  {| Parser.introduction := []; Parser.mainContent := [32; 10; 32];
     Parser.conclusion := [] |}.

Definition blankSuggestion : Parser.AISuggestion :=
  {| Parser.titles := [str "sample"];
     Parser.categories := {| Parser.existing := []; Parser.new := [] |};
     Parser.tags := {| Parser.existing := []; Parser.new := [] |};
     Parser.structure :=
       {| Parser.headings := [Formatter.sampleHeading "A"; Formatter.sampleHeading "B"] |};
     Parser.metaDescriptions := [];
     Parser.content := None;
     Parser.fullArticle := Some blankArticle |}.

End FormatterText.

(** ** SeoScorer: the parts of the title score and the shape of plain text *)

Module SeoParts.
Import Seo.

(** The points of [calculateTitleScore] for the length of the title. *)
Definition titleLengthPoints (title : jsstring) : Z :=
  let length := len title in
  if (30 <=? length) && (length <=? 60) then 40
  else if (20 <=? length) && (length <=? 80) then 25
  else 10.

(** The tests of [calculateTitleScore] for a number and for a question
    mark. *)
Definition hasNumber (title : jsstring) : bool := test (plus true digit) title.
Definition hasQuestion (title : jsstring) : bool := testAny [str "？"; str "?"] title.

(** The points of the other tests: the three word lists, the exclamation
    mark and the two penalties. *)
Definition otherTitlePoints (title : jsstring) : Z :=
  (if testAny [str "方法"; str "やり方"; str "手順"; str "コツ"; str "秘訣"] title then 10 else 0)
  + (if testAny [str "まとめ"; str "一覧"; str "比較"; str "ランキング"] title then 10 else 0)
  + (if testAny [str "無料"; str "簡単"; str "効果的"; str "最新"; str "おすすめ"] title then 10 else 0)
  + (if testAny [str "！"; str "!"] title then 5 else 0)
  + (if 100 <? len title then -20 else 0)
  + (if includes title (str "...") || includes title (str "。。。") then -10 else 0).

(** Plain text in which white space occurs only as single spaces between
    other units. *)
Fixpoint singleSpaced (s : jsstring) : bool :=
  match s with
  | [] => true
  | c :: t =>
      (if isWhiteSpace c
       then (c =? 32) && match t with c' :: _ => negb (isWhiteSpace c') | [] => true end
       else true)
      && singleSpaced t
  end.

(** A text in which no [<] is followed, anywhere later, by a [>]: it
    holds no complete tag. *)
Fixpoint noTag (s : jsstring) : bool :=
  match s with
  | [] => true
  | c :: t => (if c =? 60 then negb (existsb (Z.eqb 62) t) else true) && noTag t
  end.


End SeoParts.

(** ** File validation: [validateFile] *)

Module Files.

(** The two properties of a [File] that are read. *)
Record File := {
  name : jsstring;
  size : Z
}.

(** [Object.values(SUPPORTED_FILE_TYPES).flat()] *)
Definition getSupportedExtensions : list jsstring :=
  concat [[str ".txt"]; [str ".md"]; [str ".docx"]; [str ".pdf"]; [str ".html"; str ".htm"]].

(** [name.split('.').pop()]: the text after the last dot, the whole name
    when it has none. *)
Definition lastSegment (name : jsstring) : jsstring :=
  List.last (Parser.splitOn 46 name) [].

Record validation := {
  valid : bool;
  error : option jsstring
}.

Definition MAX_FILE_SIZE : Z := 10 * 1024 * 1024.

Section CaseMapping.

Variable toLowerCase : jsstring -> jsstring.

Definition isFileSupported (file : File) : bool :=
  let extension := str "." ++ toLowerCase (lastSegment (name file)) in
  existsb (fun e => streq e extension) getSupportedExtensions.

Definition validateFile (file : File) : validation :=
  if MAX_FILE_SIZE <? size file
  then {| valid := false; error := Some (str "ファイルサイズが10MBを超えています") |}
  else if size file =? 0
  then {| valid := false; error := Some (str "ファイルが空です") |}
  else if negb (isFileSupported file)
  then
    let supportedExts := join (str ", ") getSupportedExtensions in
    {| valid := false;
       error := Some (str "サポートされていないファイル形式です。サポート形式: " ++ supportedExts) |}
  else {| valid := true; error := None |}.

End CaseMapping.

End Files.

(** * Properties *)

(** ** Regular expressions *)

Section RegexFacts.

Lemma orElse_Some {A} (x : option A) (y : unit -> option A) (v : A) :
  orElse x y = Some v -> x = Some v \/ y tt = Some v.
Proof. destruct x; simpl; auto. Qed.

Lemma starLoop_sound g r (m : matcher) k :
  (forall st k' res, m st k' = Some res ->
     exists st', matches r st st' /\ k' st' = Some res) ->
  forall fuel st res,
    starLoop g m k fuel st = Some res ->
    exists st', matches (Star g r) st st' /\ k st' = Some res.
Proof.
  intros Hm. induction fuel as [|fuel IH]; intros st res; simpl; [discriminate |].
  assert (forall res,
    m st (fun st' => if Nat.ltb (length (after st')) (length (after st))
                     then starLoop g m k fuel st' else None) = Some res ->
    exists st', matches (Star g r) st st' /\ k st' = Some res) as Hmore.
  { intros res' H. apply Hm in H as (st1 & H1 & H).
    destruct (Nat.ltb _ _) eqn:E; [| discriminate].
    apply Nat.ltb_lt in E. apply IH in H as (st2 & H2 & H).
    exists st2. split; [| exact H]. eapply matches_Star_more; eauto. }
  assert (k st = Some res ->
    exists st', matches (Star g r) st st' /\ k st' = Some res) as Hstop.
  { intros H. exists st. split; [constructor | exact H]. }
  destruct g; intros H; apply orElse_Some in H as [H|H]; auto.
Qed.

Lemma run_sound r : forall st k res,
  run r st k = Some res -> exists st', matches r st st' /\ k st' = Some res.
Proof.
  induction r as [| p | r1 IH1 r2 IH2 | r1 IH1 r2 IH2 | g r1 IH1 | n r1 IH1 | m | m |];
    intros st k res; cbn [run].
  - intros H. exists st. split; [constructor | exact H].
  - destruct (after st) as [|c rest] eqn:E; [discriminate |].
    destruct (p c) eqn:Ep; [| discriminate].
    intros H. eexists. split; [| exact H]. now constructor.
  - intros H. apply IH1 in H as (st1 & H1 & H). apply IH2 in H as (st2 & H2 & H).
    exists st2. split; [| exact H]. econstructor; eauto.
  - intros H. apply orElse_Some in H as [H|H].
    + apply IH1 in H as (st' & H1 & H). exists st'. split; [| exact H].
      now apply matches_Alt_l.
    + apply IH2 in H as (st' & H1 & H). exists st'. split; [| exact H].
      now apply matches_Alt_r.
  - apply starLoop_sound. exact IH1.
  - intros H. apply IH1 in H as (st' & H1 & H). eexists. split; [| exact H].
    now constructor.
  - destruct (atBol m st) eqn:E; [| discriminate].
    intros H. exists st. split; [now constructor | exact H].
  - destruct (atEol m st) eqn:E; [| discriminate].
    intros H. exists st. split; [now constructor | exact H].
  - destruct (atWordBoundary st) eqn:E; [| discriminate].
    intros H. exists st. split; [now constructor | exact H].
Qed.

Lemma spans_nil st : spans st [] st.
Proof. split; reflexivity. Qed.

Lemma spans_app st1 w1 st2 w2 st3 :
  spans st1 w1 st2 -> spans st2 w2 st3 -> spans st1 (w1 ++ w2) st3.
Proof.
  intros [A1 B1] [A2 B2]. split.
  - rewrite A1, A2. now rewrite app_assoc.
  - rewrite B2, B1, rev_app_distr. now rewrite app_assoc.
Qed.

Lemma matches_spans r st st' : matches r st st' -> exists w, spans st w st'.
Proof.
  induction 1 as [st | p c rest st E Hp | r1 r2 st st1 st2 _ [w1 H1] _ [w2 H2]
                 | r1 r2 st st' _ IH | r1 r2 st st' _ IH | g r st
                 | g r st st1 st2 _ [w1 H1] _ _ [w2 H2]
                 | n r st st' _ [w H] | m st | m st | st].
  - exists []. apply spans_nil.
  - exists [c]. split; simpl; [exact E | reflexivity].
  - exists (w1 ++ w2). eapply spans_app; eauto.
  - exact IH.
  - exact IH.
  - exists []. apply spans_nil.
  - exists (w1 ++ w2). eapply spans_app; eauto.
  - exists w. exact H.
  - exists []. apply spans_nil.
  - exists []. apply spans_nil.
  - exists []. apply spans_nil.
Qed.

Lemma consumed_spans st w st' : spans st w st' -> consumed st st' = w.
Proof.
  intros [A _]. unfold consumed. rewrite A, length_app.
  replace (length w + length (after st') - length (after st'))%nat with (length w) by lia.
  now rewrite take_app_length.
Qed.

Lemma spans_inj st w1 w2 st' : spans st w1 st' -> spans st w2 st' -> w1 = w2.
Proof.
  intros H1 H2. rewrite <- (consumed_spans _ _ _ H1). apply consumed_spans. exact H2.
Qed.

Lemma matches_noGroups r st st' :
  matches r st st' -> noGroups r = true -> caps st' = caps st.
Proof.
  induction 1; simpl; intros Hn; try reflexivity; try discriminate.
  - apply andb_true_iff in Hn as [Hn1 Hn2]. rewrite IHmatches2, IHmatches1; auto.
  - apply andb_true_iff in Hn as [Hn1 Hn2]. auto.
  - apply andb_true_iff in Hn as [Hn1 Hn2]. auto.
  - rewrite IHmatches2, IHmatches1; auto.
Qed.

Lemma noGroups_lit s : noGroups (lit s) = true.
Proof. induction s; simpl; auto. Qed.

Lemma matches_Char_inv p st st' :
  matches (Char p) st st' -> exists c, spans st [c] st' /\ p c = true /\ caps st' = caps st.
Proof.
  inversion 1; subst. exists c. repeat split; auto.
Qed.

Lemma matches_lit s : forall st st',
  matches (lit s) st st' -> spans st s st' /\ caps st' = caps st.
Proof.
  induction s as [|c s IH]; intros st st' H; simpl in H.
  - inversion H; subst. split; [apply spans_nil | reflexivity].
  - inversion H as [| | r1 r2 st0 st1 st2 H1 H2 | | | | | | | |]; subst.
    apply matches_Char_inv in H1 as (c' & Hs & Hc & Hcaps).
    apply Z.eqb_eq in Hc. subst c'.
    apply IH in H2 as [Hs2 Hcaps2]. split.
    + exact (spans_app _ _ _ _ _ Hs Hs2).
    + congruence.
Qed.

Lemma matches_Star_Char g p st st' :
  matches (Star g (Char p)) st st' ->
  exists w, spans st w st' /\ forallb p w = true /\ caps st' = caps st.
Proof.
  remember (Star g (Char p)) as r eqn:Er. intros H.
  induction H; try discriminate; injection Er as -> ->.
  - exists []. split; [apply spans_nil | auto].
  - apply matches_Char_inv in H as (c & Hs & Hc & Hcaps).
    destruct (IHmatches2 eq_refl) as (w & Hs2 & Hw & Hcaps2).
    exists (c :: w). split; [exact (spans_app _ _ _ _ _ Hs Hs2) |].
    split; [simpl; now rewrite Hc, Hw | congruence].
Qed.

Lemma matches_times_Char n p : forall st st',
  matches (times n (Char p)) st st' ->
  exists w, spans st w st' /\ length w = n /\ forallb p w = true /\ caps st' = caps st.
Proof.
  induction n as [|n IH]; intros st st' H; simpl in H.
  - inversion H; subst. exists []. split; [apply spans_nil | auto].
  - inversion H as [| | r1 r2 st0 st1 st2 H1 H2 | | | | | | | |]; subst.
    apply matches_Char_inv in H1 as (c & Hs & Hc & Hcaps).
    apply IH in H2 as (w & Hs2 & Hl & Hw & Hcaps2).
    exists (c :: w). split; [exact (spans_app _ _ _ _ _ Hs Hs2) |].
    repeat split; simpl; [lia | now rewrite Hc, Hw | congruence].
Qed.

Lemma matches_upTo_Char n p : forall st st',
  matches (upTo n (Char p)) st st' ->
  exists w, spans st w st' /\ (length w <= n)%nat /\ forallb p w = true /\ caps st' = caps st.
Proof.
  induction n as [|n IH]; intros st st' H; simpl in H.
  - inversion H; subst. exists []. split; [apply spans_nil | auto].
  - inversion H as [| | | r1 r2 st0 st0' H1 | r1 r2 st0 st0' H1 | | | | | |]; subst.
    + inversion H1 as [| | r1 r2 st0 st1 st2 Ha Hb | | | | | | | |]; subst.
      apply matches_Char_inv in Ha as (c & Hs & Hc & Hcaps).
      apply IH in Hb as (w & Hs2 & Hl & Hw & Hcaps2).
      exists (c :: w). split; [exact (spans_app _ _ _ _ _ Hs Hs2) |].
      repeat split; simpl; [lia | now rewrite Hc, Hw | congruence].
    + inversion H1; subst. exists []. split; [apply spans_nil |].
      repeat split; simpl; auto. lia.
Qed.

Lemma matches_between_Char lo hi p st st' :
  matches (between lo hi (Char p)) st st' ->
  exists w, spans st w st' /\ (lo <= length w <= lo + (hi - lo))%nat
            /\ forallb p w = true /\ caps st' = caps st.
Proof.
  unfold between. intros H.
  inversion H as [| | r1 r2 st0 st1 st2 H1 H2 | | | | | | | |]; subst.
  apply matches_times_Char in H1 as (w1 & Hs1 & Hl1 & Hw1 & Hc1).
  apply matches_upTo_Char in H2 as (w2 & Hs2 & Hl2 & Hw2 & Hc2).
  exists (w1 ++ w2). split; [exact (spans_app _ _ _ _ _ Hs1 Hs2) |].
  rewrite length_app, forallb_app, Hw1, Hw2. repeat split; try lia. congruence.
Qed.

(** A match found by a search starts at a position of the input, with no
    capture, and is a match of the pattern. *)
Lemma matchAt_sound r bef aft m :
  matchAt r bef aft = Some m ->
  before (start m) = bef /\ after (start m) = aft /\ caps (start m) = []
  /\ matches r (start m) (stop m).
Proof.
  unfold matchAt. destruct (run r _ Some) as [st'|] eqn:E; simpl; [| discriminate].
  intros [= <-]. simpl. repeat split.
  apply run_sound in E as (st'' & H & [= ->]). exact H.
Qed.

Lemma execFrom_sound r : forall aft bef m,
  execFrom r bef aft = Some m ->
  rev (before (start m)) ++ after (start m) = rev bef ++ aft
  /\ caps (start m) = [] /\ matches r (start m) (stop m).
Proof.
  induction aft as [|c rest IH]; intros bef m; simpl.
  - destruct (matchAt r bef []) as [m'|] eqn:E; [| discriminate].
    intros [= <-]. apply matchAt_sound in E as (-> & -> & ? & ?). auto.
  - destruct (matchAt r bef (c :: rest)) as [m'|] eqn:E.
    + intros [= <-]. apply matchAt_sound in E as (-> & -> & ? & ?). auto.
    + intros H. apply IH in H as (H1 & H2 & H3). split; [| auto].
      rewrite H1. simpl. now rewrite <- app_assoc.
Qed.

Lemma exec_sound r s m :
  exec r s = Some m ->
  rev (before (start m)) ++ after (start m) = s
  /\ caps (start m) = [] /\ matches r (start m) (stop m).
Proof. unfold exec. intros H. now apply execFrom_sound in H. Qed.

End RegexFacts.

Section FuelFacts.

(** A matcher depends on its continuation only through the values the
    continuation takes. *)
Lemma starLoop_ext g (m : matcher) :
  (forall st k1 k2, (forall st', k1 st' = k2 st') -> m st k1 = m st k2) ->
  forall fuel st k1 k2, (forall st', k1 st' = k2 st') ->
    starLoop g m k1 fuel st = starLoop g m k2 fuel st.
Proof.
  intros Hm. induction fuel as [|fuel IH]; intros st k1 k2 Hk; [reflexivity |].
  simpl. rewrite (Hk st).
  rewrite (Hm st _ (fun st' =>
             if Nat.ltb (length (after st')) (length (after st))
             then starLoop g m k2 fuel st' else None)).
  - reflexivity.
  - intros st'. destruct (Nat.ltb _ _); [| reflexivity]. now apply IH.
Qed.

Lemma run_ext r : forall st k1 k2,
  (forall st', k1 st' = k2 st') -> run r st k1 = run r st k2.
Proof.
  induction r as [| p | r1 IH1 r2 IH2 | r1 IH1 r2 IH2 | g r1 IH1 | n r1 IH1 | m | m |];
    intros st k1 k2 Hk; cbn [run].
  - apply Hk.
  - destruct (after st); [reflexivity |]. destruct (p z); [apply Hk | reflexivity].
  - apply IH1. intros st1. now apply IH2.
  - rewrite (IH1 st k1 k2 Hk), (IH2 st k1 k2 Hk). reflexivity.
  - now apply starLoop_ext.
  - apply IH1. intros st'. apply Hk.
  - destruct (atBol m st); [apply Hk | reflexivity].
  - destruct (atEol m st); [apply Hk | reflexivity].
  - destruct (atWordBoundary st); [apply Hk | reflexivity].
Qed.

(** The iterations of a quantifier never use the fuel up: any amount
    above the length of the rest of the input gives the same result. *)
Lemma starLoop_fuel g r k : forall fuel1 fuel2 st,
  (length (after st) < fuel1)%nat -> (length (after st) < fuel2)%nat ->
  starLoop g (run r) k fuel1 st = starLoop g (run r) k fuel2 st.
Proof.
  induction fuel1 as [|fuel1 IH]; intros fuel2 st H1 H2; [lia |].
  destruct fuel2 as [|fuel2]; [lia |]. simpl.
  rewrite (run_ext r st _ (fun st' =>
             if Nat.ltb (length (after st')) (length (after st))
             then starLoop g (run r) k fuel2 st' else None)).
  - reflexivity.
  - intros st'. destruct (Nat.ltb _ _) eqn:E; [| reflexivity].
    apply Nat.ltb_lt in E. apply IH; lia.
Qed.

Lemma run_Star_fuel g r st k fuel :
  (length (after st) < fuel)%nat ->
  run (Star g r) st k = starLoop g (run r) k fuel st.
Proof. intros H. cbn [run]. apply starLoop_fuel; lia. Qed.

Lemma spans_length st w st' :
  spans st w st' -> length (after st) = (length w + length (after st'))%nat.
Proof. intros [-> _]. apply length_app. Qed.

(** A match found from a position ends inside the input that was left,
    and strictly inside it when it is not empty. *)
Lemma execFrom_length r : forall aft bef m,
  execFrom r bef aft = Some m ->
  (length (after (start m)) <= length aft)%nat
  /\ length (after (start m)) = (length (matched m) + length (after (stop m)))%nat.
Proof.
  assert (forall bef aft m, matchAt r bef aft = Some m ->
            (length (after (start m)) <= length aft)%nat
            /\ length (after (start m)) = (length (matched m) + length (after (stop m)))%nat) as Hat.
  { intros bef aft m H. apply matchAt_sound in H as (_ & Ha & _ & H).
    destruct (matches_spans _ _ _ H) as [w Hs].
    unfold matched. rewrite (consumed_spans _ _ _ Hs).
    split; [rewrite Ha; lia | now apply spans_length]. }
  induction aft as [|c rest IH]; intros bef m; simpl.
  - destruct (matchAt r bef []) as [m'|] eqn:E; [| discriminate].
    intros [= <-]. now apply Hat in E.
  - destruct (matchAt r bef (c :: rest)) as [m'|] eqn:E.
    + intros [= <-]. now apply Hat in E.
    + intros H. apply IH in H as [H1 H2]. simpl. split; [lia | exact H2].
Qed.

(** The loops over the matches of a pattern never use their fuel up. *)
Lemma matchAllFrom_fuel r : forall fuel1 fuel2 bef aft,
  (length aft < fuel1)%nat -> (length aft < fuel2)%nat ->
  matchAllFrom fuel1 r bef aft = matchAllFrom fuel2 r bef aft.
Proof.
  induction fuel1 as [|fuel1 IH]; intros fuel2 bef aft H1 H2; [lia |].
  destruct fuel2 as [|fuel2]; [lia |]. simpl.
  destruct (execFrom r bef aft) as [m|] eqn:E; [| reflexivity].
  apply execFrom_length in E as [E1 E2]. f_equal.
  destruct (matched m) as [|c w] eqn:Ew.
  - destruct (after (stop m)) as [|c rest] eqn:Ea; [reflexivity |].
    simpl in E2. apply IH; lia.
  - simpl in E2. apply IH; lia.
Qed.

Lemma replaceFrom_fuel r repl : forall fuel1 fuel2 bef aft,
  (length aft < fuel1)%nat -> (length aft < fuel2)%nat ->
  replaceFrom fuel1 r repl bef aft = replaceFrom fuel2 r repl bef aft.
Proof.
  induction fuel1 as [|fuel1 IH]; intros fuel2 bef aft H1 H2; [lia |].
  destruct fuel2 as [|fuel2]; [lia |]. simpl.
  destruct (execFrom r bef aft) as [m|] eqn:E; [| reflexivity].
  apply execFrom_length in E as [E1 E2]. do 2 f_equal.
  destruct (matched m) as [|c w] eqn:Ew.
  - destruct (after (stop m)) as [|c rest] eqn:Ea; [reflexivity |].
    simpl in E2. f_equal. apply IH; lia.
  - simpl in E2. apply IH; lia.
Qed.

Lemma splitFrom_fuel r : forall fuel1 fuel2 seg bef aft,
  (2 * length aft + (if truthy seg then 1 else 0) < fuel1)%nat ->
  (2 * length aft + (if truthy seg then 1 else 0) < fuel2)%nat ->
  splitFrom fuel1 r seg bef aft = splitFrom fuel2 r seg bef aft.
Proof.
  induction fuel1 as [|fuel1 IH]; intros fuel2 seg bef aft H1 H2; [lia |].
  destruct fuel2 as [|fuel2]; [lia |]. simpl.
  destruct aft as [|c rest]; [reflexivity |].
  assert (splitFrom fuel1 r (c :: seg) (c :: bef) rest
          = splitFrom fuel2 r (c :: seg) (c :: bef) rest) as Hskip.
  { apply IH; simpl in *; lia. }
  destruct (matchAt r bef (c :: rest)) as [m|] eqn:E; [| exact Hskip].
  destruct (Nat.eqb (length (after (stop m))) (length (c :: rest)) && negb (truthy seg))
    eqn:Eskip; [exact Hskip |].
  f_equal.
  apply matchAt_sound in E as (_ & Ha & _ & Hm).
  destruct (matches_spans _ _ _ Hm) as [w Hs]. apply spans_length in Hs.
  rewrite Ha in Hs.
  apply andb_false_iff in Eskip as [Ee|Ee].
  - apply Nat.eqb_neq in Ee. apply IH; simpl in *; lia.
  - apply negb_false_iff in Ee. rewrite Ee in H1, H2. apply IH; simpl in *; lia.
Qed.

End FuelFacts.

(** ** RateLimiter *)

Section RateLimiterFacts.
Import RateLimiter.

Lemma withinMinute_fresh now arr t :
  In t (withinMinute now arr) -> now - t < oneMinute.
Proof.
  unfold withinMinute. rewrite filter_In. intros [_ H].
  now apply Z.ltb_lt in H.
Qed.

Lemma requestsOf_canMakeRequest now model est rl :
  requestsOf (snd (canMakeRequest now model est rl)) model
  = withinMinute now (requestsOf rl model).
Proof.
  unfold canMakeRequest, requestsOf.
  destruct (RATE_LIMITS model); simpl; now rewrite lookup_insert_eq.
Qed.

Lemma tokensOf_canMakeRequest now model est rl :
  tokensOf (snd (canMakeRequest now model est rl)) model
  = withinMinute now (tokensOf rl model).
Proof.
  unfold canMakeRequest, tokensOf.
  destruct (RATE_LIMITS model); simpl; now rewrite lookup_insert_eq.
Qed.

Lemma requestsOf_recordRequest now model toks rl :
  requestsOf (recordRequest now model toks rl) model = requestsOf rl model ++ [now].
Proof. unfold recordRequest, requestsOf. simpl. now rewrite lookup_insert_eq. Qed.

Lemma tokensOf_recordRequest now model toks rl :
  tokensOf (recordRequest now model toks rl) model = tokensOf rl model ++ [toks].
Proof. unfold recordRequest, tokensOf. simpl. now rewrite lookup_insert_eq. Qed.

(** What the code decides: the request count is taken over the request
    times of the trailing minute, but the token sum is taken over the
    token counts [v] that satisfy [now - v < 60000] themselves. *)
Lemma canMakeRequest_decides now model est rl :
  fst (canMakeRequest now model est rl) = true <->
  exists lim, RATE_LIMITS model = Some lim /\
    Z.of_nat (length (withinMinute now (requestsOf rl model))) < rpm lim /\
    sumTokens (withinMinute now (tokensOf rl model)) + default 1000 est < tpm lim.
Proof.
  unfold canMakeRequest, requestsOf, tokensOf.
  destruct (RATE_LIMITS model) as [lim|]; simpl.
  - rewrite andb_true_iff, !Z.ltb_lt. split.
    + intros [H1 H2]. exists lim. auto.
    + intros (lim' & E & H1 & H2). injection E as <-. auto.
  - split; [discriminate | intros (lim & E & _); discriminate].
Qed.

(** With token counts below the clock reading by a minute or more, as
    every count is, the token samples are dropped and only the estimate
    is compared with the budget. *)
Lemma canMakeRequest_token_budget now model est rl :
  Forall (fun v => v + oneMinute <= now) (tokensOf rl model) ->
  (fst (canMakeRequest now model est rl) = true <->
   exists lim, RATE_LIMITS model = Some lim /\
     Z.of_nat (length (withinMinute now (requestsOf rl model))) < rpm lim /\
     default 1000 est < tpm lim).
Proof.
  intros Hsmall. rewrite canMakeRequest_decides.
  assert (withinMinute now (tokensOf rl model) = []) as ->.
  { unfold withinMinute. induction Hsmall as [|v l Hv _ IH]; [reflexivity |].
    simpl. destruct (now - v <? oneMinute) eqn:E; [| exact IH].
    apply Z.ltb_lt in E. lia. }
  reflexivity.
Qed.

Lemma canMakeRequest_unknown_model now model est rl :
  RATE_LIMITS model = None -> fst (canMakeRequest now model est rl) = false.
Proof. unfold canMakeRequest. now intros ->. Qed.

End RateLimiterFacts.

(** C1, evaluated on the code. A request of 31500 tokens is recorded for
    gemini-2.5-pro (2 requests and 32000 tokens per minute); one second
    later a request estimated at 1000 tokens is admitted, although the
    tokens recorded in the trailing minute plus the estimate reach 32500:
    the contract over the log of samples refuses it. *)
Theorem canMakeRequest_forgets_recorded_tokens :
  let model := str "gemini-2.5-pro" in
  let rl := RateLimiter.recordRequest 1700000000000 model 31500 RateLimiter.create in
  fst (RateLimiter.canMakeRequest 1700000001000 model (Some 1000) rl) = true
  /\ RateLimiter.tokensOf (snd (RateLimiter.canMakeRequest 1700000001000 model (Some 1000) rl)) model = []
  /\ RateLimiter.contract_admits 1700000001000 model 1000 [(1700000000000, 31500)] = false.
Proof. vm_compute. auto. Qed.

(** C2 as stated fails for [recordRequest]: a request recorded 100 seconds
    before the call is still held when the call returns. *)
Lemma recordRequest_keeps_stale_request :
  let model := str "gemini-2.5-pro" in
  let rl := RateLimiter.recordRequest 1700000000000 model 10 RateLimiter.create in
  let rl' := RateLimiter.recordRequest 1700000100000 model 10 rl in
  In 1700000000000 (RateLimiter.requestsOf rl' model)
  /\ RateLimiter.oneMinute <= 1700000100000 - 1700000000000
  /\ (RateLimiter.noStaleRequests 1700000100000 model rl' -> False).
Proof.
  intros model rl rl'.
  assert (In 1700000000000 (RateLimiter.requestsOf rl' model)) as Hin.
  { unfold rl', rl. rewrite !requestsOf_recordRequest.
    apply in_or_app. left. apply in_or_app. right. now left. }
  split; [exact Hin |]. split; [vm_compute; discriminate |].
  intros H. specialize (H _ Hin). vm_compute in H. discriminate.
Qed.

(** C2, amended: when [canMakeRequest] returns, no request time held for
    the model is 60 seconds old or older; [recordRequest] prunes nothing
    and appends the time and the token count to what is held. *)
Theorem canMakeRequest_prunes_recordRequest_appends now model est toks rl :
  RateLimiter.noStaleRequests now model (snd (RateLimiter.canMakeRequest now model est rl))
  /\ RateLimiter.requestsOf (RateLimiter.recordRequest now model toks rl) model
     = RateLimiter.requestsOf rl model ++ [now]
  /\ RateLimiter.tokensOf (RateLimiter.recordRequest now model toks rl) model
     = RateLimiter.tokensOf rl model ++ [toks].
Proof.
  split; [| split].
  - intros time. rewrite requestsOf_canMakeRequest. apply withinMinute_fresh.
  - apply requestsOf_recordRequest.
  - apply tokensOf_recordRequest.
Qed.

(** ** HistoryStore *)

Section HistoryFacts.
Import History.

Lemma streq_true (a b : jsstring) : streq a b = true <-> a = b.
Proof. unfold streq. apply bool_decide_eq_true. Qed.

Lemma streq_refl (a : jsstring) : streq a a = true.
Proof. now apply streq_true. Qed.



Lemma findIndex_lookup promptId history index :
  findIndex promptId history = Some index ->
  exists item, history !! index = Some item /\ id item = promptId.
Proof.
  revert index. induction history as [|x rest IH]; intros index; simpl; [discriminate |].
  destruct (streq (id x) promptId) eqn:E.
  - intros [= <-]. exists x. split; [reflexivity | now apply streq_true].
  - destruct (findIndex promptId rest) as [j|]; simpl; [| discriminate].
    intros [= <-]. simpl. now apply IH.
Qed.

Lemma findIndex_insert promptId history index item item' :
  findIndex promptId history = Some index ->
  history !! index = Some item ->
  id item' = id item ->
  findIndex promptId (<[index := item']> history) = Some index.
Proof.
  revert index. induction history as [|x rest IH]; intros index; simpl; [discriminate |].
  destruct (streq (id x) promptId) eqn:E.
  - intros [= <-] [= <-] Hid. simpl. now rewrite Hid, E.
  - destruct (findIndex promptId rest) as [j|] eqn:Ej; simpl; [| discriminate].
    intros [= <-]. simpl. intros Hl Hid. rewrite E.
    now rewrite (IH j eq_refl Hl Hid).
Qed.

Lemma hasArticle_In item article :
  hasArticle item article = true <-> In (articleId article) (articleIds item).
Proof.
  unfold hasArticle, articleIds. rewrite existsb_exists, in_map_iff.
  split.
  - intros (x & Hx & E). apply streq_true in E. eauto.
  - intros (x & E & Hx). exists x. split; [exact Hx |]. now apply streq_true.
Qed.

Lemma hasArticle_pushArticle item article :
  hasArticle (pushArticle article item) article = true.
Proof.
  apply hasArticle_In. unfold articleIds. simpl. rewrite map_app.
  apply in_or_app. right. now left.
Qed.

Lemma articlesDistinct_link promptId article st :
  articlesDistinct st -> articlesDistinct (snd (addResultingArticle promptId article st)).
Proof.
  intros Hd. unfold addResultingArticle.
  destruct (findIndex promptId (getPromptHistory st)) as [index|] eqn:Ei; [| exact Hd].
  destruct (getPromptHistory st !! index) as [item|] eqn:El; [| exact Hd].
  destruct (hasArticle item article) eqn:Eh; [exact Hd |].
  unfold articlesDistinct, getPromptHistory at 1. simpl.
  unfold articlesDistinct in Hd.
  apply Forall_insert; [exact Hd |].
  unfold articleIds. simpl. rewrite map_app. simpl.
  apply NoDup_app. split; [| split].
  - eapply (proj1 (Forall_lookup _ _) Hd); eauto.
  - intros x Hx Hx'. apply list_elem_of_singleton in Hx'. subst x.
    apply list_elem_of_In in Hx.
    apply hasArticle_In in Hx. congruence.
  - apply NoDup_singleton.
Qed.

Lemma articlesDistinct_add now newId createdNow data st :
  articlesDistinct st ->
  articlesDistinct (snd (addPromptHistory now newId createdNow data st)).
Proof.
  intros Hd. unfold addPromptHistory.
  destruct (cachedRecord now st); [exact Hd |].
  destruct (List.find _ _); [exact Hd |].
  unfold articlesDistinct, getPromptHistory. simpl.
  constructor; [apply NoDup_nil_2 | exact Hd].
Qed.

Lemma articlesDistinct_runOps ops st :
  articlesDistinct st -> articlesDistinct (runOps ops st).
Proof.
  revert st. induction ops as [|o ops IH]; intros st Hd; [exact Hd |].
  simpl. apply IH. destruct o; simpl.
  - now apply articlesDistinct_add.
  - now apply articlesDistinct_link.
Qed.

End HistoryFacts.




(** C9: a call of [addResultingArticle] whose article identifier is
    already listed by the target record changes nothing; a repeated call
    changes nothing either; and no sequence of calls, on a freshly loaded
    empty store or on any store whose records list no identifier twice,
    makes a record list an identifier twice. *)
Theorem addResultingArticle_idempotent_distinct :
  (forall st promptId article index item,
      History.findIndex promptId (History.getPromptHistory st) = Some index ->
      History.getPromptHistory st !! index = Some item ->
      In (History.articleId article) (History.articleIds item) ->
      History.addResultingArticle promptId article st = (true, st))
  /\ (forall st promptId article,
      let r := History.addResultingArticle promptId article st in
      History.addResultingArticle promptId article (snd r) = (fst r, snd r))
  /\ (forall st calls,
      History.articlesDistinct st ->
      History.articlesDistinct (History.linkAll calls st))
  /\ (forall ops, History.articlesDistinct (History.runOps ops (History.load None))).
Proof.
  split; [| split; [| split]].
  - intros st promptId article index item Hi Hl Hin.
    unfold History.addResultingArticle. rewrite Hi, Hl.
    apply hasArticle_In in Hin. now rewrite Hin.
  - intros st promptId article r. unfold r, History.addResultingArticle.
    destruct (History.findIndex promptId (History.getPromptHistory st)) as [index|] eqn:Ei.
    + destruct (History.getPromptHistory st !! index) as [item|] eqn:El.
      * destruct (History.hasArticle item article) eqn:Eh; simpl.
        -- now rewrite Ei, El, Eh.
        -- change (History.getPromptHistory
                     (History.savePromptHistory
                        (<[index := History.pushArticle article item]>
                           (History.getPromptHistory st)) st))
             with (<[index := History.pushArticle article item]>
                     (History.getPromptHistory st)).
           rewrite (findIndex_insert _ _ _ item (History.pushArticle article item) Ei El eq_refl).
           rewrite list_lookup_insert_eq by (eapply lookup_lt_Some; eauto).
           now rewrite hasArticle_pushArticle.
      * simpl. now rewrite Ei, El.
    + simpl. now rewrite Ei.
  - intros st calls. revert st.
    induction calls as [|c calls IH]; intros st Hd; [exact Hd |].
    simpl. apply IH. now apply articlesDistinct_link.
  - intros ops. apply articlesDistinct_runOps. constructor.
Qed.

Lemma addResultingArticle_idempotent_distinct_witness :
  let st := snd (History.addPromptHistory 1700000000000 (str "prompt_1") 1700000000000
                   (History.sampleData (str "a")) (History.load None)) in
  let calls := [(str "prompt_1", History.sampleArticle (str "draft_1"));
                (str "prompt_1", History.sampleArticle (str "draft_1"));
                (str "prompt_1", History.sampleArticle (str "draft_2"))] in
  History.articlesDistinct (History.linkAll calls st)
  /\ map History.articleIds (History.getPromptHistory (History.linkAll calls st))
     = [[str "draft_1"; str "draft_2"]].
Proof.
  split.
  - apply (proj1 (proj2 (proj2 addResultingArticle_idempotent_distinct))).
    repeat constructor.
  - reflexivity.
Defined.

(** ** ContentReconstructor *)

Section FormatterFacts.
Import Parser Formatter.











End FormatterFacts.



(** ** SeoScorer *)

Section SeoFacts.
Import Seo.

Lemma scoreValue_clamp z : z mod 5 = 0 -> scoreValue (clamp z).
Proof.
  intros H. unfold scoreValue, clamp. split; [lia |].
  destruct (Z.le_gt_cases z 0); [rewrite Z.max_r by lia; reflexivity |].
  rewrite Z.max_l by lia.
  destruct (Z.le_gt_cases z 100); [now rewrite Z.min_l by lia |].
  now rewrite Z.min_r by lia.
Qed.

Lemma scoreValue_0 : scoreValue 0.
Proof. split; [lia | reflexivity]. Qed.

Ltac split_conditions :=
  repeat match goal with
         | |- context [if ?b then _ else _] => destruct b
         end.

Lemma calculateTitleScore_value title : scoreValue (calculateTitleScore title).
Proof.
  unfold calculateTitleScore.
  destruct (truthy title); [| apply scoreValue_0].
  cbv zeta. apply scoreValue_clamp. split_conditions; reflexivity.
Qed.

Lemma calculateMetaDescriptionScore_value meta :
  scoreValue (calculateMetaDescriptionScore meta).
Proof.
  unfold calculateMetaDescriptionScore.
  destruct (truthy meta); [| apply scoreValue_0].
  cbv zeta. apply scoreValue_clamp. split_conditions; reflexivity.
Qed.

Lemma calculateContentStructureScore_value content hc :
  scoreValue (calculateContentStructureScore content hc).
Proof.
  unfold calculateContentStructureScore.
  destruct (truthy content); [| apply scoreValue_0].
  cbv zeta. apply scoreValue_clamp. split_conditions; reflexivity.
Qed.

Lemma densityPoints_mod index kw : densityPoints index kw mod 5 = 0.
Proof. unfold densityPoints. split_conditions; reflexivity. Qed.

Lemma sum_mod5 (l : list Z) a :
  Forall (fun z => z mod 5 = 0) l -> a mod 5 = 0 -> fold_left Z.add l a mod 5 = 0.
Proof.
  intros Hl. revert a. induction Hl as [|z l Hz _ IH]; intros a Ha; [exact Ha |].
  simpl. apply IH. rewrite Z.add_mod by lia. now rewrite Ha, Hz.
Qed.

Lemma imap_Forall {A B} (P : B -> Prop) (f : nat -> A -> B) (l : list A) :
  (forall i x, P (f i x)) -> Forall P (imap f l).
Proof.
  revert f. induction l as [|x l IH]; intros f Hf; simpl; constructor.
  - apply Hf.
  - apply IH. intros i y. apply Hf.
Qed.

Lemma calculateKeywordOptimizationScore_value kws :
  scoreValue (calculateKeywordOptimizationScore kws).
Proof.
  unfold calculateKeywordOptimizationScore.
  destruct kws as [|kw kws]; [apply scoreValue_0 |].
  cbv zeta. apply scoreValue_clamp.
  set (total := fold_left Z.add _ 0).
  assert (total mod 5 = 0) as Ht.
  { apply sum_mod5; [| reflexivity].
    apply imap_Forall. intros. apply densityPoints_mod. }
  split_conditions; first [exact Ht | rewrite Z.add_mod by lia; now rewrite Ht].
Qed.

Lemma scoreValue_In z : scoreValue z -> In z scoreValues.
Proof.
  intros [Hr Hm]. unfold scoreValues. apply in_map_iff.
  exists (Z.to_nat (z / 5)). split.
  - rewrite Z2Nat.id by (apply Z.div_pos; lia).
    pose proof (Z.div_mod z 5 ltac:(lia)). lia.
  - apply in_seq. split; [lia |].
    assert (z / 5 <= 20) by (apply Z.div_le_upper_bound; lia). lia.
Qed.

Lemma forall4_In (P : Z -> Z -> Z -> Z -> bool) (l : list Z) :
  forall4 P l = true ->
  forall t m c k, In t l -> In m l -> In c l -> In k l -> P t m c k = true.
Proof.
  unfold forall4. intros H t m c k Ht Hm Hc Hk.
  rewrite forallb_forall in H. specialize (H t Ht).
  rewrite forallb_forall in H. specialize (H m Hm).
  rewrite forallb_forall in H. specialize (H c Hc).
  rewrite forallb_forall in H. exact (H k Hk).
Qed.

Lemma overallInRange_all : forall4 overallInRange scoreValues = true.
Proof. vm_compute. reflexivity. Qed.

Lemma overallInRange_integer t m c k :
  overallInRange t m c k = true ->
  exists n, 0 <= n <= 100 /\ calculateOverallScore t m c k = Num.ofZ n.
Proof.
  unfold overallInRange.
  generalize (calculateOverallScore t m c k). intros r H.
  cbv zeta in H.
  apply andb_true_iff in H as [H Heq]. apply andb_true_iff in H as [H0 H100].
  exists (Num.truncate r).
  split; [lia |]. now apply FloatAxioms.Leibniz.eqb_spec.
Qed.

Lemma calculateOverallScore_integer t m c k :
  scoreValue t -> scoreValue m -> scoreValue c -> scoreValue k ->
  exists n, 0 <= n <= 100 /\ calculateOverallScore t m c k = Num.ofZ n.
Proof.
  intros Ht Hm Hc Hk.
  apply overallInRange_integer.
  apply (forall4_In overallInRange scoreValues overallInRange_all);
    now apply scoreValue_In.
Qed.

Lemma overallScore_analyzeSEO toLowerCase articleId input :
  overallScore (analyzeSEO toLowerCase articleId input)
  = calculateOverallScore
      (calculateTitleScore (title input))
      (calculateMetaDescriptionScore (metaDescription input))
      (calculateContentStructureScore (content input) (countHeadings (content input)))
      (calculateKeywordOptimizationScore
         (analyzeKeywords toLowerCase (extractPlainText (content input)) (keywords input))).
Proof. reflexivity. Qed.

End SeoFacts.

(** C6: for every title, content, meta description and keyword list (and
    whatever the case mapping), the overall score is the number of an
    integer between 0 and 100; when the three texts are empty it is 0. *)
Theorem analyzeSEO_overallScore_range
    (toLowerCase : jsstring -> jsstring) (articleId : jsstring)
    (input : Seo.SEOAnalysisInput) :
  (exists n : Z, 0 <= n <= 100 /\
     Seo.overallScore (Seo.analyzeSEO toLowerCase articleId input) = Num.ofZ n)
  /\ (Seo.title input = [] -> Seo.content input = [] -> Seo.metaDescription input = [] ->
      Seo.overallScore (Seo.analyzeSEO toLowerCase articleId input) = 0%float).
Proof.
  rewrite overallScore_analyzeSEO. split.
  - apply calculateOverallScore_integer.
    + apply calculateTitleScore_value.
    + apply calculateMetaDescriptionScore_value.
    + apply calculateContentStructureScore_value.
    + apply calculateKeywordOptimizationScore_value.
  - intros -> -> ->. vm_compute. reflexivity.
Qed.

Lemma analyzeSEO_overallScore_range_witness :
  Seo.overallScore
    (Seo.analyzeSEO Seo.asciiLower (str "draft_1")
       {| Seo.title := []; Seo.content := []; Seo.metaDescription := [];
          Seo.keywords := Some [str "seo"] |}) = 0%float.
Proof.
  exact (proj2 (analyzeSEO_overallScore_range Seo.asciiLower (str "draft_1")
                  {| Seo.title := []; Seo.content := []; Seo.metaDescription := [];
                     Seo.keywords := Some [str "seo"] |}) eq_refl eq_refl eq_refl).
Defined.

(** ** Keyword analysis *)

Section KeywordFacts.
Import Seo.

Lemma zero_div_positive (y : float) :
  PrimFloat.ltb 0 y = true -> (0 / y)%float = 0%float.
Proof.
  intros H. apply Prim2SF_inj. rewrite div_spec.
  rewrite ltb_spec in H.
  change (Prim2SF 0) with (S754_zero false) in *.
  destruct (Prim2SF y) as [s | s | | s m e]; simpl in *; try discriminate;
    destruct s; try discriminate; reflexivity.
Qed.

Lemma densityOf_zero totalWords : densityOf 0 totalWords = 0%float.
Proof.
  unfold densityOf, Num.gtb.
  change (Num.ofZ 0) with 0%float.
  destruct (PrimFloat.ltb 0 totalWords) eqn:E.
  - rewrite (zero_div_positive _ E). reflexivity.
  - reflexivity.
Qed.

Lemma bump_longKeys word wc :
  (3 <= length word)%nat -> longKeys wc -> longKeys (bump word wc).
Proof.
  intros Hw. induction 1 as [|[w n] rest He Hrest IH]; simpl.
  - repeat constructor. exact Hw.
  - destruct (streq w word); constructor; auto.
Qed.

Lemma wordCountsOf_longKeys words : longKeys (wordCountsOf words).
Proof.
  unfold wordCountsOf.
  assert (forall wc, longKeys wc -> longKeys (fold_left countWord words wc)) as H.
  { induction words as [|w words IH]; intros wc Hwc; [exact Hwc |].
    simpl. apply IH. unfold countWord.
    destruct (Nat.leb 3 (length w)) eqn:E; [| exact Hwc].
    apply bump_longKeys; [| exact Hwc]. now apply Nat.leb_le. }
  apply H. constructor.
Qed.

Lemma lookupCount_short wc key :
  longKeys wc -> (length key < 3)%nat -> lookupCount wc key = None.
Proof.
  intros Hwc Hk. unfold lookupCount.
  destruct (List.find _ wc) as [e|] eqn:E; [| reflexivity].
  apply find_some in E as [Hin Heq]. apply bool_decide_eq_true in Heq.
  unfold longKeys in Hwc. rewrite List.Forall_forall in Hwc.
  specialize (Hwc _ Hin). simpl in Hwc. rewrite Heq in Hwc. lia.
Qed.

End KeywordFacts.

(** The entry at the position of a target keyword with a short
    lower-case form. *)
Lemma analyzeKeywords_target_entry
    (toLowerCase : jsstring -> jsstring) (text : jsstring)
    (targets : list jsstring) (i : nat) (kw : jsstring) :
  targets !! i = Some kw ->
  (length (toLowerCase kw) < 3)%nat ->
  Seo.analyzeKeywords toLowerCase text (Some targets) !! i
  = if truthy text && Nat.ltb i 15
    then Some {| Seo.term := kw; Seo.frequency := 0; Seo.density := 0%float |}
    else None.
Proof.
  intros Hkw Hshort. unfold Seo.analyzeKeywords.
  destruct (truthy text); [| reflexivity].
  cbv zeta. simpl andb.
  destruct (Nat.ltb i 15) eqn:Ei.
  - apply Nat.ltb_lt in Ei.
    rewrite lookup_take_lt by exact Ei.
    rewrite lookup_app_l.
    2:{ rewrite length_map. simpl. eapply lookup_lt_Some; eauto. }
    rewrite list_lookup_fmap. simpl. rewrite Hkw. simpl.
    unfold Seo.targetEntry.
    rewrite lookupCount_short by (auto using wordCountsOf_longKeys).
    simpl. now rewrite densityOf_zero.
  - apply Nat.ltb_ge in Ei. now apply lookup_take_ge.
Qed.

(** C10: the entry that the keyword analysis reports for a target keyword
    whose lower-case form has fewer than three code units has frequency 0
    and density 0, whatever the text holds: the table of counts has no key
    that short, while the words counted for the density have two code
    units or more. The entry is reported whenever the text is not empty
    and the keyword is among the first fifteen targets. *)
Theorem analyzeKeywords_short_target
    (toLowerCase : jsstring -> jsstring) (text : jsstring)
    (targets : list jsstring) (i : nat) (kw : jsstring) :
  targets !! i = Some kw ->
  (length (toLowerCase kw) < 3)%nat ->
  (forall e, Seo.analyzeKeywords toLowerCase text (Some targets) !! i = Some e ->
     Seo.term e = kw /\ Seo.frequency e = 0 /\ Seo.density e = 0%float)
  /\ (text <> [] -> (i < 15)%nat ->
      Seo.analyzeKeywords toLowerCase text (Some targets) !! i
      = Some {| Seo.term := kw; Seo.frequency := 0; Seo.density := 0%float |}).
Proof.
  intros Hkw Hshort.
  rewrite (analyzeKeywords_target_entry _ _ _ _ _ Hkw Hshort). split.
  - intros e He. destruct (truthy text && Nat.ltb i 15); [| discriminate].
    injection He as <-. auto.
  - intros Ht Hi. destruct text; [congruence |].
    apply Nat.ltb_lt in Hi. simpl. now rewrite Hi.
Qed.

Lemma analyzeKeywords_short_target_witness :
  Seo.analyzeKeywords Seo.asciiLower (str "AI tools and ai models") (Some [str "tools"; str "AI"]) !! 1%nat
  = Some {| Seo.term := str "AI"; Seo.frequency := 0; Seo.density := 0%float |}.
Proof.
  exact (proj2 (analyzeKeywords_short_target Seo.asciiLower (str "AI tools and ai models")
                  [str "tools"; str "AI"] 1%nat (str "AI") eq_refl ltac:(vm_compute; lia))
           ltac:(discriminate) ltac:(lia)).
Defined.

(** ** ResponseParser *)

Section ParserFacts.
Import Parser.

Lemma matches_Seq_inv r1 r2 st st' :
  matches (Seq r1 r2) st st' ->
  exists st1, matches r1 st st1 /\ matches r2 st1 st'.
Proof. inversion 1; subst. eauto. Qed.

Lemma matches_Group_inv n r st st' :
  matches (Group n r) st st' ->
  exists st1, matches r st st1 /\ st' = capture n st st1.
Proof. inversion 1; subst. eauto. Qed.

(** A group around a pattern without groups records the text it read. *)
Lemma matches_Group_plain n r st st' :
  matches (Group n r) st st' -> noGroups r = true ->
  exists w, spans st w st' /\ caps st' = (n, w) :: caps st.
Proof.
  intros H Hn. apply matches_Group_inv in H as (st1 & H & ->).
  destruct (matches_spans _ _ _ H) as [w Hs].
  exists w. split; [exact Hs |]. simpl.
  rewrite (consumed_spans _ _ _ Hs). f_equal. now apply (matches_noGroups r).
Qed.

Lemma group_lookup m n g rest :
  caps (stop m) = (n, g) :: rest -> group m n = Some g.
Proof. intros E. unfold group. rewrite E. simpl. now rewrite Nat.eqb_refl. Qed.

(** The title pattern: group 1 took part. *)
Lemma titleRe_caps st st' :
  matches titleRe st st' -> exists g, caps st' = (1%nat, g) :: caps st.
Proof.
  intros H. unfold titleRe in H.
  apply matches_Seq_inv in H as (s1 & H1 & H).
  apply matches_Seq_inv in H as (s2 & H2 & H).
  apply matches_Seq_inv in H as (s3 & H3 & H).
  apply matches_Seq_inv in H as (s4 & H4 & H).
  apply matches_noGroups in H1; [| reflexivity].
  apply matches_noGroups in H2; [| reflexivity].
  apply matches_noGroups in H3; [| reflexivity].
  apply matches_noGroups in H; [| reflexivity].
  apply matches_Group_plain in H4 as (w & _ & E); [| reflexivity].
  exists w. congruence.
Qed.

Lemma titleRe_group m text :
  exec titleRe text = Some m -> is_Some (group m 1).
Proof.
  intros H. apply exec_sound in H as (_ & Hc & H).
  apply titleRe_caps in H as [g E]. eexists. eapply group_lookup. exact E.
Qed.

Lemma labelledRe_caps label st st' :
  matches (labelledRe label) st st' -> exists g, caps st' = (1%nat, g) :: caps st.
Proof.
  intros H. unfold labelledRe in H.
  apply matches_Seq_inv in H as (s1 & H1 & H).
  apply matches_Seq_inv in H as (s2 & H2 & H).
  apply matches_Seq_inv in H as (s3 & H3 & H).
  apply matches_Seq_inv in H as (s4 & H4 & H).
  apply matches_Seq_inv in H as (s5 & H5 & H).
  apply matches_noGroups in H1; [| apply noGroups_lit].
  apply matches_noGroups in H2; [| apply noGroups_lit].
  apply matches_noGroups in H3; [| apply noGroups_lit].
  apply matches_noGroups in H4; [| reflexivity].
  apply matches_noGroups in H; [| reflexivity].
  apply matches_Group_plain in H5 as (w & _ & E); [| reflexivity].
  exists w. congruence.
Qed.

Lemma labelledRe_group label m text :
  exec (labelledRe label) text = Some m -> is_Some (group m 1).
Proof.
  intros H. apply exec_sound in H as (_ & Hc & H).
  apply labelledRe_caps in H as [g E]. eexists. eapply group_lookup. exact E.
Qed.

(** The delimiter pattern: group 1 took part, and the input holds a
    delimiter where the match starts. *)
Lemma contentRe_matches st st' :
  matches contentRe st st' ->
  (exists g, caps st' = (1%nat, g) :: caps st)
  /\ exists ws post, after st = str "---" ++ ws ++ 10 :: post
                     /\ forallb isWhiteSpace ws = true.
Proof.
  intros H. unfold contentRe in H.
  apply matches_Seq_inv in H as (s1 & H1 & H).
  apply matches_Seq_inv in H as (s2 & H2 & H).
  apply matches_Seq_inv in H as (s3 & H3 & H).
  apply matches_lit in H1 as [Hs1 E1].
  apply matches_Star_Char in H2 as (ws & Hs2 & Hws & E2).
  apply matches_Char_inv in H3 as (c & Hs3 & Hc10 & E3).
  apply Z.eqb_eq in Hc10. subst c.
  apply matches_Group_plain in H as (w & _ & E); [| reflexivity].
  split.
  - exists w. congruence.
  - exists ws, (after s3). split; [| exact Hws].
    destruct Hs1 as [-> _]. destruct Hs2 as [-> _]. destruct Hs3 as [-> _].
    reflexivity.
Qed.

Lemma contentRe_sound m text :
  exec contentRe text = Some m -> is_Some (group m 1) /\ hasDelimiter text.
Proof.
  intros H. apply exec_sound in H as (Htext & Hc & H).
  apply contentRe_matches in H as [[g E] (ws & post & Ha & Hws)].
  split.
  - eexists. eapply group_lookup. exact E.
  - exists (rev (before (start m))), ws, post.
    split; [| exact Hws]. rewrite <- Htext. now rewrite Ha.
Qed.

(** The heading pattern: both groups took part, and the first holds two
    to six marks. *)
Lemma headingRe_caps multiline st st' :
  matches (headingRe multiline) st st' ->
  exists g1 g2, caps st' = (2%nat, g2) :: (1%nat, g1) :: caps st
                /\ (2 <= length g1 <= 6)%nat.
Proof.
  intros H. unfold headingRe in H.
  apply matches_Seq_inv in H as (s1 & H1 & H).
  apply matches_Seq_inv in H as (s2 & H2 & H).
  apply matches_Seq_inv in H as (s3 & H3 & H).
  apply matches_Seq_inv in H as (s4 & H4 & H).
  apply matches_noGroups in H1; [| reflexivity].
  apply matches_noGroups in H3; [| reflexivity].
  apply matches_noGroups in H; [| reflexivity].
  apply matches_Group_plain in H4 as (g2 & _ & E4); [| reflexivity].
  pose proof H2 as H2'.
  apply matches_Group_plain in H2 as (g1 & Hs & E2); [| reflexivity].
  apply matches_Group_inv in H2' as (s5 & Hb & ->).
  apply matches_between_Char in Hb as (w & Hsw & Hl & _).
  assert (g1 = w) as -> by (eapply spans_inj; [exact Hs | exact Hsw]).
  exists w, g2. split; [congruence | lia].
Qed.

Lemma headingRe_groups multiline m text :
  exec (headingRe multiline) text = Some m ->
  exists g1 g2, group m 1 = Some g1 /\ group m 2 = Some g2
                /\ (2 <= length g1 <= 6)%nat.
Proof.
  intros H. apply exec_sound in H as (_ & Hc & H).
  apply headingRe_caps in H as (g1 & g2 & E & Hl).
  exists g1, g2. unfold group. rewrite E. simpl. auto.
Qed.

Lemma titleOf_total text : is_Some (titleOf text).
Proof.
  unfold titleOf. destruct (exec titleRe text) as [m|] eqn:E; [| eauto].
  destruct (titleRe_group _ _ E) as [g ->]. simpl. eauto.
Qed.

Lemma metaDescriptionOf_total text : is_Some (metaDescriptionOf text).
Proof.
  unfold metaDescriptionOf, metaRe.
  destruct (exec (labelledRe _) text) as [m|] eqn:E; [| eauto].
  destruct (labelledRe_group _ _ _ E) as [g ->]. simpl. eauto.
Qed.

Lemma namesOf_total label text : is_Some (namesOf (labelledRe label) text).
Proof.
  unfold namesOf.
  destruct (exec (labelledRe _) text) as [m|] eqn:E; [| eauto].
  destruct (labelledRe_group _ _ _ E) as [g ->]. simpl. eauto.
Qed.

Lemma fullContentOf_bodyOf text : fullContentOf text = Some (bodyOf text).
Proof.
  unfold fullContentOf, bodyOf.
  destruct (exec contentRe text) as [m|] eqn:E; [| reflexivity].
  destruct (contentRe_sound _ _ E) as [[g ->] _]. reflexivity.
Qed.


Lemma headingOf_valid m :
  exists hs, headingOf m = Some hs /\ Forall validHeading hs.
Proof.
  unfold headingOf.
  destruct (exec (headingRe false) m) as [lm|] eqn:E; [| eauto].
  destruct (headingRe_groups _ _ _ E) as (g1 & g2 & -> & -> & Hl). simpl.
  eexists. split; [reflexivity |]. constructor; [| constructor].
  split; simpl; [lia |].
  intros C. apply app_eq_nil in C as [_ C]. vm_compute in C. discriminate.
Qed.

Lemma headingsOf_valid fullContent :
  exists hs, headingsOf fullContent = Some hs /\ Forall validHeading hs.
Proof.
  unfold headingsOf.
  induction (matchAll (headingRe true) fullContent) as [|m ms IH].
  - exists []. split; [reflexivity | constructor].
  - destruct IH as (hs & E & Hv).
    destruct (headingOf_valid m) as (h & Eh & Hh).
    destruct (mapM headingOf ms) as [hss|] eqn:Em; [| discriminate].
    injection E as <-.
    exists (h ++ concat hss). split.
    + simpl. rewrite Eh. simpl. rewrite Em. reflexivity.
    + apply Forall_app. auto.
Qed.










End ParserFacts.

Section ParserFacts2.
Import Parser.





End ParserFacts2.



(** C4: on the worked example, with a meta description of 150 code
    units, the parser returns the title, the two categories, the three
    tags and the two headings of level 2 of the specification, in that
    order. *)
Theorem parseMarkdownArticle_worked_example :
  let s := Parser.parseMarkdownArticle Parser.exampleInput in
  length Parser.exampleMeta = 150%nat
  /\ Parser.titles s = [str "初心者向けSEOガイド"]
  /\ Parser.new (Parser.categories s) = [str "SEO"; str "マーケティング"]
  /\ Parser.new (Parser.tags s) = [str "SEO"; str "初心者"; str "ガイド"]
  /\ map (fun h => (Parser.level h, Parser.text h)) (Parser.headings (Parser.structure s))
     = [(2, str "SEOとは"); (2, str "実践方法")]
  /\ Parser.metaDescriptions s = [Parser.exampleMeta].
Proof. vm_compute. repeat split. Qed.


(** * Further properties *)

(** ** HistoryStore: updates, removal and queries *)

Section HistoryOpsFacts.
Import History HistoryOps.

Lemma streq_false (a b : jsstring) : streq a b = false <-> a <> b.
Proof. unfold streq. apply bool_decide_eq_false. Qed.

Lemma findIndex_find promptId history :
  findById promptId history =
  (index ← findIndex promptId history; history !! index).
Proof.
  unfold findById.
  induction history as [|x rest IH]; simpl; [reflexivity |].
  destruct (streq (id x) promptId); simpl; [reflexivity |].
  rewrite IH. destruct (findIndex promptId rest); reflexivity.
Qed.

Lemma findIndex_None promptId history :
  findIndex promptId history = None <->
  Forall (fun item => id item <> promptId) history.
Proof.
  induction history as [|x rest IH]; simpl.
  - split; [constructor | reflexivity].
  - destruct (streq (id x) promptId) eqn:E.
    + apply streq_true in E. split; [discriminate |].
      intros H. inversion H; subst. congruence.
    + apply streq_false in E.
      destruct (findIndex promptId rest); simpl.
      * split; [discriminate |]. intros H'. inversion H'; subst.
        destruct IH as [_ IH]. specialize (IH ltac:(assumption)). discriminate.
      * split; [| reflexivity]. intros _. constructor; [assumption | now apply IH].
Qed.

Lemma findById_None promptId history :
  findById promptId history = None <->
  Forall (fun item => id item <> promptId) history.
Proof.
  rewrite <- findIndex_None, findIndex_find.
  destruct (findIndex promptId history) as [index|] eqn:E; simpl; [| tauto].
  destruct (findIndex_lookup _ _ _ E) as (item & -> & _). split; discriminate.
Qed.

Lemma findById_Some promptId history item :
  findById promptId history = Some item -> In item history /\ id item = promptId.
Proof.
  unfold findById. intros H. apply find_some in H. destruct H as [H1 H2].
  split; [exact H1 | now apply streq_true].
Qed.

Lemma findIndex_insert_other promptId q history index item' :
  findIndex promptId history = Some index ->
  id item' = promptId ->
  q <> promptId ->
  findById q (<[index := item']> history) = findById q history.
Proof.
  unfold findById.
  revert index. induction history as [|x rest IH]; intros index; simpl; [discriminate |].
  destruct (streq (id x) promptId) eqn:E.
  - intros [= <-] Hid Hq. simpl. apply streq_true in E.
    assert (streq (id item') q = false) as ->.
    { apply streq_false. congruence. }
    assert (streq (id x) q = false) as ->.
    { apply streq_false. congruence. }
    reflexivity.
  - destruct (findIndex promptId rest) as [k|] eqn:Ek; simpl; [| discriminate].
    intros [= <-] Hid Hq. simpl.
    destruct (streq (id x) q); [reflexivity |]. now apply (IH k).
Qed.

Lemma merge_id item u : u_id u = None -> id (merge item u) = id item.
Proof. intros H. unfold merge. simpl. now rewrite H. Qed.

Lemma updatePromptHistory_None promptId u st :
  findIndex promptId (getPromptHistory st) = None ->
  updatePromptHistory promptId u st = (false, st).
Proof. intros H. unfold updatePromptHistory. now rewrite H. Qed.

Lemma updatePromptHistory_Some promptId u st index :
  findIndex promptId (getPromptHistory st) = Some index ->
  exists item, getPromptHistory st !! index = Some item /\ id item = promptId /\
    updatePromptHistory promptId u st
    = (true, savePromptHistory (<[index := merge item u]> (getPromptHistory st)) st).
Proof.
  intros H. unfold updatePromptHistory. rewrite H.
  destruct (findIndex_lookup _ _ _ H) as (item & Hl & Hid).
  exists item. rewrite Hl. auto.
Qed.

Lemma addResultingArticle_None promptId article st :
  findIndex promptId (getPromptHistory st) = None ->
  addResultingArticle promptId article st = (false, st).
Proof. intros H. unfold addResultingArticle. now rewrite H. Qed.

(** The records that [deletePromptHistory] keeps. *)
Lemma deletePromptHistory_history promptId st :
  getPromptHistory (snd (deletePromptHistory promptId st))
  = List.filter (fun item => negb (streq (id item) promptId)) (getPromptHistory st).
Proof.
  unfold deletePromptHistory.
  destruct (Nat.eqb _ _) eqn:E; simpl; [| reflexivity].
  apply Nat.eqb_eq in E. symmetry. apply forallb_filter_id.
  now apply filter_length_forallb.
Qed.

Lemma filter_other_ids promptId history :
  Forall (fun item => id item <> promptId)
    (List.filter (fun item => negb (streq (id item) promptId)) history).
Proof.
  apply Forall_forall. intros x Hx. apply list_elem_of_In in Hx.
  apply filter_In in Hx. destruct Hx as [_ Hx].
  apply negb_true_iff in Hx. now apply streq_false.
Qed.

Lemma filter_keeps_all promptId history :
  Forall (fun item => id item <> promptId) history ->
  List.filter (fun item => negb (streq (id item) promptId)) history = history.
Proof.
  intros H. apply forallb_filter_id. apply forallb_forall. intros x Hx.
  apply negb_true_iff. apply streq_false.
  rewrite Forall_forall in H. apply H. now apply list_elem_of_In.
Qed.

Lemma deletePromptHistory_answer promptId st :
  fst (deletePromptHistory promptId st) = true <->
  exists item, In item (getPromptHistory st) /\ id item = promptId.
Proof.
  unfold deletePromptHistory.
  destruct (Nat.eqb _ _) eqn:E; simpl.
  - apply Nat.eqb_eq in E. apply filter_length_forallb in E.
    split; [discriminate |]. intros (item & Hin & Hid).
    rewrite forallb_forall in E. specialize (E _ Hin).
    apply negb_true_iff, streq_false in E. congruence.
  - split; [intros _ | reflexivity].
    apply Nat.eqb_neq in E.
    destruct (findById promptId (getPromptHistory st)) as [item|] eqn:Ef.
    + apply findById_Some in Ef. eauto.
    + apply findById_None in Ef. rewrite (filter_keeps_all _ _ Ef) in E. congruence.
Qed.

Lemma deletePromptHistory_false promptId st :
  fst (deletePromptHistory promptId st) = false ->
  snd (deletePromptHistory promptId st) = st.
Proof.
  unfold deletePromptHistory. destruct (Nat.eqb _ _); simpl; [reflexivity | discriminate].
Qed.

(** X1: [updatePromptHistory] with an update that carries no [id]. When
    no record has the identifier it returns [false] and leaves the store
    as it is. Otherwise it returns [true], the number of records is
    unchanged, the first record with the identifier becomes its merge with
    the update, and the record found under any other identifier is the
    one found before. *)
Theorem updatePromptHistory_first_record promptId u st (Hid : u_id u = None) :
  match findById promptId (getPromptHistory st) with
  | None => updatePromptHistory promptId u st = (false, st)
  | Some item =>
      let st' := snd (updatePromptHistory promptId u st) in
      fst (updatePromptHistory promptId u st) = true
      /\ length (getPromptHistory st') = length (getPromptHistory st)
      /\ findById promptId (getPromptHistory st') = Some (merge item u)
      /\ forall q, q <> promptId ->
           findById q (getPromptHistory st') = findById q (getPromptHistory st)
  end.
Proof.
  rewrite findIndex_find.
  destruct (findIndex promptId (getPromptHistory st)) as [index|] eqn:Ei; simpl.
  - destruct (updatePromptHistory_Some _ u _ _ Ei) as (item & Hl & Hi & ->).
    rewrite Hl. cbv zeta. simpl fst. simpl snd.
    split; [reflexivity |]. unfold getPromptHistory at 1 3 4. simpl.
    split; [apply length_insert |].
    split.
    + rewrite findIndex_find.
      rewrite (findIndex_insert _ _ _ item _ Ei Hl (merge_id _ _ Hid)). simpl.
      apply list_lookup_insert_eq. now apply lookup_lt_Some in Hl.
    + intros q Hq. eapply findIndex_insert_other; eauto.
      rewrite merge_id; auto.
  - now apply updatePromptHistory_None.
Qed.

Lemma updatePromptHistory_first_record_witness :
  u_id (ratingUpdate 5 None) = None /\
  match findById (str "prompt_R") (getPromptHistory sampleStore) with
  | None => updatePromptHistory (str "prompt_R") (ratingUpdate 5 None) sampleStore
            = (false, sampleStore)
  | Some item =>
      let st' := snd (updatePromptHistory (str "prompt_R") (ratingUpdate 5 None) sampleStore) in
      fst (updatePromptHistory (str "prompt_R") (ratingUpdate 5 None) sampleStore) = true
      /\ length (getPromptHistory st') = length (getPromptHistory sampleStore)
      /\ findById (str "prompt_R") (getPromptHistory st')
         = Some (merge item (ratingUpdate 5 None))
      /\ forall q, q <> str "prompt_R" ->
           findById q (getPromptHistory st') = findById q (getPromptHistory sampleStore)
  end.
Proof.
  split; [reflexivity |].
  apply (updatePromptHistory_first_record (str "prompt_R") (ratingUpdate 5 None) sampleStore).
  reflexivity.
Defined.

(** X2: [deletePromptHistory] keeps exactly the records whose identifier
    differs from the one given, in their order, whichever answer it
    returns. It answers [true] exactly when some record had the
    identifier, and the history is then strictly shorter; on [false] the
    store is unchanged; afterwards no record is found under the
    identifier. *)
Theorem deletePromptHistory_removes_every_record promptId st :
  let st' := snd (deletePromptHistory promptId st) in
  getPromptHistory st'
  = List.filter (fun item => negb (streq (id item) promptId)) (getPromptHistory st)
  /\ (fst (deletePromptHistory promptId st) = true <->
      exists item, In item (getPromptHistory st) /\ id item = promptId)
  /\ (fst (deletePromptHistory promptId st) = true ->
      (length (getPromptHistory st') < length (getPromptHistory st))%nat)
  /\ (fst (deletePromptHistory promptId st) = false -> st' = st)
  /\ findById promptId (getPromptHistory st') = None.
Proof.
  cbv zeta. split; [apply deletePromptHistory_history |].
  split; [apply deletePromptHistory_answer |].
  split; [| split; [apply deletePromptHistory_false |]].
  - unfold deletePromptHistory. destruct (Nat.eqb _ _) eqn:E; simpl; [discriminate |].
    intros _. apply Nat.eqb_neq in E. unfold getPromptHistory at 1. simpl.
    pose proof (filter_length_le (fun item => negb (streq (id item) promptId))
                  (getPromptHistory st)). lia.
  - apply findById_None. rewrite deletePromptHistory_history. apply filter_other_ids.
Qed.

(** X3: once an identifier has been deleted, [addResultingArticle],
    [updatePromptHistory] (and so [addUserRating] and
    [addSEOMetricsToHistory]) and a second [deletePromptHistory] on it
    all return [false] and leave the store as it is. *)
Theorem deletePromptHistory_then_calls_fail promptId article u st :
  let st' := snd (deletePromptHistory promptId st) in
  addResultingArticle promptId article st' = (false, st')
  /\ updatePromptHistory promptId u st' = (false, st')
  /\ deletePromptHistory promptId st' = (false, st').
Proof.
  cbv zeta.
  assert (Forall (fun item => id item <> promptId)
            (getPromptHistory (snd (deletePromptHistory promptId st)))) as Hno.
  { rewrite deletePromptHistory_history. apply filter_other_ids. }
  split; [| split].
  - apply addResultingArticle_None. now apply findIndex_None.
  - apply updatePromptHistory_None. now apply findIndex_None.
  - unfold deletePromptHistory at 1 3. rewrite (filter_keeps_all _ _ Hno).
    now rewrite Nat.eqb_refl.
Qed.

(** X4: adding a record and deleting it restores the history. When no
    stored record has the generated identifier and the record returned by
    [addPromptHistory] carries it (the call created a record rather than
    returning a duplicate), [deletePromptHistory] on that identifier
    returns [true] and the history is the one before the addition. *)
Theorem addPromptHistory_then_delete now newId createdNow data st :
  Forall (fun item => id item <> newId) (getPromptHistory st) ->
  id (fst (addPromptHistory now newId createdNow data st)) = newId ->
  let st1 := snd (addPromptHistory now newId createdNow data st) in
  fst (deletePromptHistory newId st1) = true
  /\ getPromptHistory (snd (deletePromptHistory newId st1)) = getPromptHistory st.
Proof.
  intros Hfresh Hnew. cbv zeta.
  assert (getPromptHistory (snd (addPromptHistory now newId createdNow data st))
          = newRecord newId createdNow data :: getPromptHistory st) as Hh.
  { revert Hnew. unfold addPromptHistory.
    destruct (cachedRecord now st) as [existing|] eqn:Ec.
    - simpl. intros Hnew. exfalso.
      unfold cachedRecord in Ec. destruct (lastPromptHistoryId st); [| discriminate].
      destruct (_ && _); [| discriminate].
      apply find_some in Ec. destruct Ec as [Hin _].
      rewrite Forall_forall in Hfresh. apply (Hfresh existing); [| exact Hnew].
      now apply list_elem_of_In.
    - destruct (List.find _ _) as [dup|] eqn:Ed.
      + simpl. intros Hnew. exfalso. apply find_some in Ed. destruct Ed as [Hin _].
        rewrite Forall_forall in Hfresh. apply (Hfresh dup); [| exact Hnew].
        now apply list_elem_of_In.
      + intros _. reflexivity. }
  split.
  - apply deletePromptHistory_answer. rewrite Hh.
    exists (newRecord newId createdNow data). split; [now left | reflexivity].
  - rewrite deletePromptHistory_history, Hh. simpl. rewrite streq_refl. simpl.
    now apply filter_keeps_all.
Qed.

Lemma addPromptHistory_then_delete_witness :
  Forall (fun item => id item <> str "prompt_T") (getPromptHistory sampleStore)
  /\ id (fst (addPromptHistory 1700000200000 (str "prompt_T") 1700000200000
                (sampleData (str "c")) sampleStore)) = str "prompt_T"
  /\ fst (deletePromptHistory (str "prompt_T")
            (snd (addPromptHistory 1700000200000 (str "prompt_T") 1700000200000
                    (sampleData (str "c")) sampleStore))) = true
  /\ getPromptHistory (snd (deletePromptHistory (str "prompt_T")
            (snd (addPromptHistory 1700000200000 (str "prompt_T") 1700000200000
                    (sampleData (str "c")) sampleStore))))
     = getPromptHistory sampleStore.
Proof.
  assert (Forall (fun item => id item <> str "prompt_T") (getPromptHistory sampleStore)) as H1.
  { repeat constructor; vm_compute; discriminate. }
  assert (id (fst (addPromptHistory 1700000200000 (str "prompt_T") 1700000200000
                (sampleData (str "c")) sampleStore)) = str "prompt_T") as H2.
  { vm_compute. reflexivity. }
  split; [exact H1 |]. split; [exact H2 |].
  exact (addPromptHistory_then_delete 1700000200000 (str "prompt_T") 1700000200000
           (sampleData (str "c")) sampleStore H1 H2).
Defined.

End HistoryOpsFacts.

Section HistoryQueryFacts.
Import History HistoryOps.

Lemma filter_sublist {A} (f : A -> bool) (l : list A) : sublist (List.filter f l) l.
Proof.
  induction l as [|x l IH]; simpl; [constructor |].
  destruct (f x); [now apply sublist_skip | now apply sublist_cons].
Qed.

Lemma given_Some (s : option jsstring) :
  given s = true <-> exists v, s = Some v /\ v <> [].
Proof.
  destruct s as [[|c t]|]; simpl.
  - split; [discriminate |]. intros (v & [= <-] & H). congruence.
  - split; [| reflexivity]. intros _. exists (c :: t). split; [reflexivity | discriminate].
  - split; [discriminate |]. intros (v & H & _). discriminate.
Qed.

Lemma given_false (s : option jsstring) :
  given s = false <-> forall v, s = Some v -> v = [].
Proof.
  destruct s as [[|c t]|]; simpl.
  - split; [| reflexivity]. now intros _ v [= <-].
  - split; [discriminate |]. intros H. specialize (H _ eq_refl). discriminate.
  - split; [| reflexivity]. intros _ v. discriminate.
Qed.

Lemma filter_and {A} (f g : A -> bool) (l : list A) :
  List.filter g (List.filter f l) = List.filter (fun x => f x && g x) l.
Proof.
  induction l as [|x l IH]; simpl; [reflexivity |].
  destruct (f x); simpl; [| exact IH]. destruct (g x); now rewrite IH.
Qed.

Lemma filter_if {A} (c : bool) (f : A -> bool) (l : list A) :
  (if c then List.filter f l else l) = List.filter (fun x => if c then f x else true) l.
Proof. destruct c; [reflexivity | symmetry; apply filter_true]. Qed.

Lemma filter_match {A B} (o : option B) (f : B -> A -> bool) (l : list A) :
  match o with Some v => List.filter (f v) l | None => l end
  = List.filter (fun x => match o with Some v => f v x | None => true end) l.
Proof. destruct o; [reflexivity | symmetry; apply filter_true]. Qed.

Lemma filterPromptHistory_accepts filter st :
  filterPromptHistory filter st = List.filter (accepts filter) (getPromptHistory st).
Proof.
  unfold filterPromptHistory. cbv zeta.
  rewrite (filter_match (f_dateRange filter) inDateRange).
  rewrite (filter_if (given (f_siteId filter))).
  rewrite (filter_if (given (f_modelUsed filter))).
  rewrite (filter_if (_ || _)).
  rewrite (filter_match (f_hasArticles filter) articlesMatch).
  rewrite (filter_match (f_userRating filter) ratedAs).
  rewrite !filter_and. apply filter_ext. intros item.
  unfold accepts. now rewrite !andb_assoc.
Qed.

Lemma inDateRange_true r item :
  inDateRange r item = true <->
  exists a b, from r = Some a /\ to r = Some b /\ a <= generatedAt item <= b.
Proof.
  unfold inDateRange. destruct (from r) as [a|], (to r) as [b|].
  - rewrite andb_true_iff, !Z.leb_le. split.
    + intros H. exists a, b. auto.
    + intros (a' & b' & [= <-] & [= <-] & H). exact H.
  - split; [discriminate |]. intros (a' & b' & _ & H & _). discriminate.
  - split; [discriminate |]. intros (a' & b' & H & _). discriminate.
  - split; [discriminate |]. intros (a' & b' & H & _). discriminate.
Qed.

Lemma inScoreRange_true lo hi item :
  inScoreRange lo hi item = true <->
  exists metrics, seoMetrics item = Some metrics
    /\ (forall v, lo = Some v -> Num.geb (Seo.overallScore metrics) v = true)
    /\ (forall v, hi = Some v -> Num.leb (Seo.overallScore metrics) v = true).
Proof.
  unfold inScoreRange. destruct (seoMetrics item) as [m|].
  - cbv zeta. split.
    + intros H. exists m. split; [reflexivity |].
      destruct lo as [l|], hi as [h|]; simpl in H.
      * apply andb_true_iff in H. destruct H. split; now intros v [= <-].
      * split; [now intros v [= <-] | discriminate].
      * split; [discriminate | now intros v [= <-]].
      * split; discriminate.
    + intros (m' & [= <-] & Hlo & Hhi).
      destruct lo as [l|], hi as [h|]; simpl.
      * rewrite (Hlo _ eq_refl), (Hhi _ eq_refl). reflexivity.
      * now rewrite (Hlo _ eq_refl).
      * now rewrite (Hhi _ eq_refl).
      * reflexivity.
  - split; [discriminate |]. intros (m & H & _). discriminate.
Qed.

Lemma articlesMatch_true wanted item :
  articlesMatch wanted item = true <-> (wanted = true <-> resultingArticles item <> []).
Proof.
  unfold articlesMatch. cbv zeta.
  destruct (resultingArticles item) as [|a l]; destruct wanted; simpl.
  - split; [discriminate |]. intros [H _]. now specialize (H eq_refl).
  - split; [| reflexivity]. intros _. split; [discriminate | congruence].
  - split; [| reflexivity]. intros _. split; [discriminate | reflexivity].
  - split; [discriminate |]. intros [_ H]. exfalso. assert (false = true) by now apply H. discriminate.
Qed.

Lemma and6 (A B C D E F A' B' C' D' E' F' : Prop) :
  (A <-> A') -> (B <-> B') -> (C <-> C') -> (D <-> D') -> (E <-> E') -> (F <-> F') ->
  (((((A /\ B) /\ C) /\ D) /\ E) /\ F <-> A' /\ B' /\ C' /\ D' /\ E' /\ F').
Proof. tauto. Qed.

Lemma accepts_true filter item :
  accepts filter item = true <->
  (forall r, f_dateRange filter = Some r ->
     exists a b, from r = Some a /\ to r = Some b /\ a <= generatedAt item <= b)
  /\ (forall s, f_siteId filter = Some s -> s <> [] -> siteId item = s)
  /\ (forall m, f_modelUsed filter = Some m -> m <> [] -> modelUsed item = m)
  /\ (is_Some (f_minSeoScore filter) \/ is_Some (f_maxSeoScore filter) ->
      exists metrics, seoMetrics item = Some metrics
        /\ (forall lo, f_minSeoScore filter = Some lo ->
              Num.geb (Seo.overallScore metrics) lo = true)
        /\ (forall hi, f_maxSeoScore filter = Some hi ->
              Num.leb (Seo.overallScore metrics) hi = true))
  /\ (forall w, f_hasArticles filter = Some w ->
       (w = true <-> resultingArticles item <> []))
  /\ (forall r, f_userRating filter = Some r -> userRating item = Some r).
Proof.
  unfold accepts. rewrite !andb_true_iff.
  apply and6.
  - destruct (f_dateRange filter) as [r|].
    + rewrite inDateRange_true. split; [now intros H r' [= <-] | intros H; now apply H].
    + split; [discriminate | reflexivity].
  - destruct (given (f_siteId filter)) eqn:E.
    + apply given_Some in E. destruct E as (v & -> & Hv). simpl. unfold onSite.
      rewrite streq_true. split; [now intros H s [= <-] | intros H; now apply H].
    + rewrite given_false in E. split; [| reflexivity].
      intros _ s Hs Hne. now specialize (E _ Hs).
  - destruct (given (f_modelUsed filter)) eqn:E.
    + apply given_Some in E. destruct E as (v & -> & Hv). simpl. unfold byModel.
      rewrite streq_true. split; [now intros H s [= <-] | intros H; now apply H].
    + rewrite given_false in E. split; [| reflexivity].
      intros _ s Hs Hne. now specialize (E _ Hs).
  - destruct (bool_decide (is_Some (f_minSeoScore filter))
              || bool_decide (is_Some (f_maxSeoScore filter))) eqn:E.
    + rewrite inScoreRange_true. split; [auto |]. intros H. apply H.
      apply orb_true_iff in E. destruct E as [E|E]; apply bool_decide_eq_true in E; auto.
    + apply orb_false_iff in E. destruct E as [E1 E2].
      apply bool_decide_eq_false in E1, E2. split; [| reflexivity].
      intros _ [H|H]; contradiction.
  - destruct (f_hasArticles filter) as [w|].
    + rewrite articlesMatch_true. split; [now intros H w' [= <-] | intros H; now apply H].
    + split; [discriminate | reflexivity].
  - destruct (f_userRating filter) as [r|].
    + unfold ratedAs. rewrite bool_decide_eq_true.
      split; [now intros H r' [= <-] | intros H; now apply H].
    + split; [discriminate | reflexivity].
Qed.

(** X5: [filterPromptHistory] returns the stored records that meet every
    criterion given, in stored order: the result is a sublist of the
    history, and a record is in it exactly when it is stored and lies in
    the date range (both ends valid dates), is of the site and of the
    model when these are non-empty texts, has SEO metrics whose overall
    score respects the bounds when a bound is given, has articles or has
    none as asked, and has exactly the rating asked for. A site or model
    given as the empty text is no criterion. *)
Theorem filterPromptHistory_selects filter st :
  sublist (filterPromptHistory filter st) (getPromptHistory st)
  /\ forall item,
      In item (filterPromptHistory filter st) <->
      In item (getPromptHistory st)
      /\ (forall r, f_dateRange filter = Some r ->
           exists a b, from r = Some a /\ to r = Some b /\ a <= generatedAt item <= b)
      /\ (forall s, f_siteId filter = Some s -> s <> [] -> siteId item = s)
      /\ (forall m, f_modelUsed filter = Some m -> m <> [] -> modelUsed item = m)
      /\ (is_Some (f_minSeoScore filter) \/ is_Some (f_maxSeoScore filter) ->
          exists metrics, seoMetrics item = Some metrics
            /\ (forall lo, f_minSeoScore filter = Some lo ->
                  Num.geb (Seo.overallScore metrics) lo = true)
            /\ (forall hi, f_maxSeoScore filter = Some hi ->
                  Num.leb (Seo.overallScore metrics) hi = true))
      /\ (forall w, f_hasArticles filter = Some w ->
           (w = true <-> resultingArticles item <> []))
      /\ (forall r, f_userRating filter = Some r -> userRating item = Some r).
Proof.
  rewrite filterPromptHistory_accepts. split; [apply filter_sublist |].
  intros item. rewrite filter_In, accepts_true. reflexivity.
Qed.

End HistoryQueryFacts.

Section UpsertFacts.
Import History HistoryOps.

Context {A X : Type} (init : A) (key : X -> jsstring) (f : X -> A -> A).

Lemma upsert_keys (k : jsstring) (g : A -> A) (table : list (jsstring * A)) :
  (In k (map fst table) /\ map fst (upsert k init g table) = map fst table)
  \/ (~ In k (map fst table) /\ map fst (upsert k init g table) = map fst table ++ [k]).
Proof.
  induction table as [|[k0 v0] rest IH]; simpl.
  - right. tauto.
  - destruct (streq k0 k) eqn:E; simpl.
    + apply streq_true in E. subst k0. left. auto.
    + apply streq_false in E. destruct IH as [[Hin ->]|[Hno ->]].
      * left. auto.
      * right. split; [tauto | reflexivity].
Qed.

Lemma upsert_NoDup (k : jsstring) (g : A -> A) (table : list (jsstring * A)) :
  List.NoDup (map fst table) -> List.NoDup (map fst (upsert k init g table)).
Proof.
  intros H. destruct (upsert_keys k g table) as [[_ ->]|[Hno ->]]; [exact H |].
  apply NoDup_ListNoDup. apply NoDup_app. split; [now apply NoDup_ListNoDup |].
  split; [| apply NoDup_singleton].
  intros x Hx Hx'. apply list_elem_of_singleton in Hx'. subst x.
  now apply list_elem_of_In in Hx.
Qed.

Lemma upsert_In (k : jsstring) (g : A -> A) (table : list (jsstring * A)) k' v :
  List.NoDup (map fst table) ->
  In (k', v) (upsert k init g table) <->
  (k' <> k /\ In (k', v) table)
  \/ (k' = k /\ ((exists v0, In (k, v0) table /\ v = g v0)
                \/ (~ In k (map fst table) /\ v = g init))).
Proof.
  induction table as [|[k0 v0] rest IH]; simpl; intros Hnd.
  - split.
    + intros [[= <- <-]|[]]. right. split; [reflexivity |]. right. tauto.
    + intros [[_ []]|[-> [(v0 & [] & _)|[_ ->]]]]. now left.
  - inversion Hnd as [|? ? Hk0 Hnd']; subst.
    destruct (streq k0 k) eqn:E; simpl.
    + apply streq_true in E. subst k0. split.
      * intros [[= <- <-]|Hin].
        -- right. split; [reflexivity |]. left. exists v0. split; [now left | reflexivity].
        -- left. split; [| now right]. intros ->. apply Hk0.
           apply in_map_iff. exists (k, v). auto.
      * intros [[Hne [[= -> ->]|Hin]]|[-> [(v1 & [[= <-]|Hin] & ->)|[Hno ->]]]].
        -- congruence.
        -- now right.
        -- now left.
        -- exfalso. apply Hk0. apply in_map_iff. exists (k, v1). auto.
        -- exfalso. apply Hno. now left.
    + apply streq_false in E. rewrite (IH Hnd'). split.
      * intros [[= <- <-]|[[Hne Hin]|[-> [(v1 & Hin & ->)|[Hno ->]]]]].
        -- left. split; [exact E | now left].
        -- left. split; [exact Hne | now right].
        -- right. split; [reflexivity |]. left. exists v1. split; [now right | reflexivity].
        -- right. split; [reflexivity |]. right. split; [| reflexivity].
           intros [H|H]; [congruence | contradiction].
      * intros [[Hne [[= -> ->]|Hin]]|[-> [(v1 & [[= -> ->]|Hin] & ->)|[Hno ->]]]].
        -- now left.
        -- right. left. auto.
        -- congruence.
        -- right. right. split; [reflexivity |]. left. eauto.
        -- right. right. split; [reflexivity |]. right. split; [tauto | reflexivity].
Qed.

Local Abbreviation tableOf := (HistoryOps.tableOf init key f).
Local Abbreviation valueOf := (HistoryOps.valueOf init key f).

Lemma tableOf_snoc l x : tableOf (l ++ [x]) = upsert (key x) init (f x) (tableOf l).
Proof. unfold HistoryOps.tableOf. now rewrite fold_left_app. Qed.

Lemma valueOf_snoc k l x :
  valueOf k (l ++ [x]) = if streq (key x) k then f x (valueOf k l) else valueOf k l.
Proof.
  unfold HistoryOps.valueOf. rewrite List.filter_app. simpl.
  destruct (streq (key x) k); [| now rewrite app_nil_r].
  now rewrite fold_left_app.
Qed.

Lemma valueOf_absent k l :
  (forall x, In x l -> key x <> k) -> valueOf k l = init.
Proof.
  intros H. unfold HistoryOps.valueOf.
  replace (List.filter (fun x => streq (key x) k) l) with (@nil X); [reflexivity |].
  symmetry. induction l as [|x l IH]; simpl; [reflexivity |].
  assert (streq (key x) k = false) as ->.
  { apply streq_false. apply H. now left. }
  apply IH. intros y Hy. apply H. now right.
Qed.

Lemma tableOf_spec l :
  List.NoDup (map fst (tableOf l))
  /\ (forall k, In k (map fst (tableOf l)) <-> exists x, In x l /\ key x = k)
  /\ (forall k v, In (k, v) (tableOf l) -> v = valueOf k l).
Proof.
  induction l as [|x l IH] using rev_ind.
  - split; [constructor |]. split.
    + intros k. simpl. split; [tauto |]. intros (x & [] & _).
    + intros k v [].
  - destruct IH as (Hnd & Hkeys & Hval). rewrite tableOf_snoc.
    split; [now apply upsert_NoDup |]. split.
    + intros k.
      destruct (upsert_keys (key x) (f x) (tableOf l)) as [[Hin ->]|[Hno ->]].
      * rewrite Hkeys. split.
        -- intros (y & Hy & E). exists y. split; [apply in_or_app; now left | exact E].
        -- intros (y & Hy & E). apply in_app_or in Hy. destruct Hy as [Hy|[<-|[]]]; [eauto |].
           subst k. now apply Hkeys.
      * rewrite in_app_iff, Hkeys. simpl. split.
        -- intros [(y & Hy & E)|[<-|[]]].
           ++ exists y. split; [apply in_or_app; now left | exact E].
           ++ exists x. split; [apply in_or_app; right; now left | reflexivity].
        -- intros (y & Hy & E). apply in_app_or in Hy. destruct Hy as [Hy|[<-|[]]]; eauto.
    + intros k v Hin. apply (upsert_In _ _ _ _ _ Hnd) in Hin. rewrite valueOf_snoc.
      destruct Hin as [[Hne Hin]|[-> [(v0 & Hin & ->)|[Hno ->]]]].
      * assert (streq (key x) k = false) as -> by (apply streq_false; congruence).
        now apply Hval.
      * rewrite streq_refl. f_equal. now apply Hval.
      * rewrite streq_refl. f_equal. symmetry. apply valueOf_absent.
        intros y Hy E. apply Hno. apply Hkeys. eauto.
Qed.

(** A quantity that every record adds to, summed over the table. *)
Lemma upsert_total (mu : A -> Z) (w : Z) k g (table : list (jsstring * A)) :
  (forall v, mu (g v) = mu v + w) -> mu init = 0 ->
  foldr Z.add 0 (map (fun e => mu (snd e)) (upsert k init g table))
  = foldr Z.add 0 (map (fun e => mu (snd e)) table) + w.
Proof.
  intros Hg Hi. induction table as [|[k0 v0] rest IH]; simpl.
  - rewrite Hg, Hi. lia.
  - destruct (streq k0 k); simpl.
    + rewrite Hg. lia.
    + rewrite IH. lia.
Qed.

Lemma tableOf_total (mu : A -> Z) (w : X -> Z) l :
  (forall x v, mu (f x v) = mu v + w x) -> mu init = 0 ->
  foldr Z.add 0 (map (fun e => mu (snd e)) (tableOf l))
  = fold_left (fun sum x => sum + w x) l 0.
Proof.
  intros Hf Hi. induction l as [|x l IH] using rev_ind; [reflexivity |].
  rewrite tableOf_snoc, fold_left_app. simpl.
  rewrite (upsert_total mu (w x)); [now rewrite IH | apply Hf | exact Hi].
Qed.

Lemma valueOf_total (mu : A -> Z) (w : X -> Z) k l :
  (forall x v, mu (f x v) = mu v + w x) -> mu init = 0 ->
  mu (valueOf k l)
  = fold_left (fun sum x => sum + w x) (List.filter (fun x => streq (key x) k) l) 0.
Proof.
  intros Hf Hi. unfold HistoryOps.valueOf.
  induction (List.filter (fun x => streq (key x) k) l) as [|x l' IH] using rev_ind.
  - exact Hi.
  - rewrite !fold_left_app. simpl. now rewrite Hf, IH.
Qed.

End UpsertFacts.

Section StatsFacts.
Import History HistoryOps.

Variable monthKey : Z -> jsstring.

Lemma fold_count {X} (l : list X) :
  fold_left (fun sum _ => sum + 1) l 0 = Z.of_nat (length l).
Proof.
  induction l as [|x l IH] using rev_ind; [reflexivity |].
  rewrite fold_left_app, length_app. simpl. rewrite IH. lia.
Qed.

Lemma fold_add_shift {X} (w : X -> Z) (l : list X) (a : Z) :
  fold_left (fun sum x => sum + w x) l a = a + fold_left (fun sum x => sum + w x) l 0.
Proof.
  revert a. induction l as [|x l IH]; intros a; simpl; [lia |].
  rewrite (IH (a + w x)), (IH (0 + w x)). lia.
Qed.

Lemma historyOf_filter siteId wanted st :
  filterPromptHistory (withArticles siteId wanted) st
  = List.filter (articlesMatch wanted) (historyOf siteId st).
Proof.
  unfold filterPromptHistory, withArticles, historyOf. simpl.
  destruct (given siteId); reflexivity.
Qed.

Lemma successful_le_articles (l : list PromptHistory) :
  Z.of_nat (length (List.filter hasArticles l))
  <= fold_left (fun sum item => sum + articleCount item) l 0.
Proof.
  induction l as [|x l IH]; simpl; [lia |].
  rewrite fold_add_shift. unfold hasArticles at 1, articleCount at 1.
  destruct (resultingArticles x) as [|a rest]; simpl length.
  - simpl. lia.
  - change (0 <? S (length rest))%nat with true. cbn [length]. lia.
Qed.

(** X6: in [calculatePromptHistoryStats], [successfulPrompts] is the
    number of records that [filterPromptHistory] returns for the same site
    with [hasArticles: true], the other records are those it returns with
    [hasArticles: false], and [successfulPrompts] is bounded by
    [totalPrompts] and by [totalArticlesCreated]. *)
Theorem calculatePromptHistoryStats_counts siteId st :
  let s := calculatePromptHistoryStats monthKey siteId st in
  successfulPrompts s
  = Z.of_nat (length (filterPromptHistory (withArticles siteId true) st))
  /\ totalPrompts s - successfulPrompts s
    = Z.of_nat (length (filterPromptHistory (withArticles siteId false) st))
  /\ 0 <= successfulPrompts s <= totalPrompts s
  /\ successfulPrompts s <= totalArticlesCreated s.
Proof.
  cbv zeta. rewrite !historyOf_filter. unfold calculatePromptHistoryStats. simpl.
  set (h := historyOf siteId st).
  pose proof (filter_length hasArticles h) as Hlen.
  assert (List.filter (articlesMatch true) h = List.filter hasArticles h) as -> by reflexivity.
  assert (List.filter (articlesMatch false) h
          = List.filter (fun x => negb (hasArticles x)) h) as -> by reflexivity.
  split; [reflexivity |]. split; [lia |]. split; [lia |].
  apply successful_le_articles.
Qed.


(** X8: the per-month table of [calculatePromptHistoryStats] has one
    entry per month key; an entry counts the records of its month and
    sums their article counts and their tokens; over the table the prompt
    counts add up to [totalPrompts], the articles to
    [totalArticlesCreated] and the tokens to [totalTokensUsed]. This
    holds whatever the time zone makes the month of an instant. *)
Theorem calculatePromptHistoryStats_months siteId st :
  let s := calculatePromptHistoryStats monthKey siteId st in
  let history := historyOf siteId st in
  List.NoDup (map fst (monthlyStats s))
  /\ (forall month stat, In (month, stat) (monthlyStats s) ->
        let records :=
          List.filter (fun item => streq (monthKey (generatedAt item)) month) history in
        records <> []
        /\ promptCount stat = Z.of_nat (length records)
        /\ articlesCreated stat = fold_left (fun sum item => sum + articleCount item) records 0
        /\ m_tokensUsed stat = fold_left (fun sum item => sum + tokensUsed item) records 0)
  /\ foldr Z.add 0 (map (fun e => promptCount (snd e)) (monthlyStats s)) = totalPrompts s
  /\ foldr Z.add 0 (map (fun e => articlesCreated (snd e)) (monthlyStats s))
     = totalArticlesCreated s
  /\ foldr Z.add 0 (map (fun e => m_tokensUsed (snd e)) (monthlyStats s))
     = totalTokensUsed s.
Proof.
  cbv zeta. unfold calculatePromptHistoryStats. simpl.
  set (h := historyOf siteId st).
  set (key := fun item => monthKey (generatedAt item)).
  destruct (tableOf_spec noMonth key addToMonth h) as (Hnd & Hkeys & Hval).
  split; [exact Hnd |]. split; [| split; [| split]].
  - intros month stat Hin.
    assert (In month (map fst (tableOf noMonth key addToMonth h))) as Hk.
    { apply in_map_iff. exists (month, stat). auto. }
    apply Hval in Hin. subst stat.
    split; [| split; [| split]].
    + apply Hkeys in Hk. destruct Hk as (item & Hitem & E).
      assert (In item (List.filter (fun item => streq (key item) month) h)) as Hf.
      { apply filter_In. split; [exact Hitem |]. now apply streq_true. }
      intros E0. change (List.filter (fun item => streq (key item) month) h = []) in E0.
      rewrite E0 in Hf. destruct Hf.
    + rewrite (valueOf_total noMonth key addToMonth promptCount (fun _ => 1));
        [apply fold_count | reflexivity | reflexivity].
    + now rewrite (valueOf_total noMonth key addToMonth articlesCreated articleCount).
    + now rewrite (valueOf_total noMonth key addToMonth m_tokensUsed tokensUsed).
  - rewrite (tableOf_total noMonth key addToMonth promptCount (fun _ => 1));
      [apply fold_count | reflexivity | reflexivity].
  - now rewrite (tableOf_total noMonth key addToMonth articlesCreated articleCount).
  - now rewrite (tableOf_total noMonth key addToMonth m_tokensUsed tokensUsed).
Qed.

End StatsFacts.

Section RankingFacts.
Import History HistoryOps.

Context {A : Type} (key : A -> Z).

Local Abbreviation descending := (HistoryOps.descending key).

Lemma descending_cons x l :
  descending (x :: l) <-> (forall y, In y l -> key y <= key x) /\ descending l.
Proof.
  split.
  - intros H. split.
    + intros y Hy. apply list_elem_of_In, list_elem_of_lookup in Hy. destruct Hy as [j Hj].
      apply (H 0%nat (S j) x y); [lia | reflexivity | exact Hj].
    + intros i j a b Hij Hi Hj. apply (H (S i) (S j) a b); [lia | exact Hi | exact Hj].
  - intros [Hx Hl] i j a b Hij Hi Hj. destruct j as [|j]; [lia |]. simpl in Hj.
    destruct i as [|i].
    + simpl in Hi. injection Hi as <-. apply Hx.
      apply list_elem_of_In. eapply list_elem_of_lookup_2; eauto.
    + simpl in Hi. apply (Hl i j a b); [lia | exact Hi | exact Hj].
Qed.

Lemma insertDesc_perm e l : Permutation (insertDesc key e l) (e :: l).
Proof.
  induction l as [|x l IH]; simpl; [reflexivity |].
  destruct (key e <? key x); [| reflexivity].
  rewrite IH. apply perm_swap.
Qed.

Lemma sortDesc_perm l : Permutation (sortDesc key l) l.
Proof.
  induction l as [|x l IH]; simpl; [reflexivity |].
  rewrite insertDesc_perm. now constructor.
Qed.

Lemma insertDesc_descending e l : descending l -> descending (insertDesc key e l).
Proof.
  induction l as [|x l IH]; simpl; intros H.
  - apply descending_cons. split; [intros y [] |]. intros i j a b Hij Hi. destruct i; discriminate.
  - destruct (key e <? key x) eqn:E.
    + apply descending_cons in H. destruct H as [Hx Hl].
      apply descending_cons. split; [| now apply IH].
      intros y Hy. apply list_elem_of_In in Hy. rewrite insertDesc_perm in Hy.
      apply list_elem_of_In in Hy. destruct Hy as [<-|Hy].
      * apply Z.ltb_lt in E. lia.
      * now apply Hx.
    + apply Z.ltb_ge in E. apply descending_cons. split; [| exact H].
      intros y [<-|Hy]; [exact E |].
      apply descending_cons in H. destruct H as [Hx _]. specialize (Hx _ Hy). lia.
Qed.

Lemma sortDesc_descending l : descending (sortDesc key l).
Proof.
  induction l as [|x l IH]; simpl.
  - intros i j a b _ Hi. destruct i; discriminate.
  - now apply insertDesc_descending.
Qed.

Lemma sliceTo_firstn (l : list A) (limit : Z) :
  exists n, sliceTo l limit = firstn n l
    /\ Z.of_nat n = (if limit <? 0 then Z.max 0 (Z.of_nat (length l) + limit) else limit).
Proof.
  unfold sliceTo. destruct (limit <? 0) eqn:E.
  - eexists. split; [reflexivity |]. lia.
  - apply Z.ltb_ge in E. eexists. split; [reflexivity |]. lia.
Qed.

Lemma In_sortDesc x l : In x (sortDesc key l) <-> In x l.
Proof.
  rewrite <- !list_elem_of_In. now rewrite sortDesc_perm.
Qed.

(** The first entries of a ranking. *)
Lemma ranking_spec (l : list A) (limit : Z) :
  let r := sliceTo (sortDesc key l) limit in
  (forall x, In x r -> In x l)
  /\ descending r
  /\ Z.of_nat (length r)
     = (if limit <? 0 then Z.max 0 (Z.of_nat (length l) + limit)
        else Z.min limit (Z.of_nat (length l)))
  /\ (forall x y, In x l -> ~ In x r -> In y r -> key x <= key y)
  /\ (Z.of_nat (length l) <= limit -> Permutation r l).
Proof.
  cbv zeta. destruct (sliceTo_firstn (sortDesc key l) limit) as (n & -> & Hn).
  pose proof (sortDesc_descending l) as Hd.
  pose proof (sortDesc_perm l) as Hp.
  assert (length (sortDesc key l) = length l) as Hlen by now rewrite Hp.
  rewrite Hlen in Hn.
  split; [| split; [| split; [| split]]].
  - intros x Hx. apply In_sortDesc. rewrite <- (firstn_skipn n (sortDesc key l)).
    apply in_or_app. now left.
  - intros i j a b Hij Hi Hj.
    apply lookup_take_Some in Hi, Hj. destruct Hi as [Hi _], Hj as [Hj _].
    eapply Hd; eauto.
  - rewrite length_firstn, Hlen. destruct (limit <? 0) eqn:E; lia.
  - intros x y Hx Hnx Hy.
    apply In_sortDesc in Hx.
    rewrite <- (firstn_skipn n (sortDesc key l)) in Hx.
    apply in_app_or in Hx. destruct Hx as [Hx|Hx]; [contradiction |].
    apply list_elem_of_In, list_elem_of_lookup in Hx, Hy.
    destruct Hx as [j Hj], Hy as [i Hi].
    apply lookup_take_Some in Hi. destruct Hi as [Hi Hin].
    rewrite lookup_drop in Hj.
    apply (Hd i (n + j)%nat y x); [lia | exact Hi | exact Hj].
  - intros Hall. rewrite firstn_all2; [exact Hp |].
    destruct (limit <? 0) eqn:E; [apply Z.ltb_lt in E; lia | lia].
Qed.

End RankingFacts.

Section RankingTheorems.
Import History HistoryOps.

Lemma historyOf_incl siteId st item :
  In item (historyOf siteId st) -> In item (getPromptHistory st).
Proof.
  unfold historyOf. destruct (given siteId); [| auto].
  intros H. now apply filter_In in H.
Qed.

(** X9: [getTopRatedPromptHistory] returns records of the site that
    have a rating, by descending rating; their number is [limit] capped
    by the number of rated records (for a negative [limit], that many are
    dropped from the end instead); and no rated record left out has a
    rating above that of a record returned. *)
Theorem getTopRatedPromptHistory_ranking limit siteId st :
  let r := getTopRatedPromptHistory limit siteId st in
  let rated := List.filter isRated (historyOf siteId st) in
  let n := default 10 limit in
  (forall item, In item r -> In item (historyOf siteId st) /\ is_Some (userRating item))
  /\ descending ratingKey r
  /\ Z.of_nat (length r)
     = (if n <? 0 then Z.max 0 (Z.of_nat (length rated) + n)
        else Z.min n (Z.of_nat (length rated)))
  /\ (forall x y, In x rated -> ~ In x r -> In y r -> ratingKey x <= ratingKey y).
Proof.
  cbv zeta. unfold getTopRatedPromptHistory. cbv zeta.
  destruct (ranking_spec ratingKey (List.filter isRated (historyOf siteId st))
              (default 10 limit)) as (H1 & H2 & H3 & H4 & _).
  split; [| split; [exact H2 | split; [exact H3 | exact H4]]].
  intros item Hin. apply H1, filter_In in Hin. destruct Hin as [Hin Hr].
  split; [exact Hin |]. unfold isRated in Hr. now apply bool_decide_eq_true in Hr.
Qed.

(** X10: [getMostSuccessfulPromptHistory] returns records of the site by
    descending number of articles; their number is [limit] capped by the
    size of the site's history; no record left out has more articles than
    a record returned; and with a [limit] of at least the size of the
    history the result is a rearrangement of that history. *)
Theorem getMostSuccessfulPromptHistory_ranking limit siteId st :
  let r := getMostSuccessfulPromptHistory limit siteId st in
  let history := historyOf siteId st in
  let n := default 10 limit in
  (forall item, In item r -> In item history)
  /\ descending articleCount r
  /\ Z.of_nat (length r)
     = (if n <? 0 then Z.max 0 (Z.of_nat (length history) + n)
        else Z.min n (Z.of_nat (length history)))
  /\ (forall x y, In x history -> ~ In x r -> In y r -> articleCount x <= articleCount y)
  /\ (Z.of_nat (length history) <= n -> Permutation r history).
Proof.
  cbv zeta. unfold getMostSuccessfulPromptHistory. cbv zeta.
  exact (ranking_spec articleCount (historyOf siteId st) (default 10 limit)).
Qed.

End RankingTheorems.

Section LinkFacts.
Import History HistoryOps.

Lemma articlesDistinct_update promptId u st :
  u_resultingArticles u = None ->
  articlesDistinct st -> articlesDistinct (snd (updatePromptHistory promptId u st)).
Proof.
  intros Hu Hd. unfold updatePromptHistory.
  destruct (findIndex promptId (getPromptHistory st)) as [index|] eqn:Ei; [| exact Hd].
  destruct (getPromptHistory st !! index) as [item|] eqn:El; [| exact Hd].
  unfold articlesDistinct, getPromptHistory at 1. simpl.
  unfold articlesDistinct in Hd.
  apply Forall_insert; [exact Hd |].
  unfold articleIds, merge. simpl. rewrite Hu. simpl.
  eapply (proj1 (Forall_lookup _ _) Hd); eauto.
Qed.

Lemma articlesDistinct_delete promptId st :
  articlesDistinct st -> articlesDistinct (snd (deletePromptHistory promptId st)).
Proof.
  intros Hd. unfold articlesDistinct. rewrite deletePromptHistory_history.
  unfold articlesDistinct in Hd. rewrite Forall_forall in Hd. apply Forall_forall.
  intros x Hx. apply Hd. apply list_elem_of_In in Hx. apply list_elem_of_In.
  now apply filter_In in Hx.
Qed.

Lemma articlesDistinct_linkDraft d promptId st :
  articlesDistinct st -> articlesDistinct (linkArticleToPromptHistory d promptId st).
Proof.
  intros Hd. unfold linkArticleToPromptHistory. cbv zeta.
  destruct (given (targetOf d promptId st)); [| exact Hd].
  pose proof (articlesDistinct_link (default [] (targetOf d promptId st))
                (draftArticle d) st Hd) as Hd'.
  destruct (dr_seoScore d) as [score|]; [| exact Hd'].
  destruct (dr_keywords d) as [kws|]; [| exact Hd'].
  destruct (truthyNumber score); [| exact Hd'].
  now apply articlesDistinct_update.
Qed.

(** X13: no sequence of calls of the functions that write the store
    ([addPromptHistory], [addResultingArticle], [addUserRating],
    [addSEOMetricsToHistory], [deletePromptHistory],
    [linkArticleToPromptHistory]) makes a record list the same article
    identifier twice. *)
Theorem articlesDistinct_performAll calls st :
  articlesDistinct st -> articlesDistinct (performAll calls st).
Proof.
  revert st. induction calls as [|c calls IH]; intros st Hd; [exact Hd |].
  simpl. apply IH. destruct c; simpl.
  - now apply articlesDistinct_add.
  - now apply articlesDistinct_link.
  - now apply articlesDistinct_update.
  - now apply articlesDistinct_update.
  - now apply articlesDistinct_delete.
  - now apply articlesDistinct_linkDraft.
Qed.

Lemma articlesDistinct_performAll_witness :
  articlesDistinct sampleStore
  /\ articlesDistinct
       (performAll [LinkDraft sampleDraft None; LinkDraft sampleDraft None;
                    Rate (str "prompt_R") 5 None; Delete (str "prompt_S")] sampleStore).
Proof.
  assert (articlesDistinct sampleStore) as H.
  { repeat constructor. }
  split; [exact H |].
  exact (articlesDistinct_performAll _ sampleStore H).
Defined.

Lemma find_ext {A} (f g : A -> bool) (l : list A) :
  (forall a, f a = g a) -> List.find f l = List.find g l.
Proof.
  intros H. induction l as [|x l IH]; simpl; [reflexivity |].
  rewrite H. destruct (g x); [reflexivity | exact IH].
Qed.

(** The record the article is linked to. *)
Lemma targetOf_given d promptId st :
  given promptId = true -> targetOf d promptId st = promptId.
Proof. intros H. unfold targetOf. now rewrite H. Qed.

Lemma targetOf_found d promptId st sid item :
  given promptId = false ->
  dr_aiSuggestionId d = Some sid -> sid <> [] ->
  findById sid (getPromptHistory st) = Some item ->
  targetOf d promptId st = Some sid.
Proof.
  intros Hp Hs Hne Hf. unfold targetOf. rewrite Hp, Hs. simpl.
  destruct sid as [|c t]; [congruence |]. simpl.
  unfold findById in Hf.
  erewrite find_ext; [rewrite Hf | intros a; apply orb_false_r].
  apply findById_Some in Hf. destruct Hf as [_ ->]. reflexivity.
Qed.

Lemma addResultingArticle_found promptId article st item :
  findById promptId (getPromptHistory st) = Some item ->
  exists item',
    findById promptId (getPromptHistory (snd (addResultingArticle promptId article st)))
    = Some item'
    /\ id item' = id item
    /\ seoMetrics item' = seoMetrics item
    /\ resultingArticles item'
       = (if hasArticle item article then resultingArticles item
          else resultingArticles item ++ [article])
    /\ forall q, q <> promptId ->
         findById q (getPromptHistory (snd (addResultingArticle promptId article st)))
         = findById q (getPromptHistory st).
Proof.
  intros Hf. rewrite findIndex_find in Hf. unfold addResultingArticle.
  destruct (findIndex promptId (getPromptHistory st)) as [index|] eqn:Ei; [| discriminate].
  simpl in Hf. rewrite Hf.
  destruct (hasArticle item article) eqn:Eh.
  - exists item. simpl. rewrite findIndex_find, Ei. simpl. auto.
  - exists (pushArticle article item). simpl.
    unfold getPromptHistory at 1 3. simpl.
    destruct (findIndex_lookup _ _ _ Ei) as (item0 & Hl & Hid).
    assert (item0 = item) by congruence. subst item0.
    split; [| split; [reflexivity | split; [reflexivity | split; [reflexivity |]]]].
    + rewrite findIndex_find.
      rewrite (findIndex_insert _ _ _ item (pushArticle article item) Ei Hf eq_refl). simpl.
      apply list_lookup_insert_eq. now apply lookup_lt_Some in Hf.
    + intros q Hq. eapply findIndex_insert_other; eauto.
Qed.

Lemma updatePromptHistory_found promptId u st item :
  u_id u = None ->
  findById promptId (getPromptHistory st) = Some item ->
  findById promptId (getPromptHistory (snd (updatePromptHistory promptId u st)))
  = Some (merge item u)
  /\ forall q, q <> promptId ->
       findById q (getPromptHistory (snd (updatePromptHistory promptId u st)))
       = findById q (getPromptHistory st).
Proof.
  intros Hu Hf. rewrite findIndex_find in Hf.
  destruct (findIndex promptId (getPromptHistory st)) as [index|] eqn:Ei; [| discriminate].
  simpl in Hf.
  destruct (updatePromptHistory_Some _ u _ _ Ei) as (item0 & Hl & Hi & ->).
  assert (item0 = item) by congruence. subst item0. simpl snd.
  unfold getPromptHistory at 1 3. simpl. split.
  - rewrite findIndex_find.
    rewrite (findIndex_insert _ _ _ item _ Ei Hl (merge_id _ _ Hu)). simpl.
    apply list_lookup_insert_eq. now apply lookup_lt_Some in Hl.
  - intros q Hq. eapply findIndex_insert_other; eauto. rewrite merge_id; auto.
Qed.

(** X11: [linkArticleToPromptHistory] on a draft whose target record
    exists, the target being [promptId] when given and the draft's
    [aiSuggestionId] otherwise: afterwards the record found under the
    target lists the draft's article, lists no article twice if it did
    not before, carries the metrics built from the draft when the draft
    has a score other than zero and keywords (and its former metrics
    otherwise), and the records found under other identifiers are those
    found before. *)
Theorem linkArticleToPromptHistory_links d promptId st target item :
  (promptId = Some target
   \/ (given promptId = false /\ dr_aiSuggestionId d = Some target)) ->
  target <> [] ->
  findById target (getPromptHistory st) = Some item ->
  let st' := linkArticleToPromptHistory d promptId st in
  exists item',
    findById target (getPromptHistory st') = Some item'
    /\ In (dr_id d) (articleIds item')
    /\ (NoDup (articleIds item) -> NoDup (articleIds item'))
    /\ seoMetrics item'
       = match dr_seoScore d, dr_keywords d with
         | Some score, Some kws =>
             if truthyNumber score then Some (draftMetrics d score kws) else seoMetrics item
         | _, _ => seoMetrics item
         end
    /\ forall q, q <> target ->
         findById q (getPromptHistory st') = findById q (getPromptHistory st).
Proof.
  intros Hcase Hne Hf. cbv zeta.
  assert (targetOf d promptId st = Some target) as Ht.
  { destruct Hcase as [->|[Hp Hs]].
    - apply targetOf_given. destruct target; [congruence | reflexivity].
    - eapply targetOf_found; eauto. }
  unfold linkArticleToPromptHistory. cbv zeta. rewrite Ht.
  assert (given (Some target) = true) as -> by (destruct target; [congruence | reflexivity]).
  simpl default.
  destruct (addResultingArticle_found target (draftArticle d) st item Hf)
    as (item1 & Hf1 & Hid1 & Hseo1 & Hart1 & Hother1).
  set (st1 := snd (addResultingArticle target (draftArticle d) st)) in *.
  assert (In (dr_id d) (articleIds item1)) as Hin1.
  { unfold articleIds. rewrite Hart1.
    destruct (hasArticle item (draftArticle d)) eqn:Eh.
    - now apply hasArticle_In in Eh.
    - rewrite map_app. apply in_or_app. right. now left. }
  assert (NoDup (articleIds item) -> NoDup (articleIds item1)) as Hnd1.
  { intros Hnd. unfold articleIds. rewrite Hart1.
    destruct (hasArticle item (draftArticle d)) eqn:Eh; [exact Hnd |].
    rewrite map_app. apply NoDup_app. split; [exact Hnd |].
    split; [| apply NoDup_singleton].
    intros x Hx Hx'. apply list_elem_of_singleton in Hx'. subst x.
    apply list_elem_of_In in Hx. apply hasArticle_In in Hx. simpl in Hx. congruence. }
  assert (forall m,
    exists item',
      findById target (getPromptHistory (snd (addSEOMetricsToHistory target m st1)))
      = Some item'
      /\ In (dr_id d) (articleIds item')
      /\ (NoDup (articleIds item) -> NoDup (articleIds item'))
      /\ seoMetrics item' = Some m
      /\ forall q, q <> target ->
           findById q (getPromptHistory (snd (addSEOMetricsToHistory target m st1)))
           = findById q (getPromptHistory st)) as Hmetrics.
  { intros m. unfold addSEOMetricsToHistory.
    destruct (updatePromptHistory_found target (seoMetricsUpdate m) st1 item1 eq_refl Hf1)
      as (Hf2 & Hother2).
    exists (merge item1 (seoMetricsUpdate m)).
    split; [exact Hf2 |]. split; [exact Hin1 |]. split; [exact Hnd1 |].
    split; [reflexivity |].
    intros q Hq. rewrite (Hother2 q Hq). now apply Hother1. }
  destruct (dr_seoScore d) as [score|];
    [| exists item1; rewrite Hseo1; auto].
  destruct (dr_keywords d) as [kws|];
    [| exists item1; rewrite Hseo1; auto].
  destruct (truthyNumber score);
    [| exists item1; rewrite Hseo1; auto].
  apply Hmetrics.
Qed.

Lemma linkArticleToPromptHistory_links_witness :
  (@None jsstring = Some (str "prompt_R")
   \/ (given None = false /\ dr_aiSuggestionId sampleDraft = Some (str "prompt_R")))
  /\ str "prompt_R" <> []
  /\ findById (str "prompt_R") (getPromptHistory sampleStore)
     = Some (newRecord (str "prompt_R") 1700000000000 (sampleData (str "a")))
  /\ exists item',
    findById (str "prompt_R")
      (getPromptHistory (linkArticleToPromptHistory sampleDraft None sampleStore))
    = Some item'
    /\ In (dr_id sampleDraft) (articleIds item')
    /\ (NoDup (articleIds (newRecord (str "prompt_R") 1700000000000 (sampleData (str "a"))))
        -> NoDup (articleIds item'))
    /\ seoMetrics item'
       = match dr_seoScore sampleDraft, dr_keywords sampleDraft with
         | Some score, Some kws =>
             if truthyNumber score then Some (draftMetrics sampleDraft score kws)
             else seoMetrics (newRecord (str "prompt_R") 1700000000000 (sampleData (str "a")))
         | _, _ => seoMetrics (newRecord (str "prompt_R") 1700000000000 (sampleData (str "a")))
         end
    /\ forall q, q <> str "prompt_R" ->
         findById q (getPromptHistory (linkArticleToPromptHistory sampleDraft None sampleStore))
         = findById q (getPromptHistory sampleStore).
Proof.
  assert (@None jsstring = Some (str "prompt_R")
          \/ (given None = false /\ dr_aiSuggestionId sampleDraft = Some (str "prompt_R"))) as H1.
  { right. split; reflexivity. }
  assert (str "prompt_R" <> []) as H2 by (vm_compute; discriminate).
  assert (findById (str "prompt_R") (getPromptHistory sampleStore)
          = Some (newRecord (str "prompt_R") 1700000000000 (sampleData (str "a")))) as H3.
  { vm_compute. reflexivity. }
  split; [exact H1 |]. split; [exact H2 |]. split; [exact H3 |].
  exact (linkArticleToPromptHistory_links sampleDraft None sampleStore (str "prompt_R")
           _ H1 H2 H3).
Defined.

(** X12: [linkArticleToPromptHistory] without a usable [promptId] and
    with a draft whose [aiSuggestionId], if any, names no stored record,
    leaves the store as it is. *)
Theorem linkArticleToPromptHistory_no_target d promptId st :
  given promptId = false ->
  (forall sid, dr_aiSuggestionId d = Some sid ->
     findById sid (getPromptHistory st) = None) ->
  linkArticleToPromptHistory d promptId st = st.
Proof.
  intros Hp Hs. unfold linkArticleToPromptHistory. cbv zeta.
  assert (targetOf d promptId st = promptId) as ->; [| now rewrite Hp].
  unfold targetOf. rewrite Hp. simpl.
  destruct (given (dr_aiSuggestionId d)) eqn:Eg; [| reflexivity].
  destruct (dr_aiSuggestionId d) as [sid|]; [| discriminate].
  specialize (Hs sid eq_refl). simpl. unfold findById in Hs.
  erewrite find_ext; [rewrite Hs; reflexivity | intros a; apply orb_false_r].
Qed.

Lemma linkArticleToPromptHistory_no_target_witness :
  given None = false
  /\ (forall sid, dr_aiSuggestionId sampleDraft = Some sid ->
        findById sid (getPromptHistory (load None)) = None)
  /\ linkArticleToPromptHistory sampleDraft None (load None) = load None.
Proof.
  assert (given None = false) as H1 by reflexivity.
  assert (forall sid, dr_aiSuggestionId sampleDraft = Some sid ->
            findById sid (getPromptHistory (load None)) = None) as H2
    by (intros sid _; reflexivity).
  split; [exact H1 |]. split; [exact H2 |].
  exact (linkArticleToPromptHistory_no_target sampleDraft None (load None) H1 H2).
Defined.

End LinkFacts.

Section IdentifierFacts.
Import History HistoryOps.

Lemma ids_insert (history : list PromptHistory) index item item' :
  history !! index = Some item -> id item' = id item ->
  map id (<[index := item']> history) = map id history.
Proof.
  revert index. induction history as [|x l IH]; intros index Hl Hid; [reflexivity |].
  destruct index as [|index]; simpl in *.
  - injection Hl as ->. now rewrite Hid.
  - f_equal. now apply IH.
Qed.

Lemma ids_addResultingArticle promptId article st :
  map id (getPromptHistory (snd (addResultingArticle promptId article st)))
  = map id (getPromptHistory st).
Proof.
  unfold addResultingArticle.
  destruct (findIndex promptId (getPromptHistory st)) as [index|]; [| reflexivity].
  destruct (getPromptHistory st !! index) as [item|] eqn:El; [| reflexivity].
  destruct (hasArticle item article); [reflexivity |].
  unfold getPromptHistory at 1. simpl. now apply (ids_insert _ _ item).
Qed.

Lemma ids_updatePromptHistory promptId u st :
  u_id u = None ->
  map id (getPromptHistory (snd (updatePromptHistory promptId u st)))
  = map id (getPromptHistory st).
Proof.
  intros Hu. unfold updatePromptHistory.
  destruct (findIndex promptId (getPromptHistory st)) as [index|]; [| reflexivity].
  destruct (getPromptHistory st !! index) as [item|] eqn:El; [| reflexivity].
  unfold getPromptHistory at 1. simpl.
  apply (ids_insert _ _ item); [exact El | now apply merge_id].
Qed.

Lemma ids_linkArticleToPromptHistory d promptId st :
  map id (getPromptHistory (linkArticleToPromptHistory d promptId st))
  = map id (getPromptHistory st).
Proof.
  unfold linkArticleToPromptHistory. cbv zeta.
  destruct (given (targetOf d promptId st)); [| reflexivity].
  destruct (dr_seoScore d) as [score|]; [| apply ids_addResultingArticle].
  destruct (dr_keywords d) as [kws|]; [| apply ids_addResultingArticle].
  destruct (truthyNumber score); [| apply ids_addResultingArticle].
  unfold addSEOMetricsToHistory. rewrite ids_updatePromptHistory by reflexivity.
  apply ids_addResultingArticle.
Qed.

Lemma NoDup_map_filter {A B} (f : A -> B) (p : A -> bool) (l : list A) :
  List.NoDup (map f l) -> List.NoDup (map f (List.filter p l)).
Proof.
  induction l as [|x l IH]; simpl; intros H; [constructor |].
  inversion H as [|? ? Hx Hl]; subst.
  destruct (p x); simpl; [| now apply IH].
  constructor; [| now apply IH].
  intros Hin. apply Hx. apply in_map_iff in Hin. destruct Hin as (y & E & Hy).
  apply in_map_iff. exists y. split; [exact E |]. now apply filter_In in Hy.
Qed.

(** X29: every function that writes the store keeps the record
    identifiers pairwise distinct, provided the identifier generated for
    an addition is not that of a stored record; only an addition and a
    deletion change the list of identifiers at all. *)
Theorem identifiers_stay_distinct st c :
  List.NoDup (map id (getPromptHistory st)) ->
  (forall now newId createdNow data,
     c = AddPrompt now newId createdNow data ->
     ~ In newId (map id (getPromptHistory st))) ->
  List.NoDup (map id (getPromptHistory (perform st c)))
  /\ match c with
     | AddPrompt _ _ _ _ | Delete _ => True
     | _ => map id (getPromptHistory (perform st c)) = map id (getPromptHistory st)
     end.
Proof.
  intros Hnd Hfresh. destruct c as [now newId createdNow data|p a|p r n|p m|p|d p]; simpl.
  - split; [| exact I]. unfold addPromptHistory.
    destruct (cachedRecord now st); [exact Hnd |].
    destruct (List.find _ _); [exact Hnd |].
    unfold getPromptHistory at 1. simpl. constructor; [| exact Hnd].
    now apply (Hfresh now newId createdNow data).
  - rewrite ids_addResultingArticle. auto.
  - unfold addUserRating. rewrite ids_updatePromptHistory by reflexivity. auto.
  - unfold addSEOMetricsToHistory. rewrite ids_updatePromptHistory by reflexivity. auto.
  - split; [| exact I]. rewrite deletePromptHistory_history. now apply NoDup_map_filter.
  - rewrite ids_linkArticleToPromptHistory. auto.
Qed.

Lemma identifiers_stay_distinct_witness :
  List.NoDup (map id (getPromptHistory sampleStore))
  /\ (forall now newId createdNow data,
        AddPrompt 1700000200000 (str "prompt_T") 1700000200000 (sampleData (str "c"))
        = AddPrompt now newId createdNow data ->
        ~ In newId (map id (getPromptHistory sampleStore)))
  /\ List.NoDup (map id (getPromptHistory
       (perform sampleStore
          (AddPrompt 1700000200000 (str "prompt_T") 1700000200000 (sampleData (str "c"))))))
  /\ True.
Proof.
  assert (List.NoDup (map id (getPromptHistory sampleStore))) as H1.
  { vm_compute. repeat constructor; simpl; intuition discriminate. }
  assert (forall now newId createdNow data,
            AddPrompt 1700000200000 (str "prompt_T") 1700000200000 (sampleData (str "c"))
            = AddPrompt now newId createdNow data ->
            ~ In newId (map id (getPromptHistory sampleStore))) as H2.
  { intros now newId createdNow data [= _ <- _ _]. vm_compute. intuition discriminate. }
  split; [exact H1 |]. split; [exact H2 |].
  exact (identifiers_stay_distinct sampleStore
           (AddPrompt 1700000200000 (str "prompt_T") 1700000200000 (sampleData (str "c")))
           H1 H2).
Defined.

End IdentifierFacts.

(** ** RateLimiter: sequences of calls *)

Section RateLimiterRunFacts.
Import RateLimiter RateLimiterRuns.

Lemma withinMinute_later now now' arr :
  now <= now' -> withinMinute now' (withinMinute now arr) = withinMinute now' arr.
Proof.
  intros H. unfold withinMinute. induction arr as [|x arr IH]; simpl; [reflexivity |].
  destruct (now - x <? oneMinute) eqn:E; simpl.
  - destruct (now' - x <? oneMinute); now rewrite IH.
  - rewrite IH. apply Z.ltb_ge in E.
    destruct (now' - x <? oneMinute) eqn:E'; [| reflexivity].
    apply Z.ltb_lt in E'. lia.
Qed.

Lemma withinMinute_old now arr :
  Forall (fun v => v + oneMinute <= now) arr -> withinMinute now arr = [].
Proof.
  intros H. unfold withinMinute. induction H as [|v l Hv _ IH]; [reflexivity |].
  simpl. destruct (now - v <? oneMinute) eqn:E; [| exact IH].
  apply Z.ltb_lt in E. lia.
Qed.

Lemma withinMinute_recent now arr :
  Forall (fun v => now - v < oneMinute) arr -> withinMinute now arr = arr.
Proof.
  intros H. unfold withinMinute. induction H as [|v l Hv _ IH]; [reflexivity |].
  simpl. rewrite IH. now apply Z.ltb_lt in Hv as ->.
Qed.

Lemma requestsOf_recordAll model samples rl :
  requestsOf (recordAll model samples rl) model = requestsOf rl model ++ map fst samples.
Proof.
  unfold recordAll. revert rl. induction samples as [|s samples IH]; intros rl; simpl.
  - now rewrite app_nil_r.
  - rewrite IH, requestsOf_recordRequest, <- app_assoc. reflexivity.
Qed.

Lemma tokensOf_recordAll model samples rl :
  tokensOf (recordAll model samples rl) model = tokensOf rl model ++ map snd samples.
Proof.
  unfold recordAll. revert rl. induction samples as [|s samples IH]; intros rl; simpl.
  - now rewrite app_nil_r.
  - rewrite IH, tokensOf_recordRequest, <- app_assoc. reflexivity.
Qed.

Lemma rpm_positive model lim : RATE_LIMITS model = Some lim -> 0 < rpm lim.
Proof.
  unfold RATE_LIMITS.
  destruct (streq model (str "gemini-2.5-pro")); [intros [= <-]; simpl; lia |].
  destruct (streq model (str "gemini-2.5-flash")); [intros [= <-]; simpl; lia |].
  discriminate.
Qed.

(** X14: whatever the limiter held, once requests have been recorded
    for a model at clock readings that all lie in the minute before [now],
    as many as the model's requests-per-minute budget or more,
    [canMakeRequest] at [now] refuses, whatever the estimate. *)
Theorem canMakeRequest_refuses_after_burst now model est lim samples rl :
  RATE_LIMITS model = Some lim ->
  rpm lim <= Z.of_nat (length samples) ->
  Forall (fun sample => now - fst sample < oneMinute) samples ->
  fst (canMakeRequest now model est (recordAll model samples rl)) = false.
Proof.
  intros Hlim Hn Hrecent. apply not_true_is_false. intros H.
  apply canMakeRequest_decides in H. destruct H as (lim' & E & Hcount & _).
  assert (lim' = lim) by congruence. subst lim'.
  rewrite requestsOf_recordAll in Hcount. unfold withinMinute in Hcount.
  rewrite List.filter_app, length_app in Hcount.
  assert (List.filter (fun time => now - time <? oneMinute) (map fst samples)
          = map fst samples) as Hkeep.
  { apply withinMinute_recent. apply Forall_map. exact Hrecent. }
  rewrite Hkeep, length_map in Hcount. lia.
Qed.

Lemma canMakeRequest_refuses_after_burst_witness :
  RATE_LIMITS (str "gemini-2.5-pro") = Some {| rpm := 2; tpm := 32000 |}
  /\ rpm {| rpm := 2; tpm := 32000 |}
     <= Z.of_nat (length [(1700000000000, 10); (1700000020000, 10)])
  /\ Forall (fun sample => 1700000050000 - fst sample < oneMinute)
       [(1700000000000, 10); (1700000020000, 10)]
  /\ fst (canMakeRequest 1700000050000 (str "gemini-2.5-pro") (Some 1)
            (recordAll (str "gemini-2.5-pro")
               [(1700000000000, 10); (1700000020000, 10)] create)) = false.
Proof.
  assert (RATE_LIMITS (str "gemini-2.5-pro") = Some {| rpm := 2; tpm := 32000 |}) as H1
    by (vm_compute; reflexivity).
  assert (rpm {| rpm := 2; tpm := 32000 |}
          <= Z.of_nat (length [(1700000000000, 10); (1700000020000, 10)])) as H2
    by (simpl; lia).
  assert (Forall (fun sample => 1700000050000 - fst sample < oneMinute)
            [(1700000000000, 10); (1700000020000, 10)]) as H3
    by (repeat constructor; vm_compute; reflexivity).
  split; [exact H1 |]. split; [exact H2 |]. split; [exact H3 |].
  exact (canMakeRequest_refuses_after_burst 1700000050000 (str "gemini-2.5-pro") (Some 1)
           _ _ create H1 H2 H3).
Defined.

(** X15: when every request time held for a known model is a minute old
    or older, and every token count held is at most [now - 60000] (as any
    real count is), [canMakeRequest] at [now] answers whether the
    estimate alone is under the tokens-per-minute budget, and leaves no
    sample for the model. *)
Theorem canMakeRequest_after_quiet_minute now model est lim rl :
  RATE_LIMITS model = Some lim ->
  Forall (fun time => time + oneMinute <= now) (requestsOf rl model) ->
  Forall (fun v => v + oneMinute <= now) (tokensOf rl model) ->
  fst (canMakeRequest now model est rl) = (default 1000 est <? tpm lim)
  /\ requestsOf (snd (canMakeRequest now model est rl)) model = []
  /\ tokensOf (snd (canMakeRequest now model est rl)) model = [].
Proof.
  intros Hlim Hreq Htok.
  rewrite requestsOf_canMakeRequest, tokensOf_canMakeRequest.
  rewrite (withinMinute_old _ _ Hreq), (withinMinute_old _ _ Htok).
  split; [| split; reflexivity].
  unfold canMakeRequest. rewrite Hlim. cbv zeta. cbn [fst].
  fold (requestsOf rl model). fold (tokensOf rl model).
  rewrite (withinMinute_old _ _ Hreq), (withinMinute_old _ _ Htok).
  change (Z.of_nat (length (@nil Z))) with 0. change (sumTokens []) with 0.
  pose proof (rpm_positive _ _ Hlim) as Hpos.
  apply Z.ltb_lt in Hpos. rewrite Hpos, Z.add_0_l. reflexivity.
Qed.

Lemma canMakeRequest_after_quiet_minute_witness :
  let rl := recordAll (str "gemini-2.5-pro")
              [(1700000000000, 10); (1700000020000, 10)] create in
  RATE_LIMITS (str "gemini-2.5-pro") = Some {| rpm := 2; tpm := 32000 |}
  /\ Forall (fun time => time + oneMinute <= 1700000080000)
       (requestsOf rl (str "gemini-2.5-pro"))
  /\ Forall (fun v => v + oneMinute <= 1700000080000) (tokensOf rl (str "gemini-2.5-pro"))
  /\ fst (canMakeRequest 1700000080000 (str "gemini-2.5-pro") (Some 3000) rl)
     = (default 1000 (Some 3000) <? tpm {| rpm := 2; tpm := 32000 |})
  /\ requestsOf (snd (canMakeRequest 1700000080000 (str "gemini-2.5-pro") (Some 3000) rl))
       (str "gemini-2.5-pro") = []
  /\ tokensOf (snd (canMakeRequest 1700000080000 (str "gemini-2.5-pro") (Some 3000) rl))
       (str "gemini-2.5-pro") = [].
Proof.
  intros rl.
  assert (RATE_LIMITS (str "gemini-2.5-pro") = Some {| rpm := 2; tpm := 32000 |}) as H1
    by (vm_compute; reflexivity).
  assert (Forall (fun time => time + oneMinute <= 1700000080000)
            (requestsOf rl (str "gemini-2.5-pro"))) as H2.
  { unfold rl. rewrite requestsOf_recordAll. repeat constructor; vm_compute; discriminate. }
  assert (Forall (fun v => v + oneMinute <= 1700000080000)
            (tokensOf rl (str "gemini-2.5-pro"))) as H3.
  { unfold rl. rewrite tokensOf_recordAll. repeat constructor; vm_compute; discriminate. }
  split; [exact H1 |]. split; [exact H2 |]. split; [exact H3 |].
  exact (canMakeRequest_after_quiet_minute 1700000080000 (str "gemini-2.5-pro") (Some 3000)
           _ rl H1 H2 H3).
Defined.

(** X16: asking does not change later answers: a call of
    [canMakeRequest] at a later clock reading gives the same answer and
    leaves the same limiter whether or not [canMakeRequest] was called on
    the model in between. *)
Theorem canMakeRequest_polling_is_harmless now now' model est est' rl :
  now <= now' ->
  canMakeRequest now' model est' (snd (canMakeRequest now model est rl))
  = canMakeRequest now' model est' rl.
Proof.
  intros H.
  assert (forall rl1,
    requests rl1 = <[model := withinMinute now (default [] (requests rl !! model))]> (requests rl) ->
    tokens rl1 = <[model := withinMinute now (default [] (tokens rl !! model))]> (tokens rl) ->
    canMakeRequest now' model est' rl1 = canMakeRequest now' model est' rl) as Hgen.
  { intros rl1 Hr Ht. unfold canMakeRequest. rewrite Hr, Ht.
    rewrite !lookup_insert_eq. simpl. rewrite !insert_insert_eq.
    rewrite !(withinMinute_later _ _ _ H). reflexivity. }
  apply Hgen; unfold canMakeRequest; destruct (RATE_LIMITS model); reflexivity.
Qed.

Lemma canMakeRequest_polling_is_harmless_witness :
  let rl := recordAll (str "gemini-2.5-pro")
              [(1700000000000, 10); (1700000020000, 10)] create in
  1700000030000 <= 1700000070000
  /\ canMakeRequest 1700000070000 (str "gemini-2.5-pro") (Some 3000)
       (snd (canMakeRequest 1700000030000 (str "gemini-2.5-pro") None rl))
     = canMakeRequest 1700000070000 (str "gemini-2.5-pro") (Some 3000) rl.
Proof.
  intros rl.
  assert (1700000030000 <= 1700000070000) as H by lia.
  split; [exact H |].
  exact (canMakeRequest_polling_is_harmless 1700000030000 1700000070000
           (str "gemini-2.5-pro") None (Some 3000) rl H).
Defined.

(** X17: the samples of a model are touched only by calls on that
    model: [canMakeRequest] and [recordRequest] on one model leave the
    request times and token counts of every other model, and the answer
    of [canMakeRequest] on it, as they were. *)
Theorem other_models_are_untouched now model est toks other now' est' rl :
  other <> model ->
  requestsOf (snd (canMakeRequest now model est rl)) other = requestsOf rl other
  /\ tokensOf (snd (canMakeRequest now model est rl)) other = tokensOf rl other
  /\ requestsOf (recordRequest now model toks rl) other = requestsOf rl other
  /\ tokensOf (recordRequest now model toks rl) other = tokensOf rl other
  /\ fst (canMakeRequest now' other est' (snd (canMakeRequest now model est rl)))
     = fst (canMakeRequest now' other est' rl)
  /\ fst (canMakeRequest now' other est' (recordRequest now model toks rl))
     = fst (canMakeRequest now' other est' rl).
Proof.
  intros Hne.
  assert (requestsOf (snd (canMakeRequest now model est rl)) other = requestsOf rl other) as H1.
  { unfold canMakeRequest, requestsOf. destruct (RATE_LIMITS model); simpl;
      now rewrite lookup_insert_ne. }
  assert (tokensOf (snd (canMakeRequest now model est rl)) other = tokensOf rl other) as H2.
  { unfold canMakeRequest, tokensOf. destruct (RATE_LIMITS model); simpl;
      now rewrite lookup_insert_ne. }
  assert (requestsOf (recordRequest now model toks rl) other = requestsOf rl other) as H3.
  { unfold recordRequest, requestsOf. simpl. now rewrite lookup_insert_ne. }
  assert (tokensOf (recordRequest now model toks rl) other = tokensOf rl other) as H4.
  { unfold recordRequest, tokensOf. simpl. now rewrite lookup_insert_ne. }
  assert (forall rl1, requestsOf rl1 other = requestsOf rl other ->
            tokensOf rl1 other = tokensOf rl other ->
            fst (canMakeRequest now' other est' rl1) = fst (canMakeRequest now' other est' rl))
    as Hans.
  { intros rl1 Hr Ht. unfold canMakeRequest.
    fold (requestsOf rl1 other). fold (tokensOf rl1 other).
    fold (requestsOf rl other). fold (tokensOf rl other). rewrite Hr, Ht.
    destruct (RATE_LIMITS other); reflexivity. }
  split; [exact H1 |]. split; [exact H2 |]. split; [exact H3 |]. split; [exact H4 |].
  split; apply Hans; assumption.
Qed.

Lemma other_models_are_untouched_witness :
  let rl := recordAll (str "gemini-2.5-flash") [(1700000000000, 10)] create in
  str "gemini-2.5-flash" <> str "gemini-2.5-pro"
  /\ requestsOf (snd (canMakeRequest 1700000000001 (str "gemini-2.5-pro") None rl))
       (str "gemini-2.5-flash") = requestsOf rl (str "gemini-2.5-flash")
  /\ tokensOf (snd (canMakeRequest 1700000000001 (str "gemini-2.5-pro") None rl))
       (str "gemini-2.5-flash") = tokensOf rl (str "gemini-2.5-flash")
  /\ requestsOf (recordRequest 1700000000001 (str "gemini-2.5-pro") 7 rl)
       (str "gemini-2.5-flash") = requestsOf rl (str "gemini-2.5-flash")
  /\ tokensOf (recordRequest 1700000000001 (str "gemini-2.5-pro") 7 rl)
       (str "gemini-2.5-flash") = tokensOf rl (str "gemini-2.5-flash")
  /\ fst (canMakeRequest 1700000000002 (str "gemini-2.5-flash") None
            (snd (canMakeRequest 1700000000001 (str "gemini-2.5-pro") None rl)))
     = fst (canMakeRequest 1700000000002 (str "gemini-2.5-flash") None rl)
  /\ fst (canMakeRequest 1700000000002 (str "gemini-2.5-flash") None
            (recordRequest 1700000000001 (str "gemini-2.5-pro") 7 rl))
     = fst (canMakeRequest 1700000000002 (str "gemini-2.5-flash") None rl).
Proof.
  intros rl.
  assert (str "gemini-2.5-flash" <> str "gemini-2.5-pro") as H by (vm_compute; discriminate).
  split; [exact H |].
  exact (other_models_are_untouched 1700000000001 (str "gemini-2.5-pro") None 7
           (str "gemini-2.5-flash") 1700000000002 None rl H).
Defined.

End RateLimiterRunFacts.

(** ** Strings and patterns: further facts *)

Section TrimFacts.

Lemma trimStart_suffix (s : jsstring) :
  exists pre, s = pre ++ trimStart s /\ forallb isWhiteSpace pre = true.
Proof.
  induction s as [|c t IH]; simpl.
  - exists []. auto.
  - destruct (isWhiteSpace c) eqn:E.
    + destruct IH as (pre & Ht & Hp). exists (c :: pre). simpl. rewrite E, Hp.
      split; [now f_equal | reflexivity].
    + exists []. auto.
Qed.

Lemma trimStart_head (s : jsstring) c t :
  trimStart s = c :: t -> isWhiteSpace c = false.
Proof.
  induction s as [|x s IH]; simpl; [discriminate |].
  destruct (isWhiteSpace x) eqn:E; [exact IH |]. now intros [= <- <-].
Qed.

Lemma trimStart_fixed (s : jsstring) c t :
  s = c :: t -> isWhiteSpace c = false -> trimStart s = s.
Proof. intros -> H. simpl. now rewrite H. Qed.

Lemma trimStart_whitespace (s : jsstring) :
  forallb isWhiteSpace s = true -> trimStart s = [].
Proof.
  induction s as [|c t IH]; simpl; [reflexivity |].
  intros H. apply andb_true_iff in H. destruct H as [-> H]. now apply IH.
Qed.

(** White space in front of a text that ends with another unit is
    stripped without touching that unit. *)
Lemma trimStart_snoc (s : jsstring) c :
  isWhiteSpace c = false -> exists s', trimStart (s ++ [c]) = s' ++ [c].
Proof.
  intros Hc. induction s as [|x s IH]; simpl.
  - rewrite Hc. now exists [].
  - destruct (isWhiteSpace x); [exact IH |]. now exists (x :: s).
Qed.

Lemma trimEnd_prefix (s : jsstring) :
  exists suf, s = trimEnd s ++ suf /\ forallb isWhiteSpace suf = true.
Proof.
  unfold trimEnd. destruct (trimStart_suffix (rev s)) as (pre & Hs & Hp).
  exists (rev pre). split.
  - rewrite <- rev_app_distr, <- Hs. symmetry. apply rev_involutive.
  - rewrite forallb_forall in *. intros x Hx. apply Hp. now apply in_rev.
Qed.

Lemma trimEnd_last (s : jsstring) t c :
  trimEnd s = t ++ [c] -> isWhiteSpace c = false.
Proof.
  unfold trimEnd. intros H.
  assert (trimStart (rev s) = c :: rev t) as H'.
  { rewrite <- (rev_involutive (trimStart (rev s))), H, rev_app_distr. reflexivity. }
  eapply trimStart_head; eauto.
Qed.

Lemma trimEnd_head (s : jsstring) c t :
  s = c :: t -> isWhiteSpace c = false -> exists t', trimEnd s = c :: t'.
Proof.
  intros -> Hc. unfold trimEnd. simpl.
  destruct (trimStart_snoc (rev t) c Hc) as (s' & ->).
  rewrite rev_app_distr. simpl. eauto.
Qed.

Lemma trim_head (s : jsstring) c t : trim s = c :: t -> isWhiteSpace c = false.
Proof.
  unfold trim. intros H.
  destruct (trimStart s) as [|x s'] eqn:E; [discriminate H |].
  pose proof (trimStart_head _ _ _ E) as Hx.
  destruct (trimEnd_head (x :: s') x s' eq_refl Hx) as (t' & Ht).
  rewrite Ht in H. injection H as <- _. exact Hx.
Qed.

Lemma trim_last (s : jsstring) t c : trim s = t ++ [c] -> isWhiteSpace c = false.
Proof. unfold trim. apply trimEnd_last. Qed.

Lemma trimEnd_fixed (s : jsstring) t c :
  s = t ++ [c] -> isWhiteSpace c = false -> trimEnd s = s.
Proof.
  intros -> Hc. unfold trimEnd. rewrite rev_app_distr. simpl. rewrite Hc.
  simpl. rewrite rev_involutive. reflexivity.
Qed.

Lemma trim_idempotent (s : jsstring) : trim (trim s) = trim s.
Proof.
  destruct (trim s) as [|c t] eqn:E; [reflexivity |].
  pose proof (trim_head _ _ _ E) as Hc.
  unfold trim at 1. rewrite (trimStart_fixed (c :: t) c t eq_refl Hc).
  destruct (exists_last (l := c :: t) ltac:(discriminate)) as (t' & c' & Ht).
  rewrite Ht in E. pose proof (trim_last _ _ _ E) as Hc'.
  rewrite Ht. now apply (trimEnd_fixed _ t' c').
Qed.

Lemma trim_whitespace (s : jsstring) :
  forallb isWhiteSpace s = true -> trim s = [].
Proof. intros H. unfold trim. now rewrite trimStart_whitespace. Qed.

(** Trimming keeps a piece of the text, between white space. *)
Lemma trim_infix (s : jsstring) :
  exists pre suf, s = pre ++ trim s ++ suf
    /\ forallb isWhiteSpace pre = true /\ forallb isWhiteSpace suf = true.
Proof.
  destruct (trimStart_suffix s) as (pre & Hs & Hp).
  destruct (trimEnd_prefix (trimStart s)) as (suf & Ht & Hsuf).
  exists pre, suf. unfold trim. rewrite <- Ht. auto.
Qed.

End TrimFacts.

Section CharPatternFacts.

Variable p : Z -> bool.

Lemma matchAt_Char bef aft :
  matchAt (Char p) bef aft =
  match aft with
  | c :: rest =>
      if p c
      then Some {| start := {| before := bef; after := aft; caps := [] |};
                   stop := {| before := c :: bef; after := rest; caps := [] |} |}
      else None
  | [] => None
  end.
Proof.
  unfold matchAt. simpl. destruct aft as [|c rest]; [reflexivity |].
  destruct (p c); reflexivity.
Qed.

Lemma execFrom_Char : forall aft bef,
  (execFrom (Char p) bef aft = None /\ forallb (fun c => negb (p c)) aft = true)
  \/ exists pre c rest,
       aft = pre ++ c :: rest /\ forallb (fun c => negb (p c)) pre = true /\ p c = true
       /\ execFrom (Char p) bef aft
          = Some {| start := {| before := rev pre ++ bef; after := c :: rest; caps := [] |};
                    stop := {| before := c :: rev pre ++ bef; after := rest; caps := [] |} |}.
Proof.
  induction aft as [|x aft IH]; intros bef.
  - left. split; reflexivity.
  - cbn [execFrom]. rewrite matchAt_Char.
    destruct (p x) eqn:E.
    + right. exists [], x, aft. simpl. auto.
    + destruct (IH (x :: bef)) as [[Hn Hall]|(pre & c & rest & -> & Hpre & Hc & He)].
      * left. simpl. rewrite E. simpl. auto.
      * right. exists (x :: pre), c, rest. simpl. rewrite E. simpl.
        split; [reflexivity |]. split; [exact Hpre |]. split; [exact Hc |].
        rewrite He. now rewrite <- app_assoc.
Qed.

Lemma flat_map_unmatched (repl : jsstring) (l : jsstring) :
  forallb (fun c => negb (p c)) l = true ->
  flat_map (fun c => if p c then repl else [c]) l = l.
Proof.
  induction l as [|c l IH]; simpl; [reflexivity |].
  intros H. apply andb_true_iff in H. destruct H as [Hc H].
  apply negb_true_iff in Hc. rewrite Hc. simpl. now rewrite IH.
Qed.

(** Replacing every match of a one-unit pattern is a unit-by-unit
    substitution. *)
Lemma replaceFrom_Char (repl : jsstring) : forall fuel bef aft,
  (length aft < fuel)%nat ->
  replaceFrom fuel (Char p) repl bef aft
  = flat_map (fun c => if p c then repl else [c]) aft.
Proof.
  induction fuel as [|fuel IH]; intros bef aft Hf; [lia |].
  cbn [replaceFrom].
  destruct (execFrom_Char aft bef) as [[-> Hall]|(pre & c & rest & -> & Hpre & Hc & ->)].
  - symmetry. now apply flat_map_unmatched.
  - cbn [start stop after before]. unfold matched, consumed. cbn [start stop after].
    replace (length (c :: rest) - length rest)%nat with 1%nat by (simpl; lia).
    cbn [firstn].
    replace (length (pre ++ c :: rest) - length (c :: rest))%nat with (length pre)
      by (rewrite length_app; lia).
    rewrite firstn_app, firstn_all, Nat.sub_diag. cbn [firstn]. rewrite app_nil_r.
    rewrite flat_map_app. cbn [flat_map]. rewrite Hc.
    rewrite (flat_map_unmatched _ _ Hpre).
    rewrite IH; [reflexivity |]. rewrite length_app in Hf. simpl in Hf. lia.
Qed.

Lemma replaceAll_Char (repl s : jsstring) :
  replaceAll (Char p) repl s = flat_map (fun c => if p c then repl else [c]) s.
Proof. unfold replaceAll. apply replaceFrom_Char. lia. Qed.

End CharPatternFacts.

(** ** ContentReconstructor: further facts *)

Section FormatterMoreFacts.
Import Parser Formatter FormatterText.

(** The pieces of a split are made of units of the text. *)
Lemma splitFrom_units r : forall fuel seg bef aft piece c,
  In piece (splitFrom fuel r seg bef aft) -> In c piece -> In c seg \/ In c aft.
Proof.
  induction fuel as [|fuel IH]; intros seg bef aft piece c Hp Hc.
  - simpl in Hp. destruct Hp as [<-|[]]. apply in_app_or in Hc.
    destruct Hc as [Hc|Hc]; [left; now apply in_rev | now right].
  - cbn [splitFrom] in Hp. destruct aft as [|x rest].
    + destruct Hp as [<-|[]]. left. now apply in_rev.
    + assert (In piece (splitFrom fuel r (x :: seg) (x :: bef) rest) ->
              In c seg \/ In c (x :: rest)) as Hskip.
      { intros H. destruct (IH _ _ _ _ _ H Hc) as [[<-|H']|H'].
        - right. now left.
        - now left.
        - right. now right. }
      destruct (matchAt r bef (x :: rest)) as [m|] eqn:Em; [| now apply Hskip].
      destruct (Nat.eqb (length (after (stop m))) (length (x :: rest)) && negb (truthy seg));
        [now apply Hskip |].
      destruct Hp as [<-|Hp]; [left; now apply in_rev |].
      destruct (IH _ _ _ _ _ Hp Hc) as [[]|H'].
      right. apply matchAt_sound in Em. destruct Em as (_ & Ha & _ & Hm).
      apply matches_spans in Hm. destruct Hm as (w & Hw & _).
      rewrite Ha in Hw. rewrite Hw. apply in_or_app. now right.
Qed.

Lemma split_units r s piece c : In piece (split r s) -> In c piece -> In c s.
Proof.
  unfold split. destruct s as [|x s]; intros Hp Hc.
  - destruct (matchAt r [] []); [destruct Hp |]. destruct Hp as [<-|[]]. destruct Hc.
  - destruct (splitFrom_units _ _ _ _ _ _ _ Hp Hc) as [[]|H]. exact H.
Qed.

Lemma paragraphsOf_whitespace text :
  forallb isWhiteSpace text = true -> paragraphsOf text = [].
Proof.
  intros Hws. unfold paragraphsOf.
  assert (forall piece, In piece (split blankLineRe text) -> trim piece = []) as Hp.
  { intros piece Hin. apply trim_whitespace. apply forallb_forall. intros c Hc.
    rewrite forallb_forall in Hws. apply Hws. eapply split_units; eauto. }
  induction (split blankLineRe text) as [|piece l IH]; [reflexivity |].
  simpl. rewrite (Hp piece) by now left. simpl. apply IH.
  intros q Hq. apply Hp. now right.
Qed.

Lemma formatTextToParagraphs_join text :
  formatTextToParagraphs text = join [10; 10] (map wrapParagraph (paragraphsOf text)).
Proof.
  unfold formatTextToParagraphs. destruct text as [|c t]; [| reflexivity].
  rewrite paragraphsOf_whitespace; reflexivity.
Qed.

Lemma wrapParagraph_breaks paragraph :
  wrapParagraph paragraph = str "<p>" ++ withBreaks paragraph ++ str "</p>".
Proof.
  unfold wrapParagraph, newlineRe, chr. rewrite replaceAll_Char.
  unfold withBreaks. do 2 f_equal. apply flat_map_ext. intros c.
  now rewrite Z.eqb_sym.
Qed.

Lemma withBreaks_no_line_feed paragraph : ~ In 10 (withBreaks paragraph).
Proof.
  unfold withBreaks. rewrite in_flat_map. intros (c & _ & H).
  destruct (c =? 10) eqn:E.
  - vm_compute in H. intuition discriminate.
  - apply Z.eqb_neq in E. destruct H as [H|[]]. congruence.
Qed.

Lemma wrapParagraph_no_line_feed paragraph : ~ In 10 (wrapParagraph paragraph).
Proof.
  rewrite wrapParagraph_breaks. intros H.
  apply in_app_or in H. destruct H as [H|H]; [vm_compute in H; intuition discriminate |].
  apply in_app_or in H. destruct H as [H|H]; [now apply withBreaks_no_line_feed in H |].
  vm_compute in H. intuition discriminate.
Qed.

Lemma count_occ_absent (l : list Z) (x : Z) : ~ In x l -> count_occ Z.eq_dec l x = 0%nat.
Proof. apply count_occ_not_In. Qed.

Lemma join_line_feeds (l : list jsstring) :
  (forall w, In w l -> ~ In 10 w) ->
  count_occ Z.eq_dec (join [10; 10] l) 10 = (2 * (length l - 1))%nat.
Proof.
  induction l as [|x [|y t] IH]; intros H.
  - reflexivity.
  - simpl. apply count_occ_absent. apply H. now left.
  - change (join [10; 10] (x :: y :: t)) with (x ++ [10; 10] ++ join [10; 10] (y :: t)).
    rewrite !count_occ_app, IH by (intros w Hw; apply H; now right).
    rewrite (count_occ_absent x) by (apply H; now left).
    simpl. lia.
Qed.

(** X18: [formatTextToParagraphs] returns the paragraphs of the text,
    each between [<p>] and [</p>] with every line feed of the paragraph
    turned into [<br>], joined by two line feeds: the only line feeds of
    the result are these separators, two fewer than twice the number of
    paragraphs. A text of white space only gives the empty text. *)
Theorem formatTextToParagraphs_paragraphs text :
  let paragraphs := paragraphsOf text in
  formatTextToParagraphs text
  = join [10; 10]
      (map (fun paragraph => str "<p>" ++ withBreaks paragraph ++ str "</p>") paragraphs)
  /\ (forall paragraph, In paragraph paragraphs -> ~ In 10 (withBreaks paragraph))
  /\ count_occ Z.eq_dec (formatTextToParagraphs text) 10
     = (2 * (length paragraphs - 1))%nat
  /\ (forallb isWhiteSpace text = true -> formatTextToParagraphs text = []).
Proof.
  cbv zeta. rewrite formatTextToParagraphs_join.
  split; [| split; [| split]].
  - f_equal. apply map_ext. intros p. apply wrapParagraph_breaks.
  - intros p _. apply withBreaks_no_line_feed.
  - rewrite join_line_feeds, length_map; [reflexivity |].
    intros w Hw. apply in_map_iff in Hw. destruct Hw as (p & <- & _).
    apply wrapParagraph_no_line_feed.
  - intros H. now rewrite paragraphsOf_whitespace.
Qed.

Lemma imap_map {A B} (f : A -> B) (l : list A) : imap (fun _ => f) l = map f l.
Proof.
  induction l as [|x l IH]; [reflexivity |]. simpl. f_equal.
  rewrite <- IH. apply imap_ext. reflexivity.
Qed.

(** X19: when the main content is not empty but holds white space only,
    so no paragraph, and there are headings, [formatFullArticleToHTML]
    puts under every heading the paragraphs of that heading's
    description. *)
Theorem formatFullArticleToHTML_without_paragraphs suggestion a :
  fullArticle suggestion = Some a ->
  mainContent a <> [] ->
  forallb isWhiteSpace (mainContent a) = true ->
  headings (structure suggestion) <> [] ->
  formatFullArticleToHTML suggestion
  = trim (introductionBlock a
          ++ (divOpen (str "main-content") ++ [10] ++
              concat (map (fun h => headingTag h
                                    ++ formatTextToParagraphs (description h)
                                    ++ [10; 10])
                        (headings (structure suggestion)))
              ++ str "</div>" ++ [10; 10])
          ++ conclusionBlock a).
Proof.
  intros Ha Hne Hws Hh. unfold formatFullArticleToHTML. rewrite Ha.
  do 2 f_equal. f_equal. unfold mainBlock.
  destruct (mainContent a) as [|c t] eqn:Em; [congruence |]. simpl truthy. cbv iota.
  destruct (headings (structure suggestion)) as [|h hs] eqn:Eh; [congruence |].
  unfold structuredMain, splitContentByHeadings. cbv zeta.
  rewrite (paragraphsOf_whitespace _ Hws).
  do 3 f_equal. rewrite <- imap_map. reflexivity.
Qed.

Lemma formatFullArticleToHTML_without_paragraphs_witness :
  fullArticle blankSuggestion = Some blankArticle
  /\ mainContent blankArticle <> []
  /\ forallb isWhiteSpace (mainContent blankArticle) = true
  /\ headings (structure blankSuggestion) <> []
  /\ formatFullArticleToHTML blankSuggestion
     = trim (introductionBlock blankArticle
             ++ (divOpen (str "main-content") ++ [10] ++
                 concat (map (fun h => headingTag h
                                       ++ formatTextToParagraphs (description h)
                                       ++ [10; 10])
                           (headings (structure blankSuggestion)))
                 ++ str "</div>" ++ [10; 10])
             ++ conclusionBlock blankArticle).
Proof.
  assert (fullArticle blankSuggestion = Some blankArticle) as H1 by reflexivity.
  assert (mainContent blankArticle <> []) as H2 by discriminate.
  assert (forallb isWhiteSpace (mainContent blankArticle) = true) as H3 by reflexivity.
  assert (headings (structure blankSuggestion) <> []) as H4 by discriminate.
  split; [exact H1 |]. split; [exact H2 |]. split; [exact H3 |]. split; [exact H4 |].
  exact (formatFullArticleToHTML_without_paragraphs blankSuggestion blankArticle H1 H2 H3 H4).
Defined.

Lemma trimStart_app_ws (w l : jsstring) :
  forallb isWhiteSpace w = true -> trimStart (w ++ l) = trimStart l.
Proof.
  induction w as [|c w IH]; simpl; [reflexivity |].
  intros H. apply andb_true_iff in H. destruct H as [-> H]. now apply IH.
Qed.

Lemma trimEnd_app_ws (l w : jsstring) :
  forallb isWhiteSpace w = true -> trimEnd (l ++ w) = trimEnd l.
Proof.
  intros H. unfold trimEnd. rewrite rev_app_distr, trimStart_app_ws; [reflexivity |].
  apply forallb_forall. intros x Hx. rewrite forallb_forall in H. apply H. now apply in_rev.
Qed.

(** A text made of blocks: empty, or from the opening of a [div] to the
    closing of one, with white space after it. *)
Local Abbreviation blockShaped l :=
  (l = [] \/ exists mid ws, l = str "<div class=" ++ mid ++ str "</div>" ++ ws
                          /\ forallb isWhiteSpace ws = true).

Lemma blockShaped_app (a b : jsstring) : blockShaped a -> blockShaped b -> blockShaped (a ++ b).
Proof.
  intros [->|(m1 & w1 & -> & H1)] Hb; [exact Hb |].
  destruct Hb as [->|(m2 & w2 & -> & H2)].
  - right. exists m1, w1. rewrite app_nil_r. auto.
  - right. exists (m1 ++ str "</div>" ++ w1 ++ str "<div class=" ++ m2), w2.
    split; [| exact H2]. now rewrite <- !app_assoc.
Qed.

Lemma block_shape name body ws (l : jsstring) :
  forallb isWhiteSpace ws = true ->
  l = divOpen name ++ body ++ str "</div>" ++ ws ->
  blockShaped l.
Proof.
  intros H ->. right. exists ([34] ++ name ++ [34] ++ str ">" ++ body), ws.
  split; [| exact H]. unfold divOpen. now rewrite <- !app_assoc.
Qed.

Lemma introductionBlock_shape a : blockShaped (introductionBlock a).
Proof.
  unfold introductionBlock. destruct (truthy (introduction a)); [| now left].
  apply (block_shape (str "introduction")
           ([10] ++ formatTextToParagraphs (introduction a) ++ [10]) [10; 10]);
    [reflexivity | now rewrite <- !app_assoc].
Qed.

Lemma mainBlock_shape a hs : blockShaped (mainBlock a hs).
Proof.
  unfold mainBlock. destruct (truthy (mainContent a)); [| now left].
  destruct hs as [|h hs].
  - apply (block_shape (str "main-content")
             ([10] ++ formatTextToParagraphs (mainContent a) ++ [10]) [10; 10]);
      [reflexivity | now rewrite <- !app_assoc].
  - unfold structuredMain. cbv zeta.
    apply (block_shape (str "main-content") ([10] ++ concat (imap (sectionBlock
             (splitContentByHeadings (mainContent a) (h :: hs))) (h :: hs))) [10; 10]);
      [reflexivity | now rewrite <- !app_assoc].
Qed.

Lemma conclusionBlock_shape a : blockShaped (conclusionBlock a).
Proof.
  unfold conclusionBlock. destruct (truthy (conclusion a)); [| now left].
  apply (block_shape (str "conclusion")
           ([10] ++ formatTextToParagraphs (conclusion a) ++ [10]) []);
    [reflexivity | now rewrite <- !app_assoc, app_nil_r].
Qed.

Lemma trim_blockShaped (l : jsstring) :
  blockShaped l ->
  trim l = [] /\ l = []
  \/ exists mid, trim l = str "<div class=" ++ mid ++ str "</div>".
Proof.
  intros [->|(mid & ws & -> & Hws)]; [left; auto |].
  right. exists mid. unfold trim.
  assert (str "<div class=" = 60 :: str "div class=") as Hp by (vm_compute; reflexivity).
  assert (str "</div>" = str "</div" ++ [62]) as Hd by (vm_compute; reflexivity).
  assert (trimStart (str "<div class=" ++ mid ++ str "</div>" ++ ws)
          = str "<div class=" ++ mid ++ str "</div>" ++ ws) as ->.
  { rewrite Hp. reflexivity. }
  replace (str "<div class=" ++ mid ++ str "</div>" ++ ws)
    with ((str "<div class=" ++ mid ++ str "</div>") ++ ws)
    by now rewrite <- !app_assoc.
  rewrite trimEnd_app_ws by exact Hws.
  apply (trimEnd_fixed _ (str "<div class=" ++ mid ++ str "</div") 62); [| reflexivity].
  rewrite Hd. now rewrite <- !app_assoc.
Qed.

(** X20: the text returned by [formatFullArticleToHTML] is empty or runs
    from the opening of a [div] to the closing of one, so that trimming it
    again changes nothing; with an article, it is empty exactly when
    introduction, main content and conclusion are all empty. *)
Theorem formatFullArticleToHTML_blocks suggestion :
  (formatFullArticleToHTML suggestion = []
   \/ exists mid,
        formatFullArticleToHTML suggestion = str "<div class=" ++ mid ++ str "</div>")
  /\ trim (formatFullArticleToHTML suggestion) = formatFullArticleToHTML suggestion
  /\ forall a, fullArticle suggestion = Some a ->
       (formatFullArticleToHTML suggestion = [] <->
        introduction a = [] /\ mainContent a = [] /\ conclusion a = []).
Proof.
  unfold formatFullArticleToHTML.
  destruct (fullArticle suggestion) as [a|].
  - set (hs := headings (structure suggestion)).
    assert (blockShaped (introductionBlock a ++ mainBlock a hs ++ conclusionBlock a)) as Hb.
    { apply blockShaped_app; [apply introductionBlock_shape |].
      apply blockShaped_app; [apply mainBlock_shape | apply conclusionBlock_shape]. }
    split; [| split; [apply trim_idempotent |]].
    + destruct (trim_blockShaped _ Hb) as [[-> _]|H]; [now left | now right].
    + intros a' [= <-]. split.
      * intros H. destruct (trim_blockShaped _ Hb) as [[_ E]|(mid & E)].
        -- apply app_eq_nil in E. destruct E as [E1 E].
           apply app_eq_nil in E. destruct E as [E2 E3].
           unfold introductionBlock in E1. unfold mainBlock in E2.
           unfold conclusionBlock in E3.
           destruct (introduction a); [| discriminate E1].
           destruct (conclusion a); [| discriminate E3].
           destruct (mainContent a); [auto |].
           destruct hs; discriminate E2.
        -- rewrite H in E. discriminate E.
      * intros (E1 & E2 & E3). unfold introductionBlock, mainBlock, conclusionBlock.
        rewrite E1, E2, E3. reflexivity.
  - split; [now left |]. split; [reflexivity |]. intros a. discriminate.
Qed.

End FormatterMoreFacts.

(** ** SeoScorer: further facts *)

Section SeoMoreFacts.
Import Seo SeoParts.

Ltac case_conditions :=
  repeat match goal with
         | |- context [if ?b then _ else _] => destruct b
         end.

(** X21: the four sub-scores that [analyzeSEO] reports are integers from
    0 to 100 and multiples of 5, for every input and case mapping. *)
Theorem analyzeSEO_subscores (toLowerCase : jsstring -> jsstring) articleId input :
  let r := analyzeSEO toLowerCase articleId input in
  scoreValue (titleScore r)
  /\ scoreValue (metaDescriptionScore r)
  /\ scoreValue (contentStructureScore r)
  /\ scoreValue (keywordOptimizationScore r).
Proof.
  cbv zeta. unfold analyzeSEO. cbv zeta.
  cbn [titleScore metaDescriptionScore contentStructureScore keywordOptimizationScore].
  split; [apply calculateTitleScore_value |].
  split; [apply calculateMetaDescriptionScore_value |].
  split; [apply calculateContentStructureScore_value |].
  apply calculateKeywordOptimizationScore_value.
Qed.

Lemma calculateTitleScore_parts title :
  title <> [] ->
  calculateTitleScore title
  = clamp (titleLengthPoints title
           + (if hasNumber title then 15 else 0)
           + (if hasQuestion title then 10 else 0)
           + otherTitlePoints title).
Proof.
  intros Hne. unfold calculateTitleScore.
  destruct title as [|c t]; [congruence |]. simpl truthy. cbv iota. cbv zeta.
  unfold titleLengthPoints, hasNumber, hasQuestion, otherTitlePoints. cbv zeta.
  f_equal. case_conditions; lia.
Qed.

Lemma otherTitlePoints_bounds title :
  (len title <= 100 -> -10 <= otherTitlePoints title <= 35)
  /\ (100 < len title -> -30 <= otherTitlePoints title <= 15).
Proof.
  unfold otherTitlePoints.
  destruct (100 <? len title) eqn:E; [apply Z.ltb_lt in E | apply Z.ltb_ge in E];
    (split; [intros H | intros H]; try lia; case_conditions; lia).
Qed.

Lemma titleLengthPoints_cases title :
  (100 < len title -> titleLengthPoints title = 10)
  /\ 10 <= titleLengthPoints title <= 40.
Proof.
  unfold titleLengthPoints. cbv zeta. split.
  - intros H.
    destruct ((30 <=? len title) && (len title <=? 60)) eqn:E1; [lia |].
    destruct ((20 <=? len title) && (len title <=? 80)) eqn:E2; [lia | reflexivity].
  - case_conditions; lia.
Qed.

(** X22: of two titles that are not empty, have the same length and earn
    the same points from the other tests, the one with a number and a
    question mark scores strictly higher than the one with neither. *)
Theorem calculateTitleScore_number_and_question t1 t2 :
  t1 <> [] -> t2 <> [] ->
  len t1 = len t2 ->
  otherTitlePoints t1 = otherTitlePoints t2 ->
  hasNumber t1 = true -> hasQuestion t1 = true ->
  hasNumber t2 = false -> hasQuestion t2 = false ->
  calculateTitleScore t2 < calculateTitleScore t1.
Proof.
  intros H1 H2 Hlen Hother Hn1 Hq1 Hn2 Hq2.
  rewrite (calculateTitleScore_parts _ H1), (calculateTitleScore_parts _ H2).
  rewrite Hn1, Hq1, Hn2, Hq2, Hother.
  assert (titleLengthPoints t1 = titleLengthPoints t2) as ->
    by (unfold titleLengthPoints; now rewrite Hlen).
  destruct (otherTitlePoints_bounds t2) as [Hshort Hlong].
  destruct (titleLengthPoints_cases t2) as [Hten Hrange].
  unfold clamp.
  destruct (Z.le_gt_cases (len t2) 100) as [Hl|Hl];
    [specialize (Hshort Hl) | specialize (Hlong Hl); specialize (Hten Hl)]; lia.
Qed.

Lemma calculateTitleScore_number_and_question_witness :
  str "7 tips?" <> [] /\ str "a tipsx" <> []
  /\ len (str "7 tips?") = len (str "a tipsx")
  /\ otherTitlePoints (str "7 tips?") = otherTitlePoints (str "a tipsx")
  /\ hasNumber (str "7 tips?") = true /\ hasQuestion (str "7 tips?") = true
  /\ hasNumber (str "a tipsx") = false /\ hasQuestion (str "a tipsx") = false
  /\ calculateTitleScore (str "a tipsx") < calculateTitleScore (str "7 tips?").
Proof.
  assert (str "7 tips?" <> []) as H1 by (vm_compute; discriminate).
  assert (str "a tipsx" <> []) as H2 by (vm_compute; discriminate).
  assert (len (str "7 tips?") = len (str "a tipsx")) as H3 by (vm_compute; reflexivity).
  assert (otherTitlePoints (str "7 tips?") = otherTitlePoints (str "a tipsx")) as H4
    by (vm_compute; reflexivity).
  assert (hasNumber (str "7 tips?") = true) as H5 by (vm_compute; reflexivity).
  assert (hasQuestion (str "7 tips?") = true) as H6 by (vm_compute; reflexivity).
  assert (hasNumber (str "a tipsx") = false) as H7 by (vm_compute; reflexivity).
  assert (hasQuestion (str "a tipsx") = false) as H8 by (vm_compute; reflexivity).
  repeat (split; [assumption |]).
  exact (calculateTitleScore_number_and_question _ _ H1 H2 H3 H4 H5 H6 H7 H8).
Defined.

(** *** The table of word counts *)

















End SeoMoreFacts.

(** ** Plain text *)

Section PlainTextFacts.
Import Seo SeoParts.

Lemma run_Char p st k :
  run (Char p) st k
  = match after st with
    | c :: rest => if p c then k (advance c rest st) else None
    | [] => None
    end.
Proof. reflexivity. Qed.

Lemma run_Seq r1 r2 st k : run (Seq r1 r2) st k = run r1 st (fun st1 => run r2 st1 k).
Proof. reflexivity. Qed.

Lemma run_Star g r st k :
  run (Star g r) st k = starLoop g (run r) k (S (length (after st))) st.
Proof. reflexivity. Qed.

(** A greedy run of a one-unit pattern, with nothing asked of what
    follows, reads the longest run there is. *)
Lemma starLoop_greedy_Char p : forall fuel st,
  (length (after st) < fuel)%nat ->
  exists w rest,
    after st = w ++ rest /\ forallb p w = true
    /\ match rest with c :: _ => p c = false | [] => True end
    /\ starLoop true (run (Char p)) Some fuel st
       = Some {| before := rev w ++ before st; after := rest; caps := caps st |}.
Proof.
  induction fuel as [|fuel IH]; intros st Hf; [lia |].
  cbn [starLoop]. rewrite run_Char. destruct st as [bef aft cs]. cbn [after before caps] in *.
  destruct aft as [|c r].
  - exists [], []. simpl. auto.
  - destruct (p c) eqn:Ec.
    + unfold advance. cbn [after before caps length].
      assert (Nat.ltb (length r) (S (length r)) = true) as -> by (apply Nat.ltb_lt; lia).
      destruct (IH {| before := c :: bef; after := r; caps := cs |}) as (w & rest & Hw & Hp & Hr & ->).
      { simpl in *. lia. }
      cbn [after before caps] in *. exists (c :: w), rest. subst r.
      split; [reflexivity |]. split; [simpl; now rewrite Ec, Hp |]. split; [exact Hr |].
      simpl. now rewrite <- app_assoc.
    + exists [], (c :: r). simpl. auto.
Qed.

Lemma matchAt_spaces bef aft :
  match aft with
  | c :: r =>
      if isWhiteSpace c
      then exists w rest,
             r = w ++ rest /\ forallb isWhiteSpace w = true
             /\ match rest with c' :: _ => isWhiteSpace c' = false | [] => True end
             /\ matchAt spacesRe bef aft
                = Some {| start := {| before := bef; after := aft; caps := [] |};
                          stop := {| before := rev w ++ c :: bef; after := rest; caps := [] |} |}
      else matchAt spacesRe bef aft = None
  | [] => matchAt spacesRe bef aft = None
  end.
Proof.
  unfold matchAt, spacesRe, plus, space. rewrite run_Seq, run_Char. cbn [after].
  destruct aft as [|c r]; [reflexivity |].
  destruct (isWhiteSpace c) eqn:Ec; [| reflexivity].
  rewrite run_Star. unfold advance. cbn [after before caps].
  destruct (starLoop_greedy_Char isWhiteSpace (S (length r))
              {| before := c :: bef; after := r; caps := [] |})
    as (w & rest & Hw & Hp & Hr & He).
  { simpl. lia. }
  cbn [after before caps] in *. exists w, rest.
  split; [exact Hw |]. split; [exact Hp |]. split; [exact Hr |].
  now rewrite He.
Qed.

Lemma execFrom_spaces : forall aft bef,
  (execFrom spacesRe bef aft = None
   /\ forallb (fun c => negb (isWhiteSpace c)) aft = true)
  \/ exists pre c w rest,
       aft = pre ++ c :: w ++ rest
       /\ forallb (fun c => negb (isWhiteSpace c)) pre = true
       /\ isWhiteSpace c = true /\ forallb isWhiteSpace w = true
       /\ match rest with c' :: _ => isWhiteSpace c' = false | [] => True end
       /\ execFrom spacesRe bef aft
          = Some {| start := {| before := rev pre ++ bef; after := c :: w ++ rest; caps := [] |};
                    stop := {| before := rev w ++ c :: rev pre ++ bef; after := rest;
                               caps := [] |} |}.
Proof.
  induction aft as [|x aft IH]; intros bef.
  - left. split; reflexivity.
  - cbn [execFrom]. pose proof (matchAt_spaces bef (x :: aft)) as Hm. cbv beta iota in Hm.
    destruct (isWhiteSpace x) eqn:Ex.
    + destruct Hm as (w & rest & Hw & Hp & Hr & ->).
      right. exists [], x, w, rest. simpl. subst aft. auto 10.
    + rewrite Hm.
      destruct (IH (x :: bef)) as [[Hn Hall]|(pre & c & w & rest & -> & Hpre & Hc & Hw & Hr & He)].
      * left. simpl. rewrite Ex. simpl. auto.
      * right. exists (x :: pre), c, w, rest. simpl. rewrite Ex. simpl.
        split; [reflexivity |]. split; [exact Hpre |]. split; [exact Hc |].
        split; [exact Hw |]. split; [exact Hr |].
        rewrite He. now rewrite <- !app_assoc.
Qed.

Lemma singleSpaced_tail c t : singleSpaced (c :: t) = true -> singleSpaced t = true.
Proof. simpl. intros H. now apply andb_true_iff in H. Qed.

Lemma singleSpaced_suffix a b : singleSpaced (a ++ b) = true -> singleSpaced b = true.
Proof.
  induction a as [|c a IH]; [auto |]. intros H. apply IH. now apply singleSpaced_tail in H.
Qed.

Lemma singleSpaced_prefix a b : singleSpaced (a ++ b) = true -> singleSpaced a = true.
Proof.
  induction a as [|c a IH]; [reflexivity |].
  cbn [app singleSpaced]. intros H. apply andb_true_iff in H. destruct H as [Hc H].
  apply andb_true_iff. split; [| now apply IH].
  destruct (isWhiteSpace c); [| reflexivity].
  destruct a as [|c' a]; simpl in *.
  - apply andb_true_iff in Hc. destruct Hc as [-> _]. reflexivity.
  - exact Hc.
Qed.

Lemma singleSpaced_no_space (s : jsstring) :
  forallb (fun c => negb (isWhiteSpace c)) s = true -> singleSpaced s = true.
Proof.
  induction s as [|c s IH]; [reflexivity |].
  cbn [forallb singleSpaced]. intros H. apply andb_true_iff in H. destruct H as [Hc H].
  apply negb_true_iff in Hc. rewrite Hc. simpl. now apply IH.
Qed.

Lemma singleSpaced_app_no_space (pre l : jsstring) :
  forallb (fun c => negb (isWhiteSpace c)) pre = true ->
  singleSpaced l = true -> singleSpaced (pre ++ l) = true.
Proof.
  induction pre as [|c pre IH]; [auto |].
  cbn [forallb app singleSpaced]. intros H Hl. apply andb_true_iff in H. destruct H as [Hc H].
  apply negb_true_iff in Hc. rewrite Hc. simpl. now apply IH.
Qed.

(** The text after every run of white space has become one space. *)
Lemma replaceFrom_spaces : forall fuel bef aft,
  (length aft < fuel)%nat ->
  singleSpaced (replaceFrom fuel spacesRe [32] bef aft) = true
  /\ match aft with
     | c :: _ =>
         isWhiteSpace c = false ->
         exists t', replaceFrom fuel spacesRe [32] bef aft = c :: t'
     | [] => replaceFrom fuel spacesRe [32] bef aft = []
     end.
Proof.
  induction fuel as [|fuel IH]; intros bef aft Hf; [lia |].
  cbn [replaceFrom].
  destruct (execFrom_spaces aft bef)
    as [[-> Hall]|(pre & c & w & rest & -> & Hpre & Hc & Hw & Hr & ->)].
  - split; [now apply singleSpaced_no_space |].
    destruct aft as [|c t]; [reflexivity |]. intros _. now exists t.
  - cbn [start stop after before]. unfold matched, consumed. cbn [start stop after].
    replace (length (c :: w ++ rest) - length rest)%nat with (S (length w))
      by (simpl; rewrite length_app; lia).
    cbn [firstn].
    replace (length (pre ++ c :: w ++ rest) - length (c :: w ++ rest))%nat with (length pre)
      by (rewrite length_app; lia).
    rewrite firstn_app, firstn_all, Nat.sub_diag. cbn [firstn]. rewrite app_nil_r.
    destruct (IH (rev w ++ c :: rev pre ++ bef) rest) as [Hs Hh].
    { rewrite !length_app in Hf. simpl in Hf. rewrite length_app in Hf. lia. }
    set (out := replaceFrom fuel spacesRe [32] (rev w ++ c :: rev pre ++ bef) rest) in *.
    split.
    + apply singleSpaced_app_no_space; [exact Hpre |].
      change ([32] ++ out) with (32 :: out). cbn [singleSpaced].
      rewrite Hs, andb_true_r.
      change (isWhiteSpace 32) with true. cbv iota. simpl Z.eqb. simpl andb.
      destruct rest as [|c' rest'].
      * rewrite Hh. reflexivity.
      * destruct (Hh Hr) as (t' & ->). now rewrite Hr.
    + destruct pre as [|c0 pre'].
      * simpl. intros Hc0. congruence.
      * simpl. intros _. eauto.
Qed.

Lemma singleSpaced_spec (s : jsstring) :
  singleSpaced s = true ->
  forall i c, s !! i = Some c -> isWhiteSpace c = true ->
    c = 32 /\ forall c', s !! S i = Some c' -> isWhiteSpace c' = false.
Proof.
  induction s as [|x s IH]; intros H i c Hi Hc; [destruct i; discriminate |].
  cbn [singleSpaced] in H. apply andb_true_iff in H. destruct H as [Hx Hs].
  destruct i as [|i].
  - simpl in Hi. injection Hi as ->. rewrite Hc in Hx.
    apply andb_true_iff in Hx. destruct Hx as [H32 Hnext].
    split; [now apply Z.eqb_eq in H32 |].
    intros c' Hc'. destruct s as [|y s]; [discriminate |].
    simpl in Hc'. injection Hc' as ->. now apply negb_true_iff in Hnext.
  - simpl in Hi. destruct (IH Hs i c Hi Hc) as [E Hn]. split; [exact E |].
    intros c' Hc'. apply Hn. exact Hc'.
Qed.

(** X24: the plain text that [extractPlainText] returns holds white space
    only as single spaces between other units: every white-space unit of
    it is a space, the unit after a space is not white space, and the
    text neither begins nor ends with white space. *)
Theorem extractPlainText_single_spaced html :
  let text := extractPlainText html in
  (forall i c, text !! i = Some c -> isWhiteSpace c = true ->
     c = 32 /\ forall c', text !! S i = Some c' -> isWhiteSpace c' = false)
  /\ (forall c rest, text = c :: rest -> isWhiteSpace c = false)
  /\ (forall rest c, text = rest ++ [c] -> isWhiteSpace c = false).
Proof.
  cbv zeta. unfold extractPlainText.
  destruct (truthy html).
  2:{ split; [intros i c H; destruct i; discriminate |].
      split; [discriminate |]. intros rest c H. destruct rest; discriminate. }
  set (spaced := replaceAll spacesRe [32] (replaceAll tagRe [32] html)).
  assert (singleSpaced spaced = true) as Hs.
  { unfold spaced, replaceAll. apply replaceFrom_spaces. lia. }
  split; [| split].
  - apply singleSpaced_spec.
    destruct (trim_infix spaced) as (pre & suf & E & _ & _).
    rewrite E in Hs. apply singleSpaced_suffix in Hs. now apply singleSpaced_prefix in Hs.
  - intros c rest. apply trim_head.
  - intros rest c. apply trim_last.
Qed.

End PlainTextFacts.

Section TagFacts.
Import Seo SeoParts.

Local Abbreviation notGt := (fun c : Z => negb (existsb (Z.eqb c) [62])).

Lemma notGt_false c : negb (existsb (Z.eqb c) [62]) = false <-> c = 62.
Proof.
  simpl. rewrite orb_false_r, negb_false_iff. apply Z.eqb_eq.
Qed.

Lemma notGt_true c : negb (existsb (Z.eqb c) [62]) = true <-> c <> 62.
Proof.
  simpl. rewrite orb_false_r, negb_true_iff. apply Z.eqb_neq.
Qed.

(** A greedy run of units other than [>] that must be followed by [>]:
    it reads up to the first [>], and fails when there is none. *)
Lemma starLoop_until_gt : forall fuel st,
  (length (after st) < fuel)%nat ->
  exists w rest,
    after st = w ++ rest /\ forallb notGt w = true
    /\ ((rest = []
         /\ starLoop true (run (Char notGt)) (fun st' => run (chr 62) st' Some) fuel st = None)
        \/ exists rest',
             rest = 62 :: rest'
             /\ starLoop true (run (Char notGt)) (fun st' => run (chr 62) st' Some) fuel st
                = Some {| before := 62 :: rev w ++ before st; after := rest';
                          caps := caps st |}).
Proof.
  induction fuel as [|fuel IH]; intros st Hf; [lia |].
  cbn [starLoop]. rewrite run_Char. destruct st as [bef aft cs]. cbn [after before caps] in *.
  destruct aft as [|c r].
  - exists [], []. split; [reflexivity |]. split; [reflexivity |]. left.
    split; [reflexivity |]. reflexivity.
  - cbv beta. destruct (negb (existsb (Z.eqb c) [62])) eqn:Ec.
    + unfold advance. cbn [after before caps length].
      assert (Nat.ltb (length r) (S (length r)) = true) as -> by (apply Nat.ltb_lt; lia).
      destruct (IH {| before := c :: bef; after := r; caps := cs |})
        as (w & rest & Hw & Hp & Hcase).
      { simpl in *. lia. }
      cbn [after before caps] in *. exists (c :: w), rest. subst r.
      split; [reflexivity |].
      split; [cbn [forallb]; cbv beta; now rewrite Ec, Hp |].
      destruct Hcase as [[-> ->]|(rest' & -> & ->)].
      * left. split; [reflexivity |]. cbn [orElse]. unfold chr. rewrite run_Char.
        cbn [after]. apply notGt_true in Ec.
        assert ((62 =? c) = false) as -> by (apply Z.eqb_neq; congruence). reflexivity.
      * right. exists rest'. split; [reflexivity |]. cbn [orElse].
        cbn [rev]. now rewrite <- app_assoc.
    + apply notGt_false in Ec. subst c.
      exists [], (62 :: r). split; [reflexivity |]. split; [reflexivity |].
      right. exists r. split; [reflexivity |]. reflexivity.
Qed.

Lemma forallb_notGt w : forallb notGt w = true <-> existsb (Z.eqb 62) w = false.
Proof.
  induction w as [|c w IH]; [simpl; tauto |].
  change (forallb notGt (c :: w))
    with (negb (existsb (Z.eqb c) [62]) && forallb notGt w).
  change (existsb (Z.eqb 62) (c :: w)) with ((62 =? c) || existsb (Z.eqb 62) w).
  rewrite andb_true_iff, orb_false_iff, IH, notGt_true, Z.eqb_neq.
  split; intros [H1 H2]; split; auto; congruence.
Qed.

Lemma existsb_app_gt (a b : jsstring) :
  existsb (Z.eqb 62) (a ++ b) = existsb (Z.eqb 62) a || existsb (Z.eqb 62) b.
Proof. apply existsb_app. Qed.

Lemma run_chr a st k :
  run (chr a) st k
  = match after st with
    | c :: rest => if a =? c then k (advance c rest st) else None
    | [] => None
    end.
Proof. reflexivity. Qed.

Lemma matchAt_tag bef aft :
  match aft with
  | c :: t =>
      if c =? 60
      then (existsb (Z.eqb 62) t = false /\ matchAt tagRe bef aft = None)
           \/ exists w rest,
                t = w ++ 62 :: rest /\ existsb (Z.eqb 62) w = false
                /\ matchAt tagRe bef aft
                   = Some {| start := {| before := bef; after := aft; caps := [] |};
                             stop := {| before := 62 :: rev w ++ c :: bef; after := rest;
                                        caps := [] |} |}
      else matchAt tagRe bef aft = None
  | [] => matchAt tagRe bef aft = None
  end.
Proof.
  destruct aft as [|c t]; [reflexivity |].
  unfold matchAt, tagRe. rewrite run_Seq, run_chr. cbn [after].
  rewrite (Z.eqb_sym 60 c).
  destruct (c =? 60) eqn:Ec; [| reflexivity].
  rewrite run_Seq, run_Star. unfold advance. cbn [after before caps].
  unfold noneOf.
  destruct (starLoop_until_gt (S (length t)) {| before := c :: bef; after := t; caps := [] |})
    as (w & rest & Hw & Hp & Hcase).
  { simpl. lia. }
  cbn [after before caps] in *. apply forallb_notGt in Hp.
  destruct Hcase as [[-> He]|(rest' & -> & He)].
  - left. rewrite app_nil_r in Hw. subst t. split; [exact Hp |].
    now rewrite He.
  - right. exists w, rest'. split; [exact Hw |]. split; [exact Hp |].
    now rewrite He.
Qed.

Lemma noTag_no_lt (s : jsstring) :
  existsb (Z.eqb 60) s = false -> noTag s = true.
Proof.
  induction s as [|c s IH]; [reflexivity |].
  cbn [existsb noTag]. intros H. apply orb_false_iff in H. destruct H as [Hc H].
  rewrite (Z.eqb_sym c 60), Hc. simpl. now apply IH.
Qed.

Lemma noTag_app_no_lt (pre l : jsstring) :
  existsb (Z.eqb 60) pre = false -> noTag l = true -> noTag (pre ++ l) = true.
Proof.
  induction pre as [|c pre IH]; [auto |].
  cbn [existsb app noTag]. intros H Hl. apply orb_false_iff in H. destruct H as [Hc H].
  rewrite (Z.eqb_sym c 60), Hc. simpl. now apply IH.
Qed.

Lemma execFrom_tag : forall aft bef,
  (execFrom tagRe bef aft = None /\ noTag aft = true)
  \/ exists pre w rest,
       aft = pre ++ 60 :: w ++ 62 :: rest
       /\ existsb (Z.eqb 60) pre = false
       /\ execFrom tagRe bef aft
          = Some {| start := {| before := rev pre ++ bef; after := 60 :: w ++ 62 :: rest;
                                caps := [] |};
                    stop := {| before := 62 :: rev w ++ 60 :: rev pre ++ bef; after := rest;
                               caps := [] |} |}.
Proof.
  induction aft as [|x aft IH]; intros bef.
  - left. split; reflexivity.
  - cbn [execFrom]. pose proof (matchAt_tag bef (x :: aft)) as Hm. cbv beta iota in Hm.
    destruct (x =? 60) eqn:Ex.
    + apply Z.eqb_eq in Ex. subst x.
      destruct Hm as [[Hno ->]|(w & rest & -> & Hw & ->)].
      * destruct (IH (60 :: bef)) as [[-> Hall]|(pre & w & rest & E & Hpre & He)].
        -- left. split; [reflexivity |]. cbn [noTag]. simpl Z.eqb. cbv iota.
           now rewrite Hno, Hall.
        -- exfalso. rewrite E in Hno. rewrite existsb_app in Hno.
           apply orb_false_iff in Hno. destruct Hno as [_ Hno].
           cbn [existsb] in Hno. apply orb_false_iff in Hno. destruct Hno as [_ Hno].
           rewrite existsb_app in Hno. apply orb_false_iff in Hno. destruct Hno as [_ Hno].
           simpl in Hno. discriminate.
      * right. exists [], w, rest. split; [reflexivity |]. split; [reflexivity |]. reflexivity.
    + rewrite Hm.
      destruct (IH (x :: bef)) as [[-> Hall]|(pre & w & rest & -> & Hpre & ->)].
      * left. split; [reflexivity |]. cbn [noTag]. now rewrite Ex, Hall.
      * right. exists (x :: pre), w, rest. split; [reflexivity |].
        split; [cbn [existsb]; now rewrite (Z.eqb_sym 60 x), Ex, Hpre |].
        cbn [rev]. now rewrite <- !app_assoc.
Qed.

Lemma replaceFrom_tag : forall fuel bef aft,
  (length aft < fuel)%nat -> noTag (replaceFrom fuel tagRe [32] bef aft) = true.
Proof.
  induction fuel as [|fuel IH]; intros bef aft Hf; [lia |].
  cbn [replaceFrom].
  destruct (execFrom_tag aft bef) as [[-> Hall]|(pre & w & rest & -> & Hpre & ->)];
    [exact Hall |].
  cbn [start stop after before]. unfold matched, consumed. cbn [start stop after].
  replace (length (60%Z :: w ++ 62%Z :: rest) - length rest)%nat with (S (S (length w)))
    by (simpl; rewrite length_app; simpl; lia).
  cbn [firstn].
  replace (length (pre ++ 60%Z :: w ++ 62%Z :: rest)
           - length (60%Z :: w ++ 62%Z :: rest))%nat
    with (length pre) by (rewrite length_app; lia).
  rewrite firstn_app, firstn_all, Nat.sub_diag. cbn [firstn]. rewrite app_nil_r.
  apply noTag_app_no_lt; [exact Hpre |].
  change ([32] ++ ?l) with (32 :: l). cbn [noTag]. simpl Z.eqb. cbv iota. simpl andb.
  apply IH. rewrite !length_app in Hf. simpl in Hf. rewrite length_app in Hf. simpl in Hf. lia.
Qed.

(** The angle brackets of a text, in order. *)
Local Abbreviation isAngle := (fun c : Z => (c =? 60) || (c =? 62)).

Lemma existsb_angles (s : jsstring) :
  existsb (Z.eqb 62) (List.filter isAngle s) = existsb (Z.eqb 62) s.
Proof.
  induction s as [|c s IH]; [reflexivity |].
  cbn [List.filter existsb]. destruct (c =? 60) eqn:E60; destruct (c =? 62) eqn:E62;
    cbn [orb existsb]; rewrite ?IH, ?(Z.eqb_sym 62 c), ?E62; reflexivity.
Qed.

Lemma noTag_angles (s : jsstring) : noTag (List.filter isAngle s) = noTag s.
Proof.
  induction s as [|c s IH]; [reflexivity |].
  cbn [List.filter noTag]. destruct (c =? 60) eqn:E60.
  - cbn [orb noTag]. now rewrite E60, existsb_angles, IH.
  - destruct (c =? 62) eqn:E62; cbn [orb noTag]; rewrite ?E60, IH; reflexivity.
Qed.

Lemma whitespace_not_angle c : isWhiteSpace c = true -> isAngle c = false.
Proof.
  intros H. cbv beta. apply orb_false_iff. split; apply Z.eqb_neq; intros ->; discriminate H.
Qed.

Lemma angles_of_whitespace (w : jsstring) :
  forallb isWhiteSpace w = true -> List.filter isAngle w = [].
Proof.
  induction w as [|c w IH]; [reflexivity |].
  cbn [forallb List.filter]. intros H. apply andb_true_iff in H. destruct H as [Hc H].
  rewrite (whitespace_not_angle _ Hc). now apply IH.
Qed.

Lemma replaceFrom_spaces_angles : forall fuel bef aft,
  (length aft < fuel)%nat ->
  List.filter isAngle (replaceFrom fuel spacesRe [32] bef aft) = List.filter isAngle aft.
Proof.
  induction fuel as [|fuel IH]; intros bef aft Hf; [lia |].
  cbn [replaceFrom].
  destruct (execFrom_spaces aft bef)
    as [[-> Hall]|(pre & c & w & rest & -> & Hpre & Hc & Hw & Hr & ->)]; [reflexivity |].
  cbn [start stop after before]. unfold matched, consumed. cbn [start stop after].
  replace (length (c :: w ++ rest) - length rest)%nat with (S (length w))
    by (simpl; rewrite length_app; lia).
  cbn [firstn].
  replace (length (pre ++ c :: w ++ rest) - length (c :: w ++ rest))%nat with (length pre)
    by (rewrite length_app; lia).
  rewrite firstn_app, firstn_all, Nat.sub_diag. cbn [firstn]. rewrite app_nil_r.
  rewrite !List.filter_app. cbn [List.filter]. simpl Z.eqb. simpl orb. cbv iota.
  rewrite (whitespace_not_angle _ Hc), List.filter_app, (angles_of_whitespace _ Hw).
  rewrite IH; [reflexivity |].
  rewrite !length_app in Hf. simpl in Hf. rewrite length_app in Hf. lia.
Qed.

Lemma noTag_spec (s : jsstring) :
  noTag s = true ->
  forall i j, (i < j)%nat -> s !! i = Some 60 -> s !! j = Some 62 -> False.
Proof.
  induction s as [|c s IH]; intros H i j Hij Hi Hj; [destruct i; discriminate |].
  cbn [noTag] in H. apply andb_true_iff in H. destruct H as [Hc Hs].
  destruct j as [|j]; [lia |]. simpl in Hj.
  destruct i as [|i].
  - simpl in Hi. injection Hi as ->. simpl in Hc. apply negb_true_iff in Hc.
    assert (existsb (Z.eqb 62) s = true) as H'; [| congruence].
    apply existsb_exists. exists 62. split; [| reflexivity].
    apply list_elem_of_In. eapply list_elem_of_lookup_2; eauto.
  - simpl in Hi. apply (IH Hs i j); [lia | exact Hi | exact Hj].
Qed.

(** X25: the plain text that [extractPlainText] returns holds no complete
    tag: a [<] of it is followed, anywhere later, by no [>]. *)
Theorem extractPlainText_no_tag html i :
  extractPlainText html !! i = Some 60 ->
  forall j, (i < j)%nat -> extractPlainText html !! j <> Some 62.
Proof.
  intros Hi j Hij Hj. revert i j Hij Hi Hj.
  apply noTag_spec. unfold extractPlainText.
  destruct (truthy html); [| reflexivity].
  set (untagged := replaceAll tagRe [32] html).
  set (spaced := replaceAll spacesRe [32] untagged).
  assert (noTag untagged = true) as H1.
  { unfold untagged, replaceAll. apply replaceFrom_tag. lia. }
  assert (List.filter isAngle spaced = List.filter isAngle untagged) as H2.
  { unfold spaced, replaceAll. apply replaceFrom_spaces_angles. lia. }
  destruct (trim_infix spaced) as (pre & suf & E & Hpre & Hsuf).
  assert (List.filter isAngle (trim spaced) = List.filter isAngle spaced) as H3.
  { rewrite E at 2. rewrite !List.filter_app.
    now rewrite (angles_of_whitespace _ Hpre), (angles_of_whitespace _ Hsuf), app_nil_r. }
  rewrite <- noTag_angles, H3, H2, noTag_angles. exact H1.
Qed.

Lemma extractPlainText_no_tag_witness :
  extractPlainText (str "<b>a</b> < b") !! 2%nat = Some 60
  /\ forall j, (2 < j)%nat -> extractPlainText (str "<b>a</b> < b") !! j <> Some 62.
Proof.
  split; [vm_compute; reflexivity |].
  apply (extractPlainText_no_tag (str "<b>a</b> < b") 2).
  vm_compute. reflexivity.
Defined.

End TagFacts.

(** ** ResponseParser: further facts *)

Section ParserMoreFacts.
Import Parser.

Local Abbreviation oneLine s := (forallb (fun c => negb (isLineTerminator c)) s = true).

(** The labelled patterns: group 1 took part, is not empty and holds no
    line terminator. *)
Lemma labelledRe_line label st st' :
  matches (labelledRe label) st st' ->
  exists g, caps st' = (1%nat, g) :: caps st /\ g <> [] /\ oneLine g.
Proof.
  intros H. unfold labelledRe in H.
  apply matches_Seq_inv in H as (s1 & H1 & H).
  apply matches_Seq_inv in H as (s2 & H2 & H).
  apply matches_Seq_inv in H as (s3 & H3 & H).
  apply matches_Seq_inv in H as (s4 & H4 & H).
  apply matches_Seq_inv in H as (s5 & H5 & H).
  apply matches_noGroups in H1; [| apply noGroups_lit].
  apply matches_noGroups in H2; [| apply noGroups_lit].
  apply matches_noGroups in H3; [| apply noGroups_lit].
  apply matches_noGroups in H4; [| reflexivity].
  apply matches_noGroups in H; [| reflexivity].
  apply matches_Group_inv in H5 as (st1 & H5 & ->).
  unfold plus in H5. apply matches_Seq_inv in H5 as (sx & Hc & Hs).
  apply matches_Char_inv in Hc as (c & Hc & Hpc & Hcc).
  apply matches_Star_Char in Hs as (w & Hw & Hpw & Hcw).
  pose proof (spans_app _ _ _ _ _ Hc Hw) as Hsp.
  exists (c :: w). split; [| split; [discriminate |]].
  - rewrite H. simpl. rewrite (consumed_spans _ _ _ Hsp). simpl. congruence.
  - simpl. now rewrite Hpc, Hpw.
Qed.

Lemma titleRe_line st st' :
  matches titleRe st st' ->
  exists g, caps st' = (1%nat, g) :: caps st /\ oneLine g.
Proof.
  intros H. unfold titleRe in H.
  apply matches_Seq_inv in H as (s1 & H1 & H).
  apply matches_Seq_inv in H as (s2 & H2 & H).
  apply matches_Seq_inv in H as (s3 & H3 & H).
  apply matches_Seq_inv in H as (s4 & H4 & H).
  apply matches_noGroups in H1; [| reflexivity].
  apply matches_noGroups in H2; [| reflexivity].
  apply matches_noGroups in H3; [| reflexivity].
  apply matches_noGroups in H; [| reflexivity].
  apply matches_Group_inv in H4 as (st1 & H4 & ->).
  unfold plus in H4. apply matches_Seq_inv in H4 as (sx & Hc & Hs).
  apply matches_Char_inv in Hc as (c & Hc & Hpc & Hcc).
  apply matches_Star_Char in Hs as (w & Hw & Hpw & Hcw).
  pose proof (spans_app _ _ _ _ _ Hc Hw) as Hsp.
  exists (c :: w). split.
  - rewrite H. simpl. rewrite (consumed_spans _ _ _ Hsp). simpl. congruence.
  - simpl. now rewrite Hpc, Hpw.
Qed.

Lemma exec_group_line label text m :
  exec (labelledRe label) text = Some m ->
  exists g, group m 1 = Some g /\ g <> [] /\ oneLine g.
Proof.
  intros H. apply exec_sound in H as (_ & Hc & H).
  apply labelledRe_line in H as (g & E & Hne & Hl).
  exists g. split; [eapply group_lookup; exact E | auto].
Qed.

Lemma oneLine_trim s : oneLine s -> oneLine (trim s).
Proof.
  intros H. destruct (trim_infix s) as (pre & suf & E & _ & _).
  rewrite E in H. rewrite !forallb_app in H.
  apply andb_true_iff in H. destruct H as [_ H].
  apply andb_true_iff in H. now destruct H.
Qed.

Lemma trim_units (s : jsstring) c : In c (trim s) -> In c s.
Proof.
  intros H. destruct (trim_infix s) as (pre & suf & E & _ & _).
  rewrite E. apply in_or_app. right. apply in_or_app. now left.
Qed.

Lemma splitOn_units sep s piece c :
  In piece (splitOn sep s) -> In c piece -> In c s /\ c <> sep.
Proof.
  revert piece. induction s as [|x s IH]; intros piece Hp Hc; simpl in Hp.
  - destruct Hp as [<-|[]]. destruct Hc.
  - destruct (x =? sep) eqn:E.
    + destruct Hp as [<-|Hp]; [destruct Hc |].
      destruct (IH _ Hp Hc). split; [now right | assumption].
    + apply Z.eqb_neq in E.
      destruct (splitOn sep s) as [|y ys] eqn:Es.
      * destruct Hp as [<-|[]]. destruct Hc as [<-|[]]. split; [now left | exact E].
      * destruct Hp as [<-|Hp].
        -- destruct Hc as [<-|Hc]; [split; [now left | exact E] |].
           destruct (IH y (or_introl eq_refl) Hc). split; [now right | assumption].
        -- destruct (IH piece (or_intror Hp) Hc). split; [now right | assumption].
Qed.

Lemma listItems_units g name c :
  In name (listItems g) -> In c name ->
  In c g /\ c <> 44 /\ c <> 91 /\ c <> 93.
Proof.
  unfold listItems. rewrite in_map_iff. intros (piece & <- & Hp) Hc.
  unfold bracketRe, oneOf in Hc. rewrite replaceAll_Char in Hc.
  apply in_flat_map in Hc. destruct Hc as (x & Hx & Hc).
  destruct (existsb (Z.eqb x) [91; 93]) eqn:Eb; [destruct Hc |].
  destruct Hc as [<-|[]].
  apply trim_units in Hx. destruct (splitOn_units _ _ _ _ Hp Hx) as [Hin Hsep].
  split; [exact Hin |]. split; [exact Hsep |].
  simpl in Eb. rewrite orb_false_r in Eb. apply orb_false_iff in Eb. destruct Eb as [E1 E2].
  split; now apply Z.eqb_neq.
Qed.

Lemma namesOf_units label text names name c :
  namesOf (labelledRe label) text = Some names ->
  In name names -> In c name ->
  c <> 44 /\ c <> 91 /\ c <> 93 /\ isLineTerminator c = false.
Proof.
  unfold namesOf. destruct (exec (labelledRe label) text) as [m|] eqn:E.
  - destruct (exec_group_line _ _ _ E) as (g & -> & _ & Hl). simpl.
    intros [= <-] Hn Hc. destruct (listItems_units _ _ _ Hn Hc) as (Hin & H1 & H2 & H3).
    split; [exact H1 |]. split; [exact H2 |]. split; [exact H3 |].
    rewrite forallb_forall in Hl. specialize (Hl _ Hin). now apply negb_true_iff in Hl.
  - intros [= <-] [].
Qed.

(** The suggestion that the parser returns, with where its parts come
    from. *)
Lemma parseMarkdownArticle_parts text :
  exists title meta cats tgs hs,
    titleOf text = Some title /\ metaDescriptionOf text = Some meta
    /\ namesOf categoryRe text = Some cats /\ namesOf tagRe text = Some tgs
    /\ parseMarkdownArticle text =
       {| titles := [title];
          categories := {| existing := []; new := List.filter nonEmpty cats |};
          tags := {| existing := []; new := List.filter nonEmpty tgs |};
          structure := {| headings := hs |};
          metaDescriptions := if truthy meta then [meta] else [];
          content := None;
          fullArticle :=
            Some {| introduction := introductionOf (split sectionRe (bodyOf text));
                    mainContent := bodyOf text;
                    conclusion := conclusionOf (split sectionRe (bodyOf text)) |} |}.
Proof.
  destruct (titleOf_total text) as [title Et].
  destruct (metaDescriptionOf_total text) as [meta Em].
  destruct (namesOf_total (str "推奨カテゴリー:") text) as [cats Ec].
  destruct (namesOf_total (str "推奨タグ:") text) as [tgs Eg].
  destruct (headingsOf_valid (bodyOf text)) as (hs & Eh & Hv).
  exists title, meta, cats, tgs, hs.
  split; [exact Et |]. split; [exact Em |]. split; [exact Ec |]. split; [exact Eg |].
  unfold parseMarkdownArticle, extract. rewrite Et. simpl. rewrite Em. simpl.
  unfold categoryRe, tagRe. rewrite Ec. simpl. rewrite Eg. simpl.
  rewrite fullContentOf_bodyOf. simpl. rewrite Eh. reflexivity.
Qed.

(** X26: every category name and every tag name that
    [parseMarkdownArticle] returns is non-empty and holds no bracket, no
    comma and no line terminator. *)
Theorem parseMarkdownArticle_names text :
  forall name,
    In name (new (categories (parseMarkdownArticle text)))
    \/ In name (new (tags (parseMarkdownArticle text))) ->
    name <> []
    /\ forall c, In c name ->
         c <> 91 /\ c <> 93 /\ c <> 44 /\ isLineTerminator c = false.
Proof.
  intros name.
  destruct (parseMarkdownArticle_parts text)
    as (title & meta & cats & tgs & hs & _ & _ & Ec & Et & ->).
  cbn [categories tags new].
  intros [H|H]; apply filter_In in H; destruct H as [Hin Hne].
  - split; [intros ->; discriminate |]. intros c Hc.
    destruct (namesOf_units _ _ _ _ _ Ec Hin Hc) as (H1 & H2 & H3 & H4). auto.
  - split; [intros ->; discriminate |]. intros c Hc.
    destruct (namesOf_units _ _ _ _ _ Et Hin Hc) as (H1 & H2 & H3 & H4). auto.
Qed.

Lemma parseMarkdownArticle_names_witness :
  In (str "SEO") (new (categories (parseMarkdownArticle exampleInput)))
  /\ str "SEO" <> []
  /\ forall c, In c (str "SEO") ->
       c <> 91 /\ c <> 93 /\ c <> 44 /\ isLineTerminator c = false.
Proof.
  assert (In (str "SEO") (new (categories (parseMarkdownArticle exampleInput)))) as H.
  { vm_compute. left. reflexivity. }
  split; [exact H |].
  apply (parseMarkdownArticle_names exampleInput (str "SEO")). left. exact H.
Defined.

(** X27: [parseMarkdownArticle] returns at most one meta description,
    and it is not empty. The meta description and the title are trimmed
    (trimming them again changes nothing) and hold no line terminator. *)
Theorem parseMarkdownArticle_single_lines text :
  let r := parseMarkdownArticle text in
  (length (metaDescriptions r) <= 1)%nat
  /\ (forall meta, In meta (metaDescriptions r) ->
        meta <> [] /\ trim meta = meta
        /\ forall c, In c meta -> isLineTerminator c = false)
  /\ (forall title, In title (titles r) ->
        trim title = title
        /\ forall c, In c title -> isLineTerminator c = false).
Proof.
  cbv zeta.
  assert (forall s : jsstring, oneLine s -> forall c, In c s -> isLineTerminator c = false)
    as Hline.
  { intros s Hl c Hc. rewrite forallb_forall in Hl. specialize (Hl _ Hc).
    now apply negb_true_iff in Hl. }
  destruct (parseMarkdownArticle_parts text)
    as (title & meta & cats & tgs & hs & Etitle & Emeta & _ & _ & ->).
  cbn [metaDescriptions titles].
  assert (trim title = title /\ oneLine title) as [Ht1 Ht2].
  { unfold titleOf in Etitle. destruct (exec titleRe text) as [m|] eqn:Em.
    - apply exec_sound in Em as (_ & _ & Hm).
      apply titleRe_line in Hm as (g & Eg & Hl).
      rewrite (group_lookup _ _ _ _ Eg) in Etitle. simpl in Etitle.
      injection Etitle as <-. split; [apply trim_idempotent | now apply oneLine_trim].
    - injection Etitle as <-. split; vm_compute; reflexivity. }
  assert (trim meta = meta /\ oneLine meta) as [Hm1 Hm2].
  { unfold metaDescriptionOf, metaRe in Emeta.
    destruct (exec (labelledRe _) text) as [m|] eqn:Em.
    - destruct (exec_group_line _ _ _ Em) as (g & Eg & _ & Hl).
      rewrite Eg in Emeta. simpl in Emeta. injection Emeta as <-.
      split; [apply trim_idempotent | now apply oneLine_trim].
    - injection Emeta as <-. split; reflexivity. }
  split; [destruct (truthy meta); simpl; lia |]. split.
  - intros s Hs. destruct meta as [|c0 m0]; simpl in Hs; [destruct Hs |].
    destruct Hs as [<-|[]]. split; [discriminate |]. split; [exact Hm1 |].
    now apply Hline.
  - intros s [<-|[]]. split; [exact Ht1 | now apply Hline].
Qed.

End ParserMoreFacts.

(** ** File validation *)

Section FileFacts.
Import Files.

Variable toLowerCase : jsstring -> jsstring.

Lemma splitOn_nonempty sep s : Parser.splitOn sep s <> [].
Proof.
  destruct s as [|c s]; simpl; [discriminate |].
  destruct (c =? sep); [discriminate |].
  destruct (Parser.splitOn sep s); discriminate.
Qed.

Lemma splitOn_no_sep sep s : ~ In sep s -> Parser.splitOn sep s = [s].
Proof.
  induction s as [|c s IH]; intros H; simpl; [reflexivity |].
  destruct (c =? sep) eqn:E.
  - apply Z.eqb_eq in E. exfalso. apply H. now left.
  - rewrite IH; [reflexivity |]. intros H'. apply H. now right.
Qed.

Lemma last_cons_nonempty {A} (x : A) l d : l <> [] -> List.last (x :: l) d = List.last l d.
Proof. destruct l; [congruence | reflexivity]. Qed.

Lemma lastSegment_cons c s :
  lastSegment (c :: s) = if existsb (Z.eqb 46) s then lastSegment s
                         else if c =? 46 then s else c :: s.
Proof.
  unfold lastSegment. cbn [Parser.splitOn].
  destruct (existsb (Z.eqb 46) s) eqn:Ed.
  - destruct (c =? 46).
    + apply last_cons_nonempty, splitOn_nonempty.
    + destruct (Parser.splitOn 46 s) as [|x xs] eqn:Es; [now apply splitOn_nonempty in Es |].
      destruct xs as [|y ys]; [| reflexivity].
      exfalso. apply existsb_exists in Ed. destruct Ed as (d & Hd & E).
      apply Z.eqb_eq in E. subst d.
      clear -Hd Es. revert x Es. induction s as [|a s IH]; intros x Es; [destruct Hd |].
      simpl in Es. destruct (a =? 46) eqn:Ea.
      * injection Es as _ Es. now apply splitOn_nonempty in Es.
      * destruct (Parser.splitOn 46 s) as [|x' xs'] eqn:Es'; [now apply splitOn_nonempty in Es' |].
        injection Es as _ ->. destruct Hd as [->|Hd]; [discriminate Ea |].
        now apply (IH Hd x').
  - assert (~ In 46 s) as Hno.
    { intros H. assert (existsb (Z.eqb 46) s = true); [| congruence].
      apply existsb_exists. exists 46. split; [exact H | reflexivity]. }
    rewrite (splitOn_no_sep _ _ Hno). destruct (c =? 46); reflexivity.
Qed.

(** The last segment of a name is what follows its last dot. *)
Lemma lastSegment_after_dot pre ext :
  ~ In 46 ext -> lastSegment (pre ++ 46 :: ext) = ext.
Proof.
  intros Hno.
  assert (existsb (Z.eqb 46) ext = false) as He.
  { apply not_true_is_false. intros H. apply existsb_exists in H.
    destruct H as (d & Hd & E). apply Z.eqb_eq in E. now subst d. }
  induction pre as [|c pre IH].
  - simpl app. rewrite lastSegment_cons, He. reflexivity.
  - simpl app. rewrite lastSegment_cons.
    assert (existsb (Z.eqb 46) (pre ++ 46 :: ext) = true) as ->; [| exact IH].
    apply existsb_exists. exists 46. split; [| reflexivity].
    apply in_or_app. right. now left.
Qed.

Lemma lastSegment_no_dot s : ~ In 46 s -> lastSegment s = s.
Proof. intros H. unfold lastSegment. now rewrite splitOn_no_sep. Qed.

Lemma isFileSupported_extension file :
  isFileSupported toLowerCase file = true <->
  In (toLowerCase (lastSegment (name file)))
     [str "txt"; str "md"; str "docx"; str "pdf"; str "html"; str "htm"].
Proof.
  unfold isFileSupported. cbv zeta. rewrite existsb_exists.
  set (x := toLowerCase (lastSegment (name file))).
  assert (str "." = [46]) as Hdot by (vm_compute; reflexivity).
  split.
  - intros (e & He & E). apply streq_true in E. subst e.
    unfold getSupportedExtensions in He. cbn [concat app] in He.
    rewrite Hdot in He. cbn [app] in He.
    assert (forall w : jsstring, w = 46 :: x -> x = List.tl w) as Htl by (now intros w ->).
    destruct He as [He|[He|[He|[He|[He|[He|[]]]]]]]; apply Htl in He; rewrite He.
    + now left.
    + right. now left.
    + do 2 right. now left.
    + do 3 right. now left.
    + do 4 right. now left.
    + do 5 right. now left.
  - intros Hx. exists (str "." ++ x). split; [| now apply streq_true].
    unfold getSupportedExtensions. cbn [concat app].
    destruct Hx as [<-|[<-|[<-|[<-|[<-|[<-|[]]]]]]].
    + now left.
    + right. now left.
    + do 2 right. now left.
    + do 3 right. now left.
    + do 4 right. now left.
    + do 5 right. now left.
Qed.

(** X28: [validateFile] accepts a file exactly when its size is not
    zero and at most 10 MiB and the lower-case form of the last segment of
    its name, what follows the last dot or the whole name without a dot,
    is one of txt, md, docx, pdf, html and htm; it reports an error
    exactly when it does not accept, the size limit first, then the empty
    file, then the extension. *)
Theorem validateFile_accepts file :
  let r := validateFile toLowerCase file in
  (valid r = true <->
   size file <= 10485760 /\ size file <> 0
   /\ In (toLowerCase (lastSegment (name file)))
        [str "txt"; str "md"; str "docx"; str "pdf"; str "html"; str "htm"])
  /\ (valid r = true <-> error r = None)
  /\ (10485760 < size file -> error r = Some (str "ファイルサイズが10MBを超えています"))
  /\ (size file = 0 -> error r = Some (str "ファイルが空です"))
  /\ (forall pre ext, ~ In 46 ext -> lastSegment (pre ++ 46 :: ext) = ext)
  /\ (forall s, ~ In 46 s -> lastSegment s = s).
Proof.
  cbv zeta. unfold validateFile. change MAX_FILE_SIZE with 10485760.
  rewrite <- isFileSupported_extension.
  destruct (10485760 <? size file) eqn:E1;
    [apply Z.ltb_lt in E1 | apply Z.ltb_ge in E1].
  - cbn [valid error].
    split; [split; [discriminate | lia] |].
    split; [split; discriminate |].
    split; [reflexivity |]. split; [lia |].
    split; [apply lastSegment_after_dot | apply lastSegment_no_dot].
  - destruct (size file =? 0) eqn:E2; [apply Z.eqb_eq in E2 | apply Z.eqb_neq in E2].
    + cbn [valid error].
      split; [split; [discriminate | lia] |].
      split; [split; discriminate |].
      split; [lia |]. split; [reflexivity |].
      split; [apply lastSegment_after_dot | apply lastSegment_no_dot].
    + destruct (isFileSupported toLowerCase file) eqn:E3; cbn [negb valid error].
      * split; [split; auto |]. split; [split; reflexivity |].
        split; [lia |]. split; [lia |].
        split; [apply lastSegment_after_dot | apply lastSegment_no_dot].
      * split; [split; [discriminate | intros (_ & _ & H); discriminate] |].
        split; [split; discriminate |].
        split; [lia |]. split; [lia |].
        split; [apply lastSegment_after_dot | apply lastSegment_no_dot].
Qed.

End FileFacts.
